(** * Library recommendation front end: API client, reading-list
      controller and confirmation flow

    A shallow embedding of
      - [src/services/api.ts]                  (modules [Api], [ApiAdmin]),
      - [utils/errorHandling]                  (module [Notify]),
      - [src/contexts/ConfirmationContext.tsx] (module [Confirmation]),
      - the [ReadingLists] page component      (modules [ReadingLists],
                                                [ReadingListsAsync]),
      - the [Books] page component             (module [Books]),
      - the [Signup] page component            (modules [Signup],
                                                [SignupAsync]),
    over the JavaScript values of module [Js], with the page wired to
    the client in module [Backend] and a JSON decoder for concrete
    documents in module [JsonText].  The modules whose name ends in
    [Async] have the handlers cut at their [await], for what happens
    when operations overlap.  The properties are stated in the modules
    whose name ends in [Facts].

    A [string] holds the UTF-8 encoding of a text of the program. *)

From Stdlib Require Import String Ascii List ZArith Bool Lia.
From Stdlib Require Import DecimalString.
From Stdlib Require Import Permutation Sorted.
Import ListNotations.
Open Scope string_scope.
Open Scope Z_scope.

Set Warnings "-register-all".

(* ===================================================================== *)
(** * JavaScript values that the client manipulates *)
(* ===================================================================== *)

Module Js.

(** A decoded JSON document.  Numbers are the integer fragment of JSON
    numbers.  An object keeps its members in document order. *)
Inductive json : Type :=
| JNull
| JBool (b : bool)
| JNum (n : Z)
| JStr (s : string)
| JArr (items : list json)
| JObj (members : list (string * json)).

(** A JavaScript value read out of a document: [None] is [undefined]. *)
Definition value : Type := option json.

(** The three classes of exception the client can see. All of them are
    [instanceof Error]. *)
Inductive js_error : Type :=
| Error (message : string)
| SyntaxError (message : string)
| TypeError (message : string).

Definition error_message (e : js_error) : string :=
  match e with
  | Error m | SyntaxError m | TypeError m => m
  end.

(** The outcome of an [async] function: the promise fulfils with a value
    or rejects with an exception. *)
Inductive result (A : Type) : Type :=
| Ok (a : A)
| Throw (e : js_error).
Arguments Ok {A} a.
Arguments Throw {A} e.

Definition bind {A B} (m : result A) (k : A -> result B) : result B :=
  match m with
  | Ok a => k a
  | Throw e => Throw e
  end.

Notation "x <- m ;; k" := (bind m (fun x => k))
  (at level 61, m at next level, right associativity).

(** [try { m } catch { h }] *)
Definition try_catch {A} (m : result A) (h : js_error -> result A) : result A :=
  match m with
  | Ok a => Ok a
  | Throw e => h e
  end.

(** ToBoolean. *)
Definition truthy_json (v : json) : bool :=
  match v with
  | JNull => false
  | JBool b => b
  | JNum n => negb (n =? 0)
  | JStr s => negb (s =? "")%string
  | JArr _ | JObj _ => true
  end.

Definition truthy (v : value) : bool :=
  match v with
  | None => false
  | Some j => truthy_json j
  end.

Definition string_of_Z (n : Z) : string :=
  NilZero.string_of_int (Z.to_int n).

(** ToString.  An array prints as its elements joined by commas, with
    [null] elements printing as the empty string; an object prints as
    [[object Object]]. *)
Fixpoint to_string (v : json) : string :=
  match v with
  | JNull => "null"
  | JBool true => "true"
  | JBool false => "false"
  | JNum n => string_of_Z n
  | JStr s => s
  | JArr items =>
      (fix join (l : list json) : string :=
         match l with
         | [] => ""
         | x :: r =>
             let sx := match x with JNull => "" | _ => to_string x end in
             match r with
             | [] => sx
             | _ :: _ => sx ++ "," ++ join r
             end
         end) items
  | JObj _ => "[object Object]"
  end.

(** Own-property lookup in a decoded object; of duplicate members the
    last one is the one [JSON.parse] keeps. *)
Fixpoint lookup_member (k : string) (ms : list (string * json)) : value :=
  match ms with
  | [] => None
  | (k', v) :: r =>
      match lookup_member k r with
      | Some w => Some w
      | None => if (k =? k')%string then Some v else None
      end
  end.

(** [v.k] for a data property name [k] that no prototype defines
    ([body], [error]): reading from [null] throws, every value that is
    not an object has no such property. *)
Definition get_prop (v : json) (k : string) : result value :=
  match v with
  | JNull =>
      Throw (TypeError ("Cannot read properties of null (reading '" ++ k ++ "')"))
  | JObj ms => Ok (lookup_member k ms)
  | _ => Ok None
  end.

(** [k in v] for an object or an array [v]. *)
Definition has_prop (v : json) (k : string) : bool :=
  match v with
  | JObj ms => match lookup_member k ms with Some _ => true | None => false end
  | _ => false
  end.

(** [typeof v === 'object'] *)
Definition typeof_object (v : json) : bool :=
  match v with
  | JNull | JArr _ | JObj _ => true
  | _ => false
  end.

Definition isArray (v : json) : bool :=
  match v with
  | JArr _ => true
  | _ => false
  end.

(** [v.slice(1)] on a decoded document: arrays and strings have the
    method, [null] throws on the property read, anything else has no
    [slice] to call.  Of a string it drops the first character, taken
    here to be an ASCII one (one byte). *)
Definition slice1 (v : json) : result json :=
  match v with
  | JArr items => Ok (JArr (skipn 1 items))
  | JStr s => Ok (JStr (String.substring 1 (String.length s - 1) s))
  | JNull => Throw (TypeError "Cannot read properties of null (reading 'slice')")
  | _ => Throw (TypeError "real_data.slice is not a function")
  end.

End Js.

(* ===================================================================== *)
(** * The API client ([src/services/api.ts]) *)
(* ===================================================================== *)

Module Api.
Import Js.

(** What [fetch] is called with.  [req_body] is the value handed to
    [JSON.stringify]. *)
Record Request : Type := {
  req_method : string;
  req_url : string;
  req_headers : list (string * string);
  req_body : option json
}.

(** What the client reads of a [Response]: the status line and the body
    text. *)
Record Response : Type := {
  status : Z;
  text : string
}.

(** [fetch] either rejects (transport failure) or yields a response. *)
Inductive fetch_outcome : Type :=
| Rejected (e : js_error)
| Responded (r : Response).

(** [response.ok] *)
Definition ok (r : Response) : bool :=
  (200 <=? status r) && (status r <=? 299).

Section Client.

(** The environment of the module: the configured base URL, the session
    token when there is one, the network, and the platform's JSON
    decoder ([None] when [JSON.parse] throws, with the engine's message
    for that text). *)
Variable API_BASE_URL : string.
Variable session_token : option string.
Variable fetch : Request -> fetch_outcome.
Variable JSON_parse : string -> option json.
Variable syntax_message : string -> string.

Definition parse (s : string) : result json :=
  match JSON_parse s with
  | Some v => Ok v
  | None => Throw (SyntaxError (syntax_message s))
  end.

(** [await response.json()] *)
Definition response_json (r : Response) : result json :=
  parse (text r).

(** [await fetch(...)] *)
Definition await_fetch (q : Request) : result Response :=
  match fetch q with
  | Rejected e => Throw e
  | Responded r => Ok r
  end.

Definition getAuthHeaders : list (string * string) :=
  match session_token with
  | Some token =>
      [("Authorization", "Bearer " ++ token);
       ("Content-Type", "application/json")]
  | None => [("Content-Type", "application/json")]
  end.

(** The tail shared by the read endpoints and [updateReadingList]:
    [if (data.body) return JSON.parse(data.body)]. *)
Definition unwrap_body (data : json) (direct : json -> json) : result json :=
  b <- get_prop data "body" ;;
  if truthy b
  then match b with
       | Some bv => parse (to_string bv)
       | None => Ok (direct data)
       end
  else Ok (direct data).

Definition array_or_empty (data : json) : json :=
  if isArray data then data else JArr [].

(** [getBooks] *)
Definition getBooks : result json :=
  response <- await_fetch
    {| req_method := "GET"; req_url := API_BASE_URL ++ "/books";
       req_headers := []; req_body := None |} ;;
  if negb (ok response) then Throw (Error "Failed to fetch books") else
  data <- response_json response ;;
  b <- get_prop data "body" ;;
  if truthy b
  then match b with
       | Some bv => real_data <- parse (to_string bv) ;; slice1 real_data
       | None => Ok (array_or_empty data)
       end
  else Ok (array_or_empty data).

(** [getBook]; the result [JNull] is JavaScript's [null]. *)
Definition getBook (id : string) : result json :=
  response <- await_fetch
    {| req_method := "GET"; req_url := API_BASE_URL ++ "/books/" ++ id;
       req_headers := []; req_body := None |} ;;
  if status response =? 404 then Ok JNull else
  if negb (ok response) then Throw (Error "Failed to fetch book") else
  data <- response_json response ;;
  unwrap_body data (fun d => d).

(** The [try] block of [createBook] and [updateBook]: it leaves
    [(parsedData, errorData)]; an exception inside keeps what was
    assigned before it. *)
Definition decode_payload (response : Response) : json * json :=
  if (text response =? "")%string then (JNull, JObj []) else
  match JSON_parse (text response) with
  | None => (JNull, JObj [])
  | Some parsedData =>
      if truthy_json parsedData && typeof_object parsedData
         && has_prop parsedData "body"
      then match get_prop parsedData "body" with
           | Ok (Some (JStr body)) =>
               match JSON_parse body with
               | Some parsedBody => (parsedBody, parsedBody)
               | None => (parsedData, JObj [])
               end
           | Ok (Some body) => (body, body)
           | _ => (parsedData, JObj [])
           end
      else (parsedData, parsedData)
  end.

(** [throw new Error(errorData.error || fallback)] *)
Definition throw_error_or {A} (errorData : json) (fallback : string) : result A :=
  e <- get_prop errorData "error" ;;
  if truthy e
  then match e with
       | Some ev => Throw (Error (to_string ev))
       | None => Throw (Error fallback)
       end
  else Throw (Error fallback).

(** [createBook] *)
Definition createBook (book : json) : result json :=
  let headers := getAuthHeaders in
  response <- await_fetch
    {| req_method := "POST"; req_url := API_BASE_URL ++ "/books";
       req_headers := headers; req_body := Some book |} ;;
  let '(parsedData, errorData) := decode_payload response in
  if status response =? 401
  then throw_error_or errorData "Unauthorized: Please login again" else
  if status response =? 403
  then throw_error_or errorData "Forbidden: Admin access required" else
  if status response =? 400
  then throw_error_or errorData "Invalid request: Missing required fields" else
  if status response =? 409
  then throw_error_or errorData "Book with this id already exists" else
  if negb (ok response)
  then throw_error_or errorData "Failed to create book" else
  Ok parsedData.

(** [getReadingLists] *)
Definition getReadingLists : result json :=
  let headers := getAuthHeaders in
  response <- await_fetch
    {| req_method := "GET"; req_url := API_BASE_URL ++ "/reading-lists";
       req_headers := headers; req_body := None |} ;;
  if negb (ok response) then Throw (Error "Failed to fetch reading lists") else
  data <- response_json response ;;
  unwrap_body data array_or_empty.

(** [createReadingList] *)
Definition createReadingList (list : json) : result json :=
  let headers := getAuthHeaders in
  response <- await_fetch
    {| req_method := "POST"; req_url := API_BASE_URL ++ "/reading-lists";
       req_headers := headers; req_body := Some list |} ;;
  if negb (ok response) then Throw (Error "Failed to create reading list") else
  data <- response_json response ;;
  unwrap_body data (fun d => d).

(** [updateReadingList] *)
Definition updateReadingList (id : string) (updates : json) : result json :=
  let headers := getAuthHeaders in
  response <- await_fetch
    {| req_method := "PUT"; req_url := API_BASE_URL ++ "/reading-lists/" ++ id;
       req_headers := headers; req_body := Some updates |} ;;
  if status response =? 401
  then Throw (Error "Unauthorized: Please login again") else
  if status response =? 404
  then Throw (Error "Reading list not found") else
  if status response =? 400
  then errorData <- try_catch (response_json response) (fun _ => Ok (JObj [])) ;;
       throw_error_or errorData "Invalid request" else
  if negb (ok response)
  then Throw (Error "Failed to update reading list") else
  data <- response_json response ;;
  unwrap_body data (fun d => d).

(** The [try] block of [deleteReadingList]; it leaves [errorData]. *)
Definition decode_error (response : Response) : json :=
  if (text response =? "")%string then JObj [] else
  match JSON_parse (text response) with
  | None => JObj []
  | Some parsed =>
      match get_prop parsed "body" with
      | Throw _ => JObj []
      | Ok b =>
          if truthy b
          then match b with
               | Some bv =>
                   match JSON_parse (to_string bv) with
                   | Some errorData => errorData
                   | None => JObj []
                   end
               | None => parsed
               end
          else parsed
      end
  end.

(** [deleteReadingList]; it fulfils with nothing. *)
Definition deleteReadingList (id : string) : result unit :=
  if (id =? "")%string then Throw (Error "Reading list ID is required") else
  let headers := getAuthHeaders in
  let url := API_BASE_URL ++ "/reading-lists/" ++ id in
  response <- await_fetch
    {| req_method := "DELETE"; req_url := url;
       req_headers := headers; req_body := None |} ;;
  let errorData := decode_error response in
  if status response =? 401
  then throw_error_or errorData "Unauthorized: Please login again" else
  if status response =? 404
  then throw_error_or errorData "Reading list not found" else
  if status response =? 400
  then throw_error_or errorData "Invalid request" else
  if negb (ok response)
  then throw_error_or errorData "Failed to delete reading list" else
  Ok tt.

End Client.
End Api.

(* ===================================================================== *)
(** * A JSON decoder for concrete documents *)
(* ===================================================================== *)

(** The theorems about the client hold for every decoder.  This one
    reads the fragment of JSON with integer numbers and the one-letter
    escapes, and is what the concrete runs below decode with. *)
Module JsonText.
Import Js.

Definition dquote : ascii := ascii_of_nat 34.
Definition backslash : ascii := ascii_of_nat 92.

Definition is_ws (c : ascii) : bool :=
  let n := nat_of_ascii c in
  ((n =? 32) || (n =? 9) || (n =? 10) || (n =? 13))%nat.

Definition is_digit (c : ascii) : bool :=
  let n := nat_of_ascii c in
  ((48 <=? n) && (n <=? 57))%nat.

Definition digit_value (c : ascii) : Z :=
  Z.of_nat (nat_of_ascii c - 48).

Fixpoint skip_ws (s : string) : string :=
  match s with
  | String c r => if is_ws c then skip_ws r else s
  | EmptyString => s
  end.

(** [expect lit s] strips the prefix [lit] from [s]. *)
Fixpoint expect (lit s : string) : option string :=
  match lit with
  | EmptyString => Some s
  | String a lit' =>
      match s with
      | String b s' => if Ascii.eqb a b then expect lit' s' else None
      | EmptyString => None
      end
  end.

Definition unescape (c : ascii) : option ascii :=
  if Ascii.eqb c dquote then Some dquote
  else if Ascii.eqb c backslash then Some backslash
  else if Ascii.eqb c "/" then Some "/"%char
  else if Ascii.eqb c "n" then Some (ascii_of_nat 10)
  else if Ascii.eqb c "t" then Some (ascii_of_nat 9)
  else if Ascii.eqb c "r" then Some (ascii_of_nat 13)
  else if Ascii.eqb c "b" then Some (ascii_of_nat 8)
  else if Ascii.eqb c "f" then Some (ascii_of_nat 12)
  else None.

(** The characters of a string literal, after its opening quote. *)
Fixpoint read_string (s : string) : option (string * string) :=
  match s with
  | EmptyString => None
  | String c r =>
      if Ascii.eqb c dquote then Some (EmptyString, r)
      else if Ascii.eqb c backslash then
        match r with
        | String e r' =>
            match unescape e, read_string r' with
            | Some ch, Some (str, rest) => Some (String ch str, rest)
            | _, _ => None
            end
        | EmptyString => None
        end
      else if (nat_of_ascii c <? 32)%nat then None
      else match read_string r with
           | Some (str, rest) => Some (String c str, rest)
           | None => None
           end
  end.

Fixpoint read_digits (s : string) (acc : Z) : Z * string :=
  match s with
  | String c r =>
      if is_digit c then read_digits r (10 * acc + digit_value c) else (acc, s)
  | EmptyString => (acc, s)
  end.

Definition starts_with_any (cs : list ascii) (s : string) : bool :=
  match s with
  | String c _ => existsb (Ascii.eqb c) cs
  | EmptyString => false
  end.

(** An integer literal: no leading zero, no fraction, no exponent. *)
Definition read_unsigned (s : string) : option (Z * string) :=
  match s with
  | String c r =>
      if negb (is_digit c) then None
      else if Ascii.eqb c "0" && starts_with_any
                ["0"; "1"; "2"; "3"; "4"; "5"; "6"; "7"; "8"; "9"]%char r
      then None
      else let '(n, rest) := read_digits s 0 in
           if starts_with_any ["."; "e"; "E"]%char rest then None
           else Some (n, rest)
  | EmptyString => None
  end.

Fixpoint parse_value (fuel : nat) (s : string) : option (json * string) :=
  match fuel with
  | O => None
  | S fuel' =>
      match skip_ws s with
      | EmptyString => None
      | String c r =>
          if Ascii.eqb c "n" then option_map (pair JNull) (expect "ull" r)
          else if Ascii.eqb c "t" then option_map (pair (JBool true)) (expect "rue" r)
          else if Ascii.eqb c "f" then option_map (pair (JBool false)) (expect "alse" r)
          else if Ascii.eqb c dquote then
            match read_string r with
            | Some (str, rest) => Some (JStr str, rest)
            | None => None
            end
          else if Ascii.eqb c "-" then
            match read_unsigned r with
            | Some (n, rest) => Some (JNum (- n), rest)
            | None => None
            end
          else if Ascii.eqb c "[" then
            match skip_ws r with
            | String d r' =>
                if Ascii.eqb d "]" then Some (JArr [], r')
                else match parse_items fuel' r with
                     | Some (items, rest) => Some (JArr items, rest)
                     | None => None
                     end
            | EmptyString => None
            end
          else if Ascii.eqb c "{" then
            match skip_ws r with
            | String d r' =>
                if Ascii.eqb d "}" then Some (JObj [], r')
                else match parse_members fuel' r with
                     | Some (ms, rest) => Some (JObj ms, rest)
                     | None => None
                     end
            | EmptyString => None
            end
          else match read_unsigned (String c r) with
               | Some (n, rest) => Some (JNum n, rest)
               | None => None
               end
      end
  end
with parse_items (fuel : nat) (s : string) : option (list json * string) :=
  match fuel with
  | O => None
  | S fuel' =>
      match parse_value fuel' s with
      | None => None
      | Some (v, rest) =>
          match skip_ws rest with
          | String d r' =>
              if Ascii.eqb d "]" then Some ([v], r')
              else if Ascii.eqb d "," then
                match parse_items fuel' r' with
                | Some (vs, rest') => Some (v :: vs, rest')
                | None => None
                end
              else None
          | EmptyString => None
          end
      end
  end
with parse_members (fuel : nat) (s : string)
  : option (list (string * json) * string) :=
  match fuel with
  | O => None
  | S fuel' =>
      match skip_ws s with
      | String q r =>
          if negb (Ascii.eqb q dquote) then None else
          match read_string r with
          | None => None
          | Some (k, after_key) =>
              match skip_ws after_key with
              | String colon after_colon =>
                  if negb (Ascii.eqb colon ":") then None else
                  match parse_value fuel' after_colon with
                  | None => None
                  | Some (v, rest) =>
                      match skip_ws rest with
                      | String d r' =>
                          if Ascii.eqb d "}" then Some ([(k, v)], r')
                          else if Ascii.eqb d "," then
                            match parse_members fuel' r' with
                            | Some (ms, rest') => Some ((k, v) :: ms, rest')
                            | None => None
                            end
                          else None
                      | EmptyString => None
                      end
                  end
              | EmptyString => None
              end
          end
      | EmptyString => None
      end
  end.

(** [JSON.parse] on the fragment: the whole text must be one document. *)
Definition JSON_parse (s : string) : option json :=
  match parse_value (2 * String.length s + 2) s with
  | Some (v, rest) =>
      match skip_ws rest with
      | EmptyString => Some v
      | String _ _ => None
      end
  | None => None
  end.

(** The message of the [SyntaxError] for a text; engines word it
    differently, the client never inspects it. *)
Definition syntax_message (s : string) : string :=
  match s with
  | EmptyString => "Unexpected end of JSON input"
  | String _ _ => "Unexpected token in JSON"
  end.

(** Concrete documents are written with apostrophes for the double
    quotes of JSON. *)
Fixpoint qq (s : string) : string :=
  match s with
  | EmptyString => EmptyString
  | String c r => String (if Ascii.eqb c "'" then dquote else c) (qq r)
  end.

End JsonText.


(* ===================================================================== *)
(** * The notification channel ([utils/errorHandling]) *)
(* ===================================================================== *)

Module Notify.
Import Js.

Inductive ToastType : Type := success | error | info | warning.

(** Where a message went: the registered display surface, or the
    blocking [alert] used while none is registered. *)
Inductive surface : Type := ViaToast | ViaAlert.

Record notification : Type := {
  kind : ToastType;
  message : string;
  via : surface
}.

(** The text of the fallback [alert]. *)
Definition alert_text (n : notification) : string :=
  match kind n with
  | success => "Success: " ++ message n
  | error => "Error: " ++ message n
  | info => "Info: " ++ message n
  | warning => "Warning: " ++ message n
  end.

Section Channel.

(** [toastFunctions !== null]: a display surface has registered. *)
Variable toastFunctions : bool.

Definition send (k : ToastType) (m : string) : notification :=
  {| kind := k; message := m;
     via := if toastFunctions then ViaToast else ViaAlert |}.

(** [handleApiError]: every exception of the model is an [Error]
    instance, so the message shown is its [message]. *)
Definition handleApiError (e : js_error) : notification :=
  send error (error_message e).

Definition showSuccess (m : string) : notification := send success m.
Definition showInfo (m : string) : notification := send info m.
Definition showWarning (m : string) : notification := send warning m.

End Channel.
End Notify.

(* ===================================================================== *)
(** * The confirmation flow ([src/contexts/ConfirmationContext.tsx]) *)
(* ===================================================================== *)

Module Confirmation.

Inductive severity : Type := danger | warning | info.

Record ConfirmationOptions : Type := {
  title : string;
  message : string;
  confirmText : option string;
  cancelText : option string;
  type : option severity
}.

(** A promise is named by the order in which [confirm] created it; the
    [resolve] function of a dialog is the resolver of that promise. *)
Definition promise : Type := nat.

Record Dialog : Type := {
  isOpen : bool;
  options : ConfirmationOptions;
  resolve : promise
}.

(** The provider: its one [dialog] cell, the number of promises handed
    out so far, and every call of a resolver with its argument, oldest
    first. *)
Record Provider : Type := {
  dialog : option Dialog;
  created : nat;
  resolved : list (promise * bool)
}.

Definition initial : Provider :=
  {| dialog := None; created := 0%nat; resolved := [] |}.

(** [confirm]: a new promise whose resolver goes into the dialog cell,
    replacing whatever the cell held. *)
Definition confirm (o : ConfirmationOptions) (s : Provider) : promise * Provider :=
  (created s,
   {| dialog := Some {| isOpen := true; options := o; resolve := created s |};
      created := S (created s);
      resolved := resolved s |}).

Definition call_resolve (p : promise) (v : bool) (s : Provider) : Provider :=
  {| dialog := dialog s; created := created s;
     resolved := (resolved s ++ [(p, v)])%list |}.

Definition setDialog (d : option Dialog) (s : Provider) : Provider :=
  {| dialog := d; created := created s; resolved := resolved s |}.

(** [handleConfirm] *)
Definition handleConfirm (s : Provider) : Provider :=
  match dialog s with
  | Some d => setDialog None (call_resolve (resolve d) true s)
  | None => s
  end.

(** [handleCancel] *)
Definition handleCancel (s : Provider) : Provider :=
  match dialog s with
  | Some d => setDialog None (call_resolve (resolve d) false s)
  | None => s
  end.

(** What can happen to the provider: a caller asks, or the user presses
    the accept button, or the user presses cancel or the backdrop. *)
Inductive action : Type :=
| Confirm (o : ConfirmationOptions)
| Accept
| Dismiss.

Definition step (s : Provider) (a : action) : Provider :=
  match a with
  | Confirm o => snd (confirm o s)
  | Accept => handleConfirm s
  | Dismiss => handleCancel s
  end.

Definition run (acts : list action) (s : Provider) : Provider :=
  fold_left step acts s.

(** The resolutions of a promise: the arguments its resolver was called
    with.  The promise is settled with the first of them, and is still
    pending when there is none. *)
Fixpoint resolutions (p : promise) (log : list (promise * bool)) : list bool :=
  match log with
  | [] => []
  | (q, v) :: r =>
      if Nat.eqb q p then v :: resolutions p r else resolutions p r
  end.

Definition settled_value (p : promise) (s : Provider) : option bool :=
  hd_error (resolutions p (resolved s)).

End Confirmation.

(* ===================================================================== *)
(** * The reading-list controller (the [ReadingLists] page) *)
(* ===================================================================== *)

Module ReadingLists.
Import Js.
Import Confirmation(ConfirmationOptions, severity, danger).
Local Open Scope list_scope.

(** Modelled from the spec: the declarations of [@/types] are not part
    of the sources; a book has an identifier, title, author, genre,
    rating and published year. *)
Record Book : Type := {
  book_id : string;
  title : string;
  author : string;
  genre : string;
  rating : Z;
  publishedYear : Z
}.

(** Modelled from the spec: the declarations of [@/types] are not part
    of the sources; a reading list has an identifier, the identifier of
    its owner, a name, an optional description, its book identifiers and
    two timestamps. *)
Record ReadingList : Type := {
  id : string;
  userId : string;
  name : string;
  description : option string;
  bookIds : list string;
  createdAt : string;
  updatedAt : string
}.

(** The argument of [createReadingList]: a reading list without [id],
    [createdAt] and [updatedAt]. *)
Record NewReadingList : Type := {
  new_userId : string;
  new_name : string;
  new_description : string;
  new_bookIds : list string
}.

(** The argument [updates] of [updateReadingList]. *)
Record Updates : Type := {
  upd_name : option string;
  upd_bookIds : option (list string)
}.

(** The functions the page imports from the API client, at their
    declared signatures. *)
Record ApiService : Type := {
  getReadingLists : result (list ReadingList);
  createReadingList : NewReadingList -> result ReadingList;
  getBook : string -> result (option Book);
  updateReadingList : string -> Updates -> result ReadingList;
  deleteReadingList : string -> result unit
}.

Inductive api_call : Type :=
| GetReadingLists
| CreateReadingList (list : NewReadingList)
| GetBook (id : string)
| UpdateReadingList (id : string) (updates : Updates)
| DeleteReadingList (id : string).

(** The [useState] cells of the component. *)
Record State : Type := {
  lists : list ReadingList;
  isLoading : bool;
  isModalOpen : bool;
  newListName : string;
  newListDescription : string;
  selectedList : option ReadingList;
  listBooks : list Book;
  isLoadingBooks : bool;
  isBooksModalOpen : bool;
  removingBookId : option string;
  deletingListId : option string
}.

Definition initial : State :=
  {| lists := []; isLoading := true; isModalOpen := false;
     newListName := ""; newListDescription := "";
     selectedList := None; listBooks := [];
     isLoadingBooks := false; isBooksModalOpen := false;
     removingBookId := None; deletingListId := None |}.

Definition with_lists v (s : State) : State :=
  {| lists := v; isLoading := isLoading s; isModalOpen := isModalOpen s;
     newListName := newListName s; newListDescription := newListDescription s;
     selectedList := selectedList s; listBooks := listBooks s;
     isLoadingBooks := isLoadingBooks s; isBooksModalOpen := isBooksModalOpen s;
     removingBookId := removingBookId s; deletingListId := deletingListId s |}.
Definition with_isLoading v (s : State) : State :=
  {| lists := lists s; isLoading := v; isModalOpen := isModalOpen s;
     newListName := newListName s; newListDescription := newListDescription s;
     selectedList := selectedList s; listBooks := listBooks s;
     isLoadingBooks := isLoadingBooks s; isBooksModalOpen := isBooksModalOpen s;
     removingBookId := removingBookId s; deletingListId := deletingListId s |}.
Definition with_isModalOpen v (s : State) : State :=
  {| lists := lists s; isLoading := isLoading s; isModalOpen := v;
     newListName := newListName s; newListDescription := newListDescription s;
     selectedList := selectedList s; listBooks := listBooks s;
     isLoadingBooks := isLoadingBooks s; isBooksModalOpen := isBooksModalOpen s;
     removingBookId := removingBookId s; deletingListId := deletingListId s |}.
Definition with_newListName v (s : State) : State :=
  {| lists := lists s; isLoading := isLoading s; isModalOpen := isModalOpen s;
     newListName := v; newListDescription := newListDescription s;
     selectedList := selectedList s; listBooks := listBooks s;
     isLoadingBooks := isLoadingBooks s; isBooksModalOpen := isBooksModalOpen s;
     removingBookId := removingBookId s; deletingListId := deletingListId s |}.
Definition with_newListDescription v (s : State) : State :=
  {| lists := lists s; isLoading := isLoading s; isModalOpen := isModalOpen s;
     newListName := newListName s; newListDescription := v;
     selectedList := selectedList s; listBooks := listBooks s;
     isLoadingBooks := isLoadingBooks s; isBooksModalOpen := isBooksModalOpen s;
     removingBookId := removingBookId s; deletingListId := deletingListId s |}.
Definition with_selectedList v (s : State) : State :=
  {| lists := lists s; isLoading := isLoading s; isModalOpen := isModalOpen s;
     newListName := newListName s; newListDescription := newListDescription s;
     selectedList := v; listBooks := listBooks s;
     isLoadingBooks := isLoadingBooks s; isBooksModalOpen := isBooksModalOpen s;
     removingBookId := removingBookId s; deletingListId := deletingListId s |}.
Definition with_listBooks v (s : State) : State :=
  {| lists := lists s; isLoading := isLoading s; isModalOpen := isModalOpen s;
     newListName := newListName s; newListDescription := newListDescription s;
     selectedList := selectedList s; listBooks := v;
     isLoadingBooks := isLoadingBooks s; isBooksModalOpen := isBooksModalOpen s;
     removingBookId := removingBookId s; deletingListId := deletingListId s |}.
Definition with_isLoadingBooks v (s : State) : State :=
  {| lists := lists s; isLoading := isLoading s; isModalOpen := isModalOpen s;
     newListName := newListName s; newListDescription := newListDescription s;
     selectedList := selectedList s; listBooks := listBooks s;
     isLoadingBooks := v; isBooksModalOpen := isBooksModalOpen s;
     removingBookId := removingBookId s; deletingListId := deletingListId s |}.
Definition with_isBooksModalOpen v (s : State) : State :=
  {| lists := lists s; isLoading := isLoading s; isModalOpen := isModalOpen s;
     newListName := newListName s; newListDescription := newListDescription s;
     selectedList := selectedList s; listBooks := listBooks s;
     isLoadingBooks := isLoadingBooks s; isBooksModalOpen := v;
     removingBookId := removingBookId s; deletingListId := deletingListId s |}.
Definition with_removingBookId v (s : State) : State :=
  {| lists := lists s; isLoading := isLoading s; isModalOpen := isModalOpen s;
     newListName := newListName s; newListDescription := newListDescription s;
     selectedList := selectedList s; listBooks := listBooks s;
     isLoadingBooks := isLoadingBooks s; isBooksModalOpen := isBooksModalOpen s;
     removingBookId := v; deletingListId := deletingListId s |}.
Definition with_deletingListId v (s : State) : State :=
  {| lists := lists s; isLoading := isLoading s; isModalOpen := isModalOpen s;
     newListName := newListName s; newListDescription := newListDescription s;
     selectedList := selectedList s; listBooks := listBooks s;
     isLoadingBooks := isLoadingBooks s; isBooksModalOpen := isBooksModalOpen s;
     removingBookId := removingBookId s; deletingListId := v |}.

(** What a handler does to the world outside the component state, in
    the order it does it.  A [Called] event carries the component state
    as it stands when the request is issued. *)
Inductive event : Type :=
| Called (c : api_call) (at_state : State)
| Notified (n : Notify.notification)
| Alerted (text : string)
| Asked (options : ConfirmationOptions).

(** A handler body: it reads the state cells through its closure (an
    ordinary argument of the handler), writes them with the setters,
    and may throw. *)
Definition M (A : Type) : Type := State -> result A * State * list event.

Definition ret {A} (a : A) : M A := fun s => (Ok a, s, []).

Definition bindM {A B} (m : M A) (k : A -> M B) : M B :=
  fun s =>
    match m s with
    | (Ok a, s1, t1) => let '(r, s2, t2) := k a s1 in (r, s2, t1 ++ t2)
    | (Throw e, s1, t1) => (Throw e, s1, t1)
    end.

Notation "x <~ m ;; k" := (bindM m (fun x => k))
  (at level 61, m at next level, right associativity).
Notation "m ;;; k" := (bindM m (fun _ => k))
  (at level 61, right associativity).

Definition set (f : State -> State) : M unit := fun s => (Ok tt, f s, []).
Definition emit (e : event) : M unit := fun s => (Ok tt, s, [e]).

(** [await call], with the outcome the service gives. *)
Definition await {A} (c : api_call) (outcome : result A) : M A :=
  fun s => (outcome, s, [Called c s]).

(** [try { body } catch (error) { handler error } finally { finalizer }] *)
Definition try_catch_finally (body : M unit) (handler : js_error -> M unit)
  (finalizer : M unit) : M unit :=
  fun s =>
    let '(r1, s1, t1) := body s in
    let '(r2, s2, t2) :=
      match r1 with
      | Ok _ => (Ok tt, s1, [])
      | Throw e => handler e s1
      end in
    let '(r3, s3, t3) := finalizer s2 in
    (match r3 with Ok _ => r2 | Throw e => Throw e end, s3, t1 ++ t2 ++ t3).

Definition try_catch (body : M unit) (handler : js_error -> M unit) : M unit :=
  try_catch_finally body handler (ret tt).

(** [s.trim()] is empty: the text consists of white space only.  A
    [string] holds the UTF-8 encoding of the text of the program, so a
    character of the text is one to three bytes here.  [trim] strips
    the white space and the line terminators of the language: the
    ASCII ones (U+0009 to U+000D and U+0020), the no-break space
    U+00A0, U+1680, U+2000 to U+200A, the separators U+2028 and
    U+2029, U+202F, U+205F, U+3000 and the byte order mark U+FEFF. *)
Definition is_space (c : ascii) : bool :=
  let n := nat_of_ascii c in
  ((n =? 32) || ((9 <=? n) && (n <=? 13)))%nat.

Definition is_byte (k : nat) (c : ascii) : bool := (nat_of_ascii c =? k)%nat.

Definition byte_within (lo hi : nat) (c : ascii) : bool :=
  ((lo <=? nat_of_ascii c) && (nat_of_ascii c <=? hi))%nat.

(** U+00A0, encoded on two bytes. *)
Definition is_space2 (c1 c2 : ascii) : bool :=
  is_byte 194 c1 && is_byte 160 c2.

(** The white space encoded on three bytes. *)
Definition is_space3 (c1 c2 c3 : ascii) : bool :=
  (is_byte 225 c1 && is_byte 154 c2 && is_byte 128 c3)
  || (is_byte 226 c1 && is_byte 128 c2
      && (byte_within 128 138 c3 || byte_within 168 169 c3 || is_byte 175 c3))
  || (is_byte 226 c1 && is_byte 129 c2 && is_byte 159 c3)
  || (is_byte 227 c1 && is_byte 128 c2 && is_byte 128 c3)
  || (is_byte 239 c1 && is_byte 187 c2 && is_byte 191 c3).

Fixpoint trim_is_empty (s : string) : bool :=
  match s with
  | EmptyString => true
  | String c1 r1 =>
    if is_space c1 then trim_is_empty r1
    else
      match r1 with
      | EmptyString => false
      | String c2 r2 =>
        if is_space2 c1 c2 then trim_is_empty r2
        else
          match r2 with
          | EmptyString => false
          | String c3 r3 => is_space3 c1 c2 c3 && trim_is_empty r3
          end
      end
  end.

(** [Promise.all]: fulfils with every value in order, or rejects; of
    several rejections the one kept here is the first in list order. *)
Fixpoint Promise_all {A} (ps : list (result A)) : result (list A) :=
  match ps with
  | [] => Ok []
  | Ok a :: r =>
      match Promise_all r with
      | Ok l => Ok (a :: l)
      | Throw e => Throw e
      end
  | Throw e :: _ => Throw e
  end.

(** [books.filter((book) => book !== null)] *)
Fixpoint non_null {A} (l : list (option A)) : list A :=
  match l with
  | [] => []
  | Some a :: r => a :: non_null r
  | None :: r => non_null r
  end.

Section Component.

Variable api : ApiService.
Variable toastFunctions : bool.

Definition handleApiError (e : js_error) : M unit :=
  emit (Notified (Notify.handleApiError toastFunctions e)).
Definition showSuccess (m : string) : M unit :=
  emit (Notified (Notify.showSuccess toastFunctions m)).

(** [loadLists] *)
Definition loadLists : M unit :=
  set (with_isLoading true) ;;;
  try_catch_finally
    (data <~ await GetReadingLists (getReadingLists api) ;;
     set (with_lists data))
    handleApiError
    (set (with_isLoading false)).

(** [handleCreateList]; [c] is the state the handler closes over. *)
Definition handleCreateList (c : State) : M unit :=
  if trim_is_empty (newListName c)
  then emit (Alerted "Please enter a list name")
  else
    try_catch
      (let arg := {| new_userId := "1"; new_name := newListName c;
                     new_description := newListDescription c;
                     new_bookIds := [] |} in
       newList <~ await (CreateReadingList arg) (createReadingList api arg) ;;
       set (with_lists (lists c ++ [newList])) ;;;
       set (with_isModalOpen false) ;;;
       set (with_newListName "") ;;;
       set (with_newListDescription "") ;;;
       showSuccess "Reading list created successfully!")
      handleApiError.

(** [bookIds.map((bookId) => getBook(bookId))]: every request is issued,
    in order, before any is awaited. *)
Fixpoint issue_getBooks (ids : list string) : M (list (result (option Book))) :=
  match ids with
  | [] => ret []
  | i :: r =>
      fun s =>
        let '(x, s1, t1) := issue_getBooks r s in
        (match x with
         | Ok l => Ok (getBook api i :: l)
         | Throw e => Throw e
         end, s1, Called (GetBook i) s :: t1)
  end.

(** [loadListBooks] *)
Definition loadListBooks (ids : list string) : M unit :=
  set (with_isLoadingBooks true) ;;;
  try_catch_finally
    (bookPromises <~ issue_getBooks ids ;;
     books <~ (fun s => (Promise_all bookPromises, s, [])) ;;
     set (with_listBooks (non_null books)))
    handleApiError
    (set (with_isLoadingBooks false)).

(** [handleListClick] *)
Definition handleListClick (list : ReadingList) : M unit :=
  set (with_selectedList (Some list)) ;;;
  set (with_isBooksModalOpen true) ;;;
  loadListBooks (bookIds list).

(** [handleRemoveBook]; [c] is the state the handler closes over. *)
Definition handleRemoveBook (c : State) (bookId : string) : M unit :=
  match selectedList c with
  | None => ret tt
  | Some selected =>
      set (with_removingBookId (Some bookId)) ;;;
      try_catch_finally
        (let updatedBookIds :=
           filter (fun i => negb (i =? bookId)%string) (bookIds selected) in
         let updates := {| upd_name := None;
                           upd_bookIds := Some updatedBookIds |} in
         updatedList <~ await (UpdateReadingList (id selected) updates)
                          (updateReadingList api (id selected) updates) ;;
         set (with_selectedList (Some updatedList)) ;;;
         set (with_listBooks
                (filter (fun book => negb (book_id book =? bookId)%string)
                        (listBooks c))) ;;;
         set (with_lists
                (map (fun l => if (id l =? id selected)%string
                               then updatedList else l) (lists c))) ;;;
         showSuccess "Book removed from reading list successfully!")
        handleApiError
        (set (with_removingBookId None))
  end.

Definition delete_prompt : ConfirmationOptions :=
  {| Confirmation.title := "Delete Reading List";
     Confirmation.message :=
       "Are you sure you want to delete this reading list? This action cannot be undone.";
     Confirmation.confirmText := Some "Delete";
     Confirmation.cancelText := Some "Cancel";
     Confirmation.type := Some danger |}.

(** [handleDeleteList]; [c] is the state the handler closes over and
    [answer] is what the promise of [confirm] resolves to, [None] when
    it never resolves. *)
Definition handleDeleteList (c : State) (answer : option bool)
  (listId : string) : M unit :=
  emit (Asked delete_prompt) ;;;
  match answer with
  | None => ret tt
  | Some false => ret tt
  | Some true =>
      set (with_deletingListId (Some listId)) ;;;
      try_catch_finally
        (await (DeleteReadingList listId) (deleteReadingList api listId) ;;;
         set (with_lists
                (filter (fun l => negb (id l =? listId)%string) (lists c))) ;;;
         (match selectedList c with
          | Some selected =>
              if (id selected =? listId)%string
              then set (with_isBooksModalOpen false) ;;;
                   set (with_selectedList None) ;;;
                   set (with_listBooks [])
              else ret tt
          | None => ret tt
          end) ;;;
         showSuccess "Reading list deleted successfully!")
        handleApiError
        (set (with_deletingListId None))
  end.

(** The [onClose] of the books modal. *)
Definition closeBooksModal : M unit :=
  set (with_isBooksModalOpen false) ;;;
  set (with_selectedList None) ;;;
  set (with_listBooks []).

(** The user gestures on the page. *)
Inductive gesture : Type :=
| Mount
| TypeName (text : string)
| TypeDescription (text : string)
| OpenCreate
| CloseCreate
| SubmitCreate
| ClickList (list : ReadingList)
| ClickRemove (bookId : string)
| ClickDelete (listId : string) (answer : option bool)
| CloseBooks.

(** A gesture runs its handler to completion on the state it was
    rendered with. *)
Definition handler (g : gesture) (c : State) : M unit :=
  match g with
  | Mount => loadLists
  | TypeName v => set (with_newListName v)
  | TypeDescription v => set (with_newListDescription v)
  | OpenCreate => set (with_isModalOpen true)
  | CloseCreate => set (with_isModalOpen false)
  | SubmitCreate => handleCreateList c
  | ClickList l => handleListClick l
  | ClickRemove b => handleRemoveBook c b
  | ClickDelete i a => handleDeleteList c a i
  | CloseBooks => closeBooksModal
  end.

Definition run (g : gesture) (s : State) : State * list event :=
  let '(_, s', t) := handler g s s in (s', t).

End Component.

(** The notifications and the requests of a trace. *)
Fixpoint notifications (t : list event) : list Notify.notification :=
  match t with
  | [] => []
  | Notified n :: r => n :: notifications r
  | _ :: r => notifications r
  end.

Fixpoint requests (t : list event) : list (api_call * State) :=
  match t with
  | [] => []
  | Called c s :: r => (c, s) :: requests r
  | _ :: r => requests r
  end.

Fixpoint alerts (t : list event) : list string :=
  match t with
  | [] => []
  | Alerted x :: r => x :: alerts r
  | _ :: r => alerts r
  end.

End ReadingLists.

(* ===================================================================== *)
(** * The page wired to the API client *)
(* ===================================================================== *)

(** The page calls the client's functions at their declared result
    types; the client hands over whatever document it decoded.  The
    type assertions in between are unchecked, so they are arbitrary
    functions here; [null] is the one value the page tells apart. *)
Module Backend.
Import Js ReadingLists.

Definition json_of_ids (ids : list string) : json := JArr (map JStr ids).

(** The value [JSON.stringify] receives for [updates]; an absent field
    is not a member. *)
Definition json_of_updates (u : Updates) : json :=
  JObj ((match upd_name u with
         | Some n => [("name", JStr n)]
         | None => []
         end) ++
        (match upd_bookIds u with
         | Some ids => [("bookIds", json_of_ids ids)]
         | None => []
         end))%list.

Definition json_of_new (l : NewReadingList) : json :=
  JObj [("userId", JStr (new_userId l));
        ("name", JStr (new_name l));
        ("description", JStr (new_description l));
        ("bookIds", json_of_ids (new_bookIds l))].

Definition nullable {A} (cast : json -> A) (j : json) : option A :=
  match j with
  | JNull => None
  | _ => Some (cast j)
  end.

Definition map_result {A B} (f : A -> B) (r : result A) : result B :=
  match r with
  | Ok a => Ok (f a)
  | Throw e => Throw e
  end.

Section Service.

Variable API_BASE_URL : string.
Variable session_token : option string.
Variable fetch : Api.Request -> Api.fetch_outcome.
Variable JSON_parse : string -> option json.
Variable syntax_message : string -> string.
Variable as_Book : json -> Book.
Variable as_ReadingList : json -> ReadingList.
Variable as_ReadingLists : json -> list ReadingList.

Definition service : ApiService :=
  {| getReadingLists :=
       map_result as_ReadingLists
         (Api.getReadingLists API_BASE_URL session_token fetch
            JSON_parse syntax_message);
     createReadingList := fun l =>
       map_result as_ReadingList
         (Api.createReadingList API_BASE_URL session_token fetch
            JSON_parse syntax_message (json_of_new l));
     getBook := fun i =>
       map_result (nullable as_Book)
         (Api.getBook API_BASE_URL fetch JSON_parse syntax_message i);
     updateReadingList := fun i u =>
       map_result as_ReadingList
         (Api.updateReadingList API_BASE_URL session_token fetch
            JSON_parse syntax_message i (json_of_updates u));
     deleteReadingList := fun i =>
       Api.deleteReadingList API_BASE_URL session_token fetch JSON_parse i |}.

End Service.

(** Readers of decoded documents, for concrete runs: a member that is
    absent or of another type reads as empty. *)
Definition string_member (k : string) (j : json) : string :=
  match get_prop j k with
  | Ok (Some (JStr s)) => s
  | _ => EmptyString
  end.

Definition number_member (k : string) (j : json) : Z :=
  match get_prop j k with
  | Ok (Some (JNum n)) => n
  | _ => 0
  end.

Definition strings_of (j : json) : list string :=
  match j with
  | JArr items =>
      flat_map (fun x => match x with JStr s => [s] | _ => [] end) items
  | _ => []
  end.

Definition book_of_json (j : json) : Book :=
  {| book_id := string_member "id" j;
     title := string_member "title" j;
     author := string_member "author" j;
     genre := string_member "genre" j;
     rating := number_member "rating" j;
     publishedYear := number_member "publishedYear" j |}.

Definition list_of_json (j : json) : ReadingList :=
  {| id := string_member "id" j;
     userId := string_member "userId" j;
     name := string_member "name" j;
     description :=
       match get_prop j "description" with
       | Ok (Some (JStr s)) => Some s
       | _ => None
       end;
     bookIds :=
       match get_prop j "bookIds" with
       | Ok (Some a) => strings_of a
       | _ => []
       end;
     createdAt := string_member "createdAt" j;
     updatedAt := string_member "updatedAt" j |}.

Definition lists_of_json (j : json) : list ReadingList :=
  match j with
  | JArr items => map list_of_json items
  | _ => []
  end.

End Backend.

(* ===================================================================== *)
(** * The API client, continued: the admin and recommendation calls *)
(* ===================================================================== *)

Module ApiAdmin.
Import Js Api.

Section Client.

Variable API_BASE_URL : string.
Variable session_token : option string.
Variable fetch : Request -> fetch_outcome.
Variable JSON_parse : string -> option json.
Variable syntax_message : string -> string.

(** [updateBook]; its [try] block is the one of [createBook]. *)
Definition updateBook (id : string) (book : json) : result json :=
  if (id =? "")%string then Throw (Error "Book ID is required") else
  let headers := getAuthHeaders session_token in
  response <- await_fetch fetch
    {| req_method := "PUT"; req_url := API_BASE_URL ++ "/books/" ++ id;
       req_headers := headers; req_body := Some book |} ;;
  let '(parsedData, errorData) := decode_payload JSON_parse response in
  if status response =? 401
  then throw_error_or errorData "Unauthorized: Please login again" else
  if status response =? 403
  then throw_error_or errorData "Forbidden: Admin access required" else
  if status response =? 400
  then throw_error_or errorData "Invalid request" else
  if status response =? 404
  then throw_error_or errorData "Book not found" else
  if negb (ok response)
  then throw_error_or errorData "Failed to update book" else
  Ok parsedData.

(** The [try] block of [deleteBook]; it leaves [errorData].  A truthy
    [body] that is not a string is taken as it is. *)
Definition decode_error_body (response : Response) : json :=
  if (text response =? "")%string then JObj [] else
  match JSON_parse (text response) with
  | None => JObj []
  | Some parsed =>
      match get_prop parsed "body" with
      | Throw _ => JObj []
      | Ok b =>
          if truthy b
          then match b with
               | Some (JStr body) =>
                   match JSON_parse body with
                   | Some errorData => errorData
                   | None => JObj []
                   end
               | Some body => body
               | None => parsed
               end
          else parsed
      end
  end.

(** [deleteBook] *)
Definition deleteBook (id : string) : result unit :=
  if (id =? "")%string then Throw (Error "Book ID is required") else
  let headers := getAuthHeaders session_token in
  response <- await_fetch fetch
    {| req_method := "DELETE"; req_url := API_BASE_URL ++ "/books/" ++ id;
       req_headers := headers; req_body := None |} ;;
  let errorData := decode_error_body response in
  if status response =? 401
  then throw_error_or errorData "Unauthorized: Please login again" else
  if status response =? 403
  then throw_error_or errorData "Forbidden: Admin access required" else
  if status response =? 400
  then throw_error_or errorData "Invalid request: Missing path param: id" else
  if status response =? 404
  then throw_error_or errorData "Book not found" else
  if negb (ok response)
  then throw_error_or errorData "Failed to delete book" else
  Ok tt.

(** [getRecommendations]: the payload is the array itself, or an object
    holding it under [recommendations]. *)
Definition getRecommendations (query : string) : result json :=
  let headers := getAuthHeaders session_token in
  response <- await_fetch fetch
    {| req_method := "POST"; req_url := API_BASE_URL ++ "/recommendations";
       req_headers := headers;
       req_body := Some (JObj [("query", JStr query)]) |} ;;
  if negb (ok response) then Throw (Error "Failed to get recommendations") else
  data <- response_json JSON_parse syntax_message response ;;
  if isArray data then Ok data else
  wrapped <- get_prop data "recommendations" ;;
  if truthy wrapped
  then match wrapped with
       | Some v => Ok v
       | None => Ok (JArr [])
       end
  else Ok (JArr []).

End Client.
End ApiAdmin.

(* ===================================================================== *)
(** * The page's handlers, cut at their [await] *)
(* ===================================================================== *)

(** An [async] handler runs up to its [await] when the gesture
    happens, and from there on when the awaited promise has settled;
    other handlers may run in between.  Each half below is the part of
    the handler on one side of its [await]; the awaited outcome is
    handed from the first half to the second. *)
Module ReadingListsAsync.
Import Js ReadingLists.
Local Open Scope list_scope.

Section Component.

Variable api : ApiService.
Variable toastFunctions : bool.

(** [loadListBooks] up to [await Promise.all(bookPromises)]. *)
Definition loadListBooks_start (ids : list string)
  : M (list (result (option Book))) :=
  set (with_isLoadingBooks true) ;;;
  issue_getBooks api ids.

(** [loadListBooks] after [await Promise.all(bookPromises)]. *)
Definition loadListBooks_resume (settled : result (list (option Book)))
  : M unit :=
  try_catch_finally
    (books <~ (fun s => (settled, s, [])) ;;
     set (with_listBooks (non_null books)))
    (handleApiError toastFunctions)
    (set (with_isLoadingBooks false)).

(** [handleListClick] up to the [await] inside [loadListBooks]; nothing
    follows the [await] of [handleListClick] itself. *)
Definition handleListClick_start (list : ReadingList)
  : M (Datatypes.list (result (option Book))) :=
  set (with_selectedList (Some list)) ;;;
  set (with_isBooksModalOpen true) ;;;
  loadListBooks_start (bookIds list).

(** The replacement set [handleRemoveBook] computes from its closure. *)
Definition updatedBookIds (selected : ReadingList) (bookId : string)
  : list string :=
  filter (fun i => negb (i =? bookId)%string) (bookIds selected).

(** [handleRemoveBook] up to [await updateReadingList(...)]: with no
    selection there is nothing to await. *)
Definition handleRemoveBook_start (c : State) (bookId : string)
  : M (option (result ReadingList)) :=
  match selectedList c with
  | None => ret None
  | Some selected =>
      set (with_removingBookId (Some bookId)) ;;;
      let updates := {| upd_name := None;
                        upd_bookIds := Some (updatedBookIds selected bookId) |} in
      fun s =>
        (Ok (Some (updateReadingList api (id selected) updates)), s,
         [Called (UpdateReadingList (id selected) updates) s])
  end.

(** [handleRemoveBook] after [await updateReadingList(...)]; [c] is
    still the state the handler closed over when it started. *)
Definition handleRemoveBook_resume (c : State) (selected : ReadingList)
  (bookId : string) (settled : result ReadingList) : M unit :=
  try_catch_finally
    (updatedList <~ (fun s => (settled, s, [])) ;;
     set (with_selectedList (Some updatedList)) ;;;
     set (with_listBooks
            (filter (fun book => negb (book_id book =? bookId)%string)
                    (listBooks c))) ;;;
     set (with_lists
            (map (fun l => if (id l =? id selected)%string
                           then updatedList else l) (lists c))) ;;;
     showSuccess toastFunctions
       "Book removed from reading list successfully!")
    (handleApiError toastFunctions)
    (set (with_removingBookId None)).

End Component.

(** The state a handler half leaves, and the value it hands over. *)
Definition state_after {A} (m : M A) (s : State) : State := snd (fst (m s)).
Definition trace_of {A} (m : M A) (s : State) : list event := snd (m s).

End ReadingListsAsync.

(* ===================================================================== *)
(** * The catalog page (the [Books] page) *)
(* ===================================================================== *)

Module Books.
Import Js.
Import ReadingLists(Book, book_id, title, author, genre, rating,
                    publishedYear, trim_is_empty).
Local Open Scope list_scope.

(** The [useState] cells of the component. *)
Record State : Type := {
  books : list Book;
  filteredBooks : list Book;
  isLoading : bool;
  sortBy : string;
  searchQuery : string
}.

Definition initial : State :=
  {| books := []; filteredBooks := []; isLoading := true;
     sortBy := "title"; searchQuery := "" |}.

(** [s.toLowerCase()] on ASCII text: the letters [A] to [Z] are mapped
    to [a] to [z], every other character is kept.  The language also
    lower-cases the letters outside ASCII, which this function leaves
    as they are: it is [toLowerCase] for ASCII text only. *)
Definition lower (c : ascii) : ascii :=
  let n := nat_of_ascii c in
  if ((65 <=? n) && (n <=? 90))%nat then ascii_of_nat (n + 32) else c.

Fixpoint toLowerCase (s : string) : string :=
  match s with
  | EmptyString => EmptyString
  | String c r => String (lower c) (toLowerCase r)
  end.

(** [hay.includes(needle)] *)
Fixpoint includes (hay needle : string) : bool :=
  String.prefix needle hay
  || match hay with
     | EmptyString => false
     | String _ r => includes r needle
     end.

(** [array.sort(compare)] is stable, and for a consistent comparator
    the stable sorted order of an array is unique; it is computed here
    by insertion from the right, which is stable: an element goes
    before the first one it does not compare greater than. *)
Fixpoint insert {A} (compare : A -> A -> Z) (x : A) (l : list A) : list A :=
  match l with
  | [] => [x]
  | y :: r => if compare x y <=? 0 then x :: y :: r else y :: insert compare x r
  end.

Fixpoint sort {A} (compare : A -> A -> Z) (l : list A) : list A :=
  match l with
  | [] => []
  | x :: r => insert compare x (sort compare r)
  end.

Section Page.

(** [a.localeCompare(b)]: negative, zero or positive, as the locale of
    the browser orders the two strings. *)
Variable localeCompare : string -> string -> Z.

(** [sortBooks]; the copy [[...booksToSort]] is the list itself. *)
Definition sortBooks (booksToSort : list Book) (sortValue : string) : list Book :=
  let sorted := booksToSort in
  if (sortValue =? "title")%string then
    sort (fun a b => localeCompare (title a) (title b)) sorted
  else if (sortValue =? "author")%string then
    sort (fun a b => localeCompare (author a) (author b)) sorted
  else if (sortValue =? "rating")%string then
    sort (fun a b => rating b - rating a) sorted
  else if (sortValue =? "year")%string then
    sort (fun a b => publishedYear b - publishedYear a) sorted
  else sorted.

(** The predicate of the search filter. *)
Definition matches (lowercaseQuery : string) (book : Book) : bool :=
  includes (toLowerCase (title book)) lowercaseQuery
  || includes (toLowerCase (author book)) lowercaseQuery
  || includes (toLowerCase (genre book)) lowercaseQuery.

(** The effect that depends on [books], [searchQuery] and [sortBy]:
    what it hands to [setFilteredBooks]. *)
Definition shown (books : list Book) (searchQuery sortBy : string) : list Book :=
  let result :=
    if trim_is_empty searchQuery then books
    else filter (matches (toLowerCase searchQuery)) books in
  sortBooks result sortBy.

Definition effect (s : State) : State :=
  {| books := books s;
     filteredBooks := shown (books s) (searchQuery s) (sortBy s);
     isLoading := isLoading s; sortBy := sortBy s;
     searchQuery := searchQuery s |}.

(** [loadBooks], given what [getBooks] settles with; it returns what
    was notified.  The loading flag is raised before the [await] and
    lowered in [finally]. *)
Definition loadBooks (toastFunctions : bool) (outcome : result (list Book))
  (s : State) : State * list Notify.notification :=
  match outcome with
  | Ok data =>
      ({| books := data; filteredBooks := filteredBooks s; isLoading := false;
          sortBy := sortBy s; searchQuery := searchQuery s |}, [])
  | Throw e =>
      ({| books := books s; filteredBooks := filteredBooks s; isLoading := false;
          sortBy := sortBy s; searchQuery := searchQuery s |},
       [Notify.handleApiError toastFunctions e])
  end.

(** [handleSearch] and [handleSort] *)
Definition handleSearch (query : string) (s : State) : State :=
  {| books := books s; filteredBooks := filteredBooks s;
     isLoading := isLoading s; sortBy := sortBy s; searchQuery := query |}.

Definition handleSort (value : string) (s : State) : State :=
  {| books := books s; filteredBooks := filteredBooks s;
     isLoading := isLoading s; sortBy := value; searchQuery := searchQuery s |}.

(** What happens on the page; after each, the effect runs. *)
Inductive gesture : Type :=
| Load (outcome : result (list Book))
| Search (query : string)
| Sort (value : string).

Definition step (toastFunctions : bool) (s : State) (g : gesture) : State :=
  effect (match g with
          | Load outcome => fst (loadBooks toastFunctions outcome s)
          | Search query => handleSearch query s
          | Sort value => handleSort value s
          end).

End Page.
End Books.

(* ===================================================================== *)
(** * The signup page (the [Signup] page) *)
(* ===================================================================== *)

Module Signup.
Import Js.
Import ReadingLists(trim_is_empty).
Local Open Scope list_scope.

(** The [errors] object: a key is present when its field is [Some]. *)
Record Errors : Type := {
  err_name : option string;
  err_email : option string;
  err_password : option string;
  err_confirmPassword : option string;
  err_verificationCode : option string
}.

Definition no_errors : Errors :=
  {| err_name := None; err_email := None; err_password := None;
     err_confirmPassword := None; err_verificationCode := None |}.

(** [Object.keys(errors).length === 0] *)
Definition has_no_keys (e : Errors) : bool :=
  match err_name e, err_email e, err_password e, err_confirmPassword e,
        err_verificationCode e with
  | None, None, None, None, None => true
  | _, _, _, _, _ => false
  end.

(** The [useState] cells of the component. *)
Record State : Type := {
  name : string;
  email : string;
  password : string;
  confirmPassword : string;
  errors : Errors;
  isLoading : bool;
  needsVerification : bool;
  verificationCode : string
}.

Definition initial : State :=
  {| name := ""; email := ""; password := ""; confirmPassword := "";
     errors := no_errors; isLoading := false; needsVerification := false;
     verificationCode := "" |}.

Definition with_errors v (s : State) : State :=
  {| name := name s; email := email s; password := password s;
     confirmPassword := confirmPassword s; errors := v;
     isLoading := isLoading s; needsVerification := needsVerification s;
     verificationCode := verificationCode s |}.
Definition with_isLoading v (s : State) : State :=
  {| name := name s; email := email s; password := password s;
     confirmPassword := confirmPassword s; errors := errors s;
     isLoading := v; needsVerification := needsVerification s;
     verificationCode := verificationCode s |}.
Definition with_needsVerification v (s : State) : State :=
  {| name := name s; email := email s; password := password s;
     confirmPassword := confirmPassword s; errors := errors s;
     isLoading := isLoading s; needsVerification := v;
     verificationCode := verificationCode s |}.
Definition with_verificationCode v (s : State) : State :=
  {| name := name s; email := email s; password := password s;
     confirmPassword := confirmPassword s; errors := errors s;
     isLoading := isLoading s; needsVerification := needsVerification s;
     verificationCode := v |}.
Definition with_name v (s : State) : State :=
  {| name := v; email := email s; password := password s;
     confirmPassword := confirmPassword s; errors := errors s;
     isLoading := isLoading s; needsVerification := needsVerification s;
     verificationCode := verificationCode s |}.
Definition with_email v (s : State) : State :=
  {| name := name s; email := v; password := password s;
     confirmPassword := confirmPassword s; errors := errors s;
     isLoading := isLoading s; needsVerification := needsVerification s;
     verificationCode := verificationCode s |}.
Definition with_password v (s : State) : State :=
  {| name := name s; email := email s; password := v;
     confirmPassword := confirmPassword s; errors := errors s;
     isLoading := isLoading s; needsVerification := needsVerification s;
     verificationCode := verificationCode s |}.
Definition with_confirmPassword v (s : State) : State :=
  {| name := name s; email := email s; password := password s;
     confirmPassword := v; errors := errors s;
     isLoading := isLoading s; needsVerification := needsVerification s;
     verificationCode := verificationCode s |}.

(** What [handleSubmit] does outside the component state. *)
Inductive event : Type :=
| CalledSignup (email password name : string)
| CalledConfirmSignUp (email code : string)
| Notified (n : Notify.notification)
| NavigateAfter (milliseconds : Z) (path : string).

Section Page.

(** The validators of [@/utils/validation] and the two calls of
    [useAuth], none of which is part of the sources. *)
Variable validateRequired : string -> bool.
Variable validateEmail : string -> bool.
Variable validatePassword : string -> bool.
Variable signup : string -> string -> string -> result unit.
Variable confirmSignUp : string -> string -> result unit.
Variable toastFunctions : bool.

(** [validate]: the errors it sets and what it returns. *)
Definition validate (s : State) : Errors * bool :=
  let newErrors :=
    {| err_name :=
         if negb (validateRequired (name s)) then Some "Name is required"
         else None;
       err_email :=
         if negb (validateRequired (email s)) then Some "Email is required"
         else if negb (validateEmail (email s)) then Some "Invalid email format"
         else None;
       err_password :=
         if negb (validateRequired (password s)) then Some "Password is required"
         else if negb (validatePassword (password s))
         then Some "Password must be at least 8 characters with uppercase, lowercase, and number"
         else None;
       err_confirmPassword :=
         if negb (password s =? confirmPassword s)%string
         then Some "Passwords do not match"
         else None;
       err_verificationCode := None |} in
  (newErrors, has_no_keys newErrors).

(** [handleSubmit] from the submission to its end, on the state it was
    rendered with, when nothing else happens on the page while its
    call is awaited; [SignupAsync] has the two sides of the [await]
    apart. *)
Definition handleSubmit (s : State) : State * list event :=
  if needsVerification s then
    if trim_is_empty (verificationCode s) then
      (with_errors
         {| err_name := None; err_email := None; err_password := None;
            err_confirmPassword := None;
            err_verificationCode := Some "Verification code is required" |} s,
       [])
    else
      match confirmSignUp (email s) (verificationCode s) with
      | Ok _ =>
          (with_isLoading false (with_isLoading true s),
           [CalledConfirmSignUp (email s) (verificationCode s);
            Notified (Notify.showSuccess toastFunctions
                        "Email verified successfully! You can now login.");
            NavigateAfter 1500 "/login"])
      | Throw e =>
          (with_isLoading false (with_isLoading true s),
           [CalledConfirmSignUp (email s) (verificationCode s);
            Notified (Notify.handleApiError toastFunctions e)])
      end
  else
    let '(newErrors, valid) := validate s in
    if negb valid then (with_errors newErrors s, [])
    else
      match signup (email s) (password s) (name s) with
      | Ok _ =>
          (with_isLoading false
             (with_needsVerification true
                (with_isLoading true (with_errors newErrors s))),
           [CalledSignup (email s) (password s) (name s)])
      | Throw e =>
          (with_isLoading false (with_isLoading true (with_errors newErrors s)),
           [CalledSignup (email s) (password s) (name s);
            Notified (Notify.handleApiError toastFunctions e)])
      end.

(** What the user can do.  The four signup fields are rendered only
    while [needsVerification] is false; the code field and the
    back button only while it is true.  [step] is one gesture with its
    handler run to its end. *)
Inductive gesture : Type :=
| TypeName (v : string)
| TypeEmail (v : string)
| TypePassword (v : string)
| TypeConfirmPassword (v : string)
| TypeCode (v : string)
| BackToSignup
| Submit.

Definition step (s : State) (g : gesture) : State * list event :=
  match g with
  | Submit => handleSubmit s
  | TypeName v => (if needsVerification s then s else with_name v s, [])
  | TypeEmail v => (if needsVerification s then s else with_email v s, [])
  | TypePassword v => (if needsVerification s then s else with_password v s, [])
  | TypeConfirmPassword v =>
      (if needsVerification s then s else with_confirmPassword v s, [])
  | TypeCode v =>
      (if needsVerification s
       then with_errors no_errors (with_verificationCode v s) else s, [])
  | BackToSignup =>
      (if needsVerification s
       then with_errors no_errors
              (with_verificationCode "" (with_needsVerification false s))
       else s, [])
  end.

End Page.
End Signup.

(* ===================================================================== *)
(** * The signup page with its requests in flight *)
(* ===================================================================== *)

(** [handleSubmit] is [async]: it runs up to its [await] when the form
    is submitted and goes on when the awaited call has settled, and the
    page stays live in between.  While a call is pending the fields of
    the form that is rendered can still be edited and the back button
    can still be pressed: only the submit button is rendered with
    [disabled={isLoading}].  The [Button] component is not part of the
    sources, so nothing is assumed of what it does with [disabled]: a
    submission is allowed here at any time, which covers a button that
    blocks it as well as one that does not, and any number of calls can
    be pending. *)
Module SignupAsync.
Import Js Signup.
Import ReadingLists(trim_is_empty).
Local Open Scope list_scope.

(** A call of [useAuth] with the arguments it was made with. *)
Inductive call : Type :=
| SignupCall (email password name : string)
| ConfirmCall (email code : string).

(** What happens outside the component state: a call is made, a call
    settles, the user is notified, a navigation is scheduled. *)
Inductive event : Type :=
| Called (c : call)
| Settled (c : call) (outcome : result unit)
| Notified (n : Notify.notification)
| NavigateAfter (milliseconds : Z) (path : string).

(** The component state and the calls that have not settled yet,
    oldest first. *)
Record Page : Type := {
  cells : State;
  in_flight : list call
}.

Definition start : Page := {| cells := initial; in_flight := [] |}.

Section Page.

Variable validateRequired : string -> bool.
Variable validateEmail : string -> bool.
Variable validatePassword : string -> bool.
Variable toastFunctions : bool.

(** [handleSubmit] up to its [await]: the state it leaves and the call
    it awaits, if it gets that far. *)
Definition handleSubmit_start (s : State) : State * option call :=
  if needsVerification s then
    if trim_is_empty (verificationCode s) then
      (with_errors
         {| err_name := None; err_email := None; err_password := None;
            err_confirmPassword := None;
            err_verificationCode := Some "Verification code is required" |} s,
       None)
    else
      (with_isLoading true s,
       Some (ConfirmCall (email s) (verificationCode s)))
  else
    let '(newErrors, valid) :=
      validate validateRequired validateEmail validatePassword s in
    if negb valid then (with_errors newErrors s, None)
    else
      (with_isLoading true (with_errors newErrors s),
       Some (SignupCall (email s) (password s) (name s))).

(** [handleSubmit] after its [await], on the state of that moment: the
    rest of the [try] block or the [catch] block, then [finally]. *)
Definition handleSubmit_resume (c : call) (outcome : result unit) (s : State)
  : State * list event :=
  match c, outcome with
  | SignupCall _ _ _, Ok _ =>
      (with_isLoading false (with_needsVerification true s), [])
  | ConfirmCall _ _, Ok _ =>
      (with_isLoading false s,
       [Notified (Notify.showSuccess toastFunctions
                    "Email verified successfully! You can now login.");
        NavigateAfter 1500 "/login"])
  | _, Throw e =>
      (with_isLoading false s,
       [Notified (Notify.handleApiError toastFunctions e)])
  end.

(** What happens on the page: the user does something, or the pending
    call at position [k] settles. *)
Inductive gesture : Type :=
| User (g : Signup.gesture)
| Settle (k : nat) (outcome : result unit).

Fixpoint remove_nth {A} (k : nat) (l : list A) : list A :=
  match l, k with
  | [], _ => []
  | _ :: r, O => r
  | x :: r, S k' => x :: remove_nth k' r
  end.

(** The edits of the fields and the back button, as [Signup.step] has
    them: the four signup fields are rendered only while
    [needsVerification] is false, the code field and the back button
    only while it is true. *)
Definition edit (s : State) (g : Signup.gesture) : State :=
  match g with
  | TypeName v => if needsVerification s then s else with_name v s
  | TypeEmail v => if needsVerification s then s else with_email v s
  | TypePassword v => if needsVerification s then s else with_password v s
  | TypeConfirmPassword v =>
      if needsVerification s then s else with_confirmPassword v s
  | TypeCode v =>
      if needsVerification s
      then with_errors no_errors (with_verificationCode v s) else s
  | BackToSignup =>
      if needsVerification s
      then with_errors no_errors
             (with_verificationCode "" (with_needsVerification false s))
      else s
  | Submit => s
  end.

Definition step (p : Page) (g : gesture) : Page * list event :=
  match g with
  | User Submit =>
      match handleSubmit_start (cells p) with
      | (s', Some c) =>
          ({| cells := s'; in_flight := in_flight p ++ [c] |}, [Called c])
      | (s', None) => ({| cells := s'; in_flight := in_flight p |}, [])
      end
  | User g' =>
      ({| cells := edit (cells p) g'; in_flight := in_flight p |}, [])
  | Settle k outcome =>
      match nth_error (in_flight p) k with
      | None => (p, [])
      | Some c =>
          let '(s', t) := handleSubmit_resume c outcome (cells p) in
          ({| cells := s'; in_flight := remove_nth k (in_flight p) |},
           Settled c outcome :: t)
      end
  end.

(** A session: the page it ends in and everything that happened,
    oldest first. *)
Fixpoint session (gs : list gesture) (p : Page) : Page * list event :=
  match gs with
  | [] => (p, [])
  | g :: r =>
      let '(p1, t1) := step p g in
      let '(p2, t2) := session r p1 in
      (p2, t1 ++ t2)
  end.

Definition is_signup (c : call) : bool :=
  match c with
  | SignupCall _ _ _ => true
  | ConfirmCall _ _ => false
  end.

(** The e-mail field is left alone while a [signup] call is pending. *)
Fixpoint email_untouched_in_flight (gs : list gesture) (p : Page) : bool :=
  match gs with
  | [] => true
  | g :: r =>
      match g with
      | User (TypeEmail _) => negb (existsb is_signup (in_flight p))
      | _ => true
      end
      && email_untouched_in_flight r (fst (step p g))
  end.

End Page.
End SignupAsync.

(* ===================================================================== *)
(** * Properties of the API client *)
(* ===================================================================== *)

Module ApiFacts.
Import Js Api ApiAdmin.

(** A network that answers every request with the same outcome. *)
Definition answers (r : Response) : Request -> fetch_outcome :=
  fun _ => Responded r.

Section Decoding.

Variable API_BASE_URL : string.
Variable session_token : option string.
Variable JSON_parse : string -> option json.
Variable syntax_message : string -> string.

Local Abbreviation getBooks' r :=
  (getBooks API_BASE_URL (answers r) JSON_parse syntax_message).
Local Abbreviation getReadingLists' r :=
  (getReadingLists API_BASE_URL session_token (answers r) JSON_parse syntax_message).
Local Abbreviation createReadingList' r :=
  (createReadingList API_BASE_URL session_token (answers r) JSON_parse syntax_message).
Local Abbreviation createBook' r :=
  (createBook API_BASE_URL session_token (answers r) JSON_parse).
Local Abbreviation updateReadingList' r :=
  (updateReadingList API_BASE_URL session_token (answers r) JSON_parse syntax_message).
Local Abbreviation deleteReadingList' r :=
  (deleteReadingList API_BASE_URL session_token (answers r) JSON_parse).
Local Abbreviation getBook' r :=
  (getBook API_BASE_URL (answers r) JSON_parse syntax_message).
Local Abbreviation updateBook' r :=
  (updateBook API_BASE_URL session_token (answers r) JSON_parse).
Local Abbreviation deleteBook' r :=
  (deleteBook API_BASE_URL session_token (answers r) JSON_parse).
Local Abbreviation getRecommendations' r :=
  (getRecommendations API_BASE_URL session_token (answers r) JSON_parse
     syntax_message).

(** The response is an envelope whose [body] is the text [inner]. *)
Definition envelope (r : Response) (inner : string) : Prop :=
  exists ms, JSON_parse (text r) = Some (JObj ms)
             /\ lookup_member "body" ms = Some (JStr inner)
             /\ inner <> EmptyString.

Lemma truthy_nonempty s : s <> EmptyString -> truthy (Some (JStr s)) = true.
Proof.
  intros H. simpl. destruct (String.eqb_spec s EmptyString); [contradiction | reflexivity].
Qed.

(** A successful enveloped answer: [getBooks] returns the decoded array
    without its first element. *)
Lemma getBooks_enveloped r inner items :
  ok r = true -> envelope r inner ->
  JSON_parse inner = Some (JArr items) ->
  getBooks' r = Ok (JArr (skipn 1 items)).
Proof.
  intros Hok (ms & Hp & Hb & Hne) Hin.
  unfold getBooks, await_fetch, answers, response_json, parse. simpl.
  rewrite Hok. simpl. rewrite Hp. simpl. rewrite Hb.
  rewrite (truthy_nonempty _ Hne). simpl. unfold parse. rewrite Hin. reflexivity.
Qed.

(** A successful direct answer: [getBooks] returns the decoded array. *)
Lemma getBooks_direct r items :
  ok r = true -> JSON_parse (text r) = Some (JArr items) ->
  getBooks' r = Ok (JArr items).
Proof.
  intros Hok Hp.
  unfold getBooks, await_fetch, answers, response_json, parse. simpl.
  rewrite Hok. simpl. rewrite Hp. reflexivity.
Qed.

(** The body of the response is empty or is not a JSON text. *)
Definition undecodable (r : Response) : Prop :=
  text r = EmptyString \/ JSON_parse (text r) = None.

Definition createBook_fallback (st : Z) : string :=
  if st =? 401 then "Unauthorized: Please login again"
  else if st =? 403 then "Forbidden: Admin access required"
  else if st =? 400 then "Invalid request: Missing required fields"
  else if st =? 409 then "Book with this id already exists"
  else "Failed to create book".

Lemma decode_payload_undecodable r :
  undecodable r -> decode_payload JSON_parse r = (JNull, JObj []).
Proof.
  intros [H | H]; unfold decode_payload.
  - rewrite H. reflexivity.
  - rewrite H. destruct (text r =? "")%string; reflexivity.
Qed.

Lemma createBook_undecodable r book :
  undecodable r ->
  createBook' r book =
    if ok r then Ok JNull else Throw (Error (createBook_fallback (status r))).
Proof.
  intros H. unfold createBook, await_fetch, answers. simpl.
  rewrite (decode_payload_undecodable r H). unfold createBook_fallback.
  destruct (status r =? 401) eqn:E1.
  { apply Z.eqb_eq in E1. unfold ok. rewrite E1. reflexivity. }
  destruct (status r =? 403) eqn:E2.
  { apply Z.eqb_eq in E2. unfold ok. rewrite E2. reflexivity. }
  destruct (status r =? 400) eqn:E3.
  { apply Z.eqb_eq in E3. unfold ok. rewrite E3. reflexivity. }
  destruct (status r =? 409) eqn:E4.
  { apply Z.eqb_eq in E4. unfold ok. rewrite E4. reflexivity. }
  destruct (ok r); reflexivity.
Qed.


(** ** Which message a failed mutation throws *)

(** The response carries [{error: s}] as its direct payload. *)
Definition direct_error (r : Response) (s : string) : Prop :=
  exists ms, JSON_parse (text r) = Some (JObj ms)
             /\ truthy (lookup_member "body" ms) = false
             /\ lookup_member "error" ms = Some (JStr s).

(** The response carries [{error: s}] inside the envelope body. *)
Definition enveloped_error (r : Response) (s : string) : Prop :=
  exists inner ms', envelope r inner
                    /\ JSON_parse inner = Some (JObj ms')
                    /\ lookup_member "error" ms' = Some (JStr s).

Definition carries_error (r : Response) (s : string) : Prop :=
  s <> EmptyString /\ (direct_error r s \/ enveloped_error r s).

(** The response has no decodable body, or its payload (direct or
    enveloped) is an object without an [error] member. *)
Definition direct_without_error (r : Response) : Prop :=
  exists ms, JSON_parse (text r) = Some (JObj ms)
             /\ truthy (lookup_member "body" ms) = false
             /\ lookup_member "error" ms = None.

Definition enveloped_without_error (r : Response) : Prop :=
  exists inner ms', envelope r inner
                    /\ JSON_parse inner = Some (JObj ms')
                    /\ lookup_member "error" ms' = None.

Definition carries_no_error (r : Response) : Prop :=
  undecodable r \/ direct_without_error r \/ enveloped_without_error r.

Definition deleteReadingList_fallback (st : Z) : string :=
  if st =? 401 then "Unauthorized: Please login again"
  else if st =? 404 then "Reading list not found"
  else if st =? 400 then "Invalid request"
  else "Failed to delete reading list".

(** The fixed messages of [updateReadingList] off status 400. *)
Definition updateReadingList_fallback (st : Z) : string :=
  if st =? 401 then "Unauthorized: Please login again"
  else if st =? 404 then "Reading list not found"
  else "Failed to update reading list".

Definition updateBook_fallback (st : Z) : string :=
  if st =? 401 then "Unauthorized: Please login again"
  else if st =? 403 then "Forbidden: Admin access required"
  else if st =? 400 then "Invalid request"
  else if st =? 404 then "Book not found"
  else "Failed to update book".

Definition deleteBook_fallback (st : Z) : string :=
  if st =? 401 then "Unauthorized: Please login again"
  else if st =? 403 then "Forbidden: Admin access required"
  else if st =? 400 then "Invalid request: Missing path param: id"
  else if st =? 404 then "Book not found"
  else "Failed to delete book".







Lemma throw_error_or_string {A} ms s fallback :
  lookup_member "error" ms = Some (JStr s) -> s <> EmptyString ->
  @throw_error_or A (JObj ms) fallback = Throw (Error s).
Proof.
  intros H Hs. unfold throw_error_or. simpl. rewrite H.
  rewrite (truthy_nonempty _ Hs). reflexivity.
Qed.

Lemma throw_error_or_absent {A} ms fallback :
  lookup_member "error" ms = None ->
  @throw_error_or A (JObj ms) fallback = Throw (Error fallback).
Proof. intros H. unfold throw_error_or. simpl. rewrite H. reflexivity. Qed.

(** Whatever [errorData] is, [deleteReadingList] ends in
    [throw new Error(errorData.error || fallback)] off the 2xx range. *)
Lemma deleteReadingList_failed r id :
  id <> EmptyString -> ok r = false ->
  deleteReadingList' r id =
    throw_error_or (decode_error JSON_parse r)
      (deleteReadingList_fallback (status r)).
Proof.
  intros Hid Hok. unfold deleteReadingList, await_fetch, answers. simpl.
  destruct (String.eqb_spec id EmptyString) as [E | _]; [contradiction |].
  simpl. unfold deleteReadingList_fallback.
  destruct (status r =? 401); [reflexivity |].
  destruct (status r =? 404); [reflexivity |].
  destruct (status r =? 400); [reflexivity |].
  rewrite Hok. reflexivity.
Qed.


Lemma updateBook_failed r id book :
  id <> EmptyString -> ok r = false ->
  updateBook' r id book =
    throw_error_or (snd (decode_payload JSON_parse r))
      (updateBook_fallback (status r)).
Proof.
  intros Hid Hok. unfold updateBook, await_fetch, answers. simpl.
  destruct (String.eqb_spec id EmptyString) as [E | _]; [contradiction |].
  simpl.
  destruct (decode_payload JSON_parse r) as [parsedData errorData]. simpl.
  unfold updateBook_fallback.
  destruct (status r =? 401); [reflexivity |].
  destruct (status r =? 403); [reflexivity |].
  destruct (status r =? 400); [reflexivity |].
  destruct (status r =? 404); [reflexivity |].
  rewrite Hok. reflexivity.
Qed.

Lemma deleteBook_failed r id :
  id <> EmptyString -> ok r = false ->
  deleteBook' r id =
    throw_error_or (decode_error_body JSON_parse r)
      (deleteBook_fallback (status r)).
Proof.
  intros Hid Hok. unfold deleteBook, await_fetch, answers. simpl.
  destruct (String.eqb_spec id EmptyString) as [E | _]; [contradiction |].
  simpl. unfold deleteBook_fallback.
  destruct (status r =? 401); [reflexivity |].
  destruct (status r =? 403); [reflexivity |].
  destruct (status r =? 400); [reflexivity |].
  destruct (status r =? 404); [reflexivity |].
  rewrite Hok. reflexivity.
Qed.

(** No status the endpoints test for lies in the 2xx range. *)
Lemma ok_status_differs r c :
  ok r = true -> c < 200 \/ 299 < c -> (status r =? c) = false.
Proof.
  unfold ok. rewrite andb_true_iff, !Z.leb_le. intros [H1 H2] Hc.
  apply Z.eqb_neq. lia.
Qed.

Lemma updateBook_succeeded r id book :
  id <> EmptyString -> ok r = true ->
  updateBook' r id book = Ok (fst (decode_payload JSON_parse r)).
Proof.
  intros Hid Hok. unfold updateBook, await_fetch, answers. simpl.
  destruct (String.eqb_spec id EmptyString) as [E | _]; [contradiction |].
  simpl.
  destruct (decode_payload JSON_parse r) as [parsedData errorData]. simpl.
  rewrite !(ok_status_differs r _ Hok) by lia. rewrite Hok. reflexivity.
Qed.

Lemma deleteBook_succeeded r id :
  id <> EmptyString -> ok r = true -> deleteBook' r id = Ok tt.
Proof.
  intros Hid Hok. unfold deleteBook, await_fetch, answers. simpl.
  destruct (String.eqb_spec id EmptyString) as [E | _]; [contradiction |].
  simpl. rewrite !(ok_status_differs r _ Hok) by lia. rewrite Hok. reflexivity.
Qed.

Lemma deleteReadingList_succeeded r id :
  id <> EmptyString -> ok r = true -> deleteReadingList' r id = Ok tt.
Proof.
  intros Hid Hok. unfold deleteReadingList, await_fetch, answers. simpl.
  destruct (String.eqb_spec id EmptyString) as [E | _]; [contradiction |].
  simpl. rewrite !(ok_status_differs r _ Hok) by lia. rewrite Hok. reflexivity.
Qed.

Lemma updateReadingList_off_400 r id updates :
  ok r = false -> status r <> 400 ->
  updateReadingList' r id updates =
    Throw (Error (updateReadingList_fallback (status r))).
Proof.
  intros Hok H4. unfold updateReadingList, await_fetch, answers. simpl.
  unfold updateReadingList_fallback.
  destruct (status r =? 401); [reflexivity |].
  destruct (status r =? 404); [reflexivity |].
  destruct (Z.eqb_spec (status r) 400) as [E | _]; [contradiction |].
  rewrite Hok. reflexivity.
Qed.

Lemma updateReadingList_at_400 r id updates :
  status r = 400 ->
  updateReadingList' r id updates =
    (errorData <- try_catch (response_json JSON_parse syntax_message r)
                    (fun _ => Ok (JObj [])) ;;
     throw_error_or errorData "Invalid request").
Proof.
  intros H4. unfold updateReadingList, await_fetch, answers. simpl.
  rewrite H4. reflexivity.
Qed.

Section WithEmpty.

(** [JSON.parse] rejects the empty text. *)
Hypothesis JSON_parse_empty : JSON_parse EmptyString = None.

Lemma undecodable_parse r : undecodable r -> JSON_parse (text r) = None.
Proof. intros [H | H]; [rewrite H; exact JSON_parse_empty | exact H]. Qed.

Lemma parsed_nonempty r v : JSON_parse (text r) = Some v -> (text r =? "")%string = false.
Proof.
  intros H. destruct (String.eqb_spec (text r) EmptyString) as [E | _]; [| reflexivity].
  rewrite E, JSON_parse_empty in H. discriminate.
Qed.

Lemma decode_error_direct r ms :
  JSON_parse (text r) = Some (JObj ms) ->
  truthy (lookup_member "body" ms) = false ->
  decode_error JSON_parse r = JObj ms.
Proof.
  intros Hp Hb. unfold decode_error.
  rewrite (parsed_nonempty _ _ Hp), Hp. simpl. rewrite Hb. reflexivity.
Qed.

Lemma decode_error_enveloped r inner v :
  envelope r inner -> JSON_parse inner = Some v ->
  decode_error JSON_parse r = v.
Proof.
  intros (ms & Hp & Hb & Hne) Hin. unfold decode_error.
  rewrite (parsed_nonempty _ _ Hp), Hp. simpl. rewrite Hb.
  rewrite (truthy_nonempty _ Hne). simpl. rewrite Hin. reflexivity.
Qed.

Lemma decode_error_undecodable r :
  undecodable r -> decode_error JSON_parse r = JObj [].
Proof.
  intros H. unfold decode_error. rewrite (undecodable_parse r H).
  destruct (text r =? "")%string; reflexivity.
Qed.

Lemma decode_error_body_undecodable r :
  undecodable r -> decode_error_body JSON_parse r = JObj [].
Proof.
  intros H. unfold decode_error_body. rewrite (undecodable_parse r H).
  destruct (text r =? "")%string; reflexivity.
Qed.







(** C5, as amended.  For every response whose body is empty or is not a
    JSON text, and with a non-empty identifier where the call takes
    one.  The four calls whose decoding is guarded ([createBook],
    [updateBook], [deleteBook], [deleteReadingList]) let no decode
    exception escape: on a 2xx status they return normally, the first
    two with [null] for the book, and otherwise they throw the
    endpoint's fixed fallback message for the status.  The six calls
    that decode with [response.json()] ([getBooks], [getBook],
    [getReadingLists], [createReadingList], [updateReadingList],
    [getRecommendations]) throw their fixed fallback message on every
    status outside 2xx, except that [getBook] returns [null] at 404 and
    that [updateReadingList], which guards its decoding at 400, throws
    'Invalid request' there; on a 2xx status the decode exception of
    [response.json()] reaches the caller. *)
Theorem undecodable_body_outcomes
  (r : Response) (id query : string) (doc : json) :
  undecodable r -> id <> EmptyString ->
  createBook' r doc =
    (if ok r then Ok JNull else Throw (Error (createBook_fallback (status r))))
  /\ updateBook' r id doc =
    (if ok r then Ok JNull else Throw (Error (updateBook_fallback (status r))))
  /\ deleteBook' r id =
    (if ok r then Ok tt else Throw (Error (deleteBook_fallback (status r))))
  /\ deleteReadingList' r id =
    (if ok r then Ok tt
     else Throw (Error (deleteReadingList_fallback (status r))))
  /\ getBooks' r =
    (if ok r then Throw (SyntaxError (syntax_message (text r)))
     else Throw (Error "Failed to fetch books"))
  /\ getBook' r id =
    (if status r =? 404 then Ok JNull
     else if ok r then Throw (SyntaxError (syntax_message (text r)))
     else Throw (Error "Failed to fetch book"))
  /\ getReadingLists' r =
    (if ok r then Throw (SyntaxError (syntax_message (text r)))
     else Throw (Error "Failed to fetch reading lists"))
  /\ createReadingList' r doc =
    (if ok r then Throw (SyntaxError (syntax_message (text r)))
     else Throw (Error "Failed to create reading list"))
  /\ getRecommendations' r query =
    (if ok r then Throw (SyntaxError (syntax_message (text r)))
     else Throw (Error "Failed to get recommendations"))
  /\ updateReadingList' r id doc =
    (if ok r then Throw (SyntaxError (syntax_message (text r)))
     else if status r =? 400 then Throw (Error "Invalid request")
     else Throw (Error (updateReadingList_fallback (status r)))).
Proof.
  intros H Hid. pose proof (undecodable_parse r H) as Hp.
  pose proof (decode_payload_undecodable r H) as Hd.
  split; [apply createBook_undecodable; exact H |].
  split.
  { destruct (ok r) eqn:Hok.
    - rewrite (updateBook_succeeded r id doc Hid Hok), Hd. reflexivity.
    - rewrite (updateBook_failed r id doc Hid Hok), Hd.
      apply throw_error_or_absent. reflexivity. }
  split.
  { destruct (ok r) eqn:Hok.
    - apply deleteBook_succeeded; assumption.
    - rewrite (deleteBook_failed r id Hid Hok).
      rewrite (decode_error_body_undecodable r H).
      apply throw_error_or_absent. reflexivity. }
  split.
  { destruct (ok r) eqn:Hok.
    - apply deleteReadingList_succeeded; assumption.
    - rewrite (deleteReadingList_failed r id Hid Hok).
      rewrite (decode_error_undecodable r H).
      apply throw_error_or_absent. reflexivity. }
  split.
  { unfold getBooks, await_fetch, answers, response_json, parse.
    simpl. rewrite Hp. destruct (ok r); reflexivity. }
  split.
  { unfold getBook, await_fetch, answers, response_json, parse.
    simpl. rewrite Hp. destruct (status r =? 404); [reflexivity |].
    destruct (ok r); reflexivity. }
  split.
  { unfold getReadingLists, await_fetch, answers, response_json, parse.
    simpl. rewrite Hp. destruct (ok r); reflexivity. }
  split.
  { unfold createReadingList, await_fetch, answers, response_json, parse.
    simpl. rewrite Hp. destruct (ok r); reflexivity. }
  split.
  { unfold getRecommendations, await_fetch, answers, response_json, parse.
    simpl. rewrite Hp. destruct (ok r); reflexivity. }
  destruct (ok r) eqn:Hok.
  - unfold updateReadingList, await_fetch, answers, response_json, parse.
    simpl. rewrite !(ok_status_differs r _ Hok) by lia.
    rewrite Hok, Hp. reflexivity.
  - destruct (Z.eqb_spec (status r) 400) as [E4 | E4].
    + rewrite (updateReadingList_at_400 r id doc E4).
      unfold response_json, parse. rewrite Hp. simpl.
      apply throw_error_or_absent. reflexivity.
    + apply updateReadingList_off_400; assumption.
Qed.


End WithEmpty.
End Decoding.

(** ** Concrete runs *)

Import JsonText.

Definition base : string := "http://localhost:3000/api".

Definition two_books_enveloped : Response :=
  {| status := 200;
     text := qq "{'statusCode':200,'body':'[{\'id\':\'b1\'},{\'id\':\'b2\'}]'}" |}.

Definition b1 : json := JObj [("id", JStr "b1")].
Definition b2 : json := JObj [("id", JStr "b2")].

(** C1.  On the enveloped answer whose body decodes to the two books
    [b1] and [b2], [getBooks] returns [b2] alone: the first book of the
    decoded payload is lost. *)
Theorem getBooks_envelope_loses_first_book :
  (exists inner,
      envelope JsonText.JSON_parse two_books_enveloped inner
      /\ JsonText.JSON_parse inner = Some (JArr [b1; b2]))
  /\ getBooks base (answers two_books_enveloped)
       JsonText.JSON_parse syntax_message = Ok (JArr [b2]).
Proof.
  split.
  - exists (qq "[{'id':'b1'},{'id':'b2'}]"). split.
    + eexists. split; [vm_compute; reflexivity |].
      split; [vm_compute; reflexivity | discriminate].
    + vm_compute. reflexivity.
  - vm_compute. reflexivity.
Qed.

Definition empty_success : Response := {| status := 200; text := EmptyString |}.

(** C5 as stated fails: on a 200 answer with an empty body [getBooks]
    neither returns nor throws its fallback message; the decode
    exception escapes.  The same holds of the five other calls that
    decode with [response.json()]. *)
Lemma empty_success_body_throws_decode_error :
  undecodable JsonText.JSON_parse empty_success
  /\ getBooks base (answers empty_success) JsonText.JSON_parse syntax_message
     = Throw (SyntaxError "Unexpected end of JSON input")
  /\ getBooks base (answers empty_success) JsonText.JSON_parse syntax_message
     <> Throw (Error "Failed to fetch books")
  /\ (forall v, getBooks base (answers empty_success)
                  JsonText.JSON_parse syntax_message <> Ok v)
  /\ getBook base (answers empty_success) JsonText.JSON_parse syntax_message "b1"
     = Throw (SyntaxError "Unexpected end of JSON input")
  /\ getReadingLists base (Some "token") (answers empty_success)
       JsonText.JSON_parse syntax_message
     = Throw (SyntaxError "Unexpected end of JSON input")
  /\ createReadingList base (Some "token") (answers empty_success)
       JsonText.JSON_parse syntax_message (JObj [("name", JStr "Summer")])
     = Throw (SyntaxError "Unexpected end of JSON input")
  /\ updateReadingList base (Some "token") (answers empty_success)
       JsonText.JSON_parse syntax_message "l1" (JObj [("bookIds", JArr [])])
     = Throw (SyntaxError "Unexpected end of JSON input")
  /\ getRecommendations base (Some "token") (answers empty_success)
       JsonText.JSON_parse syntax_message "space opera"
     = Throw (SyntaxError "Unexpected end of JSON input").
Proof.
  split; [left; reflexivity |].
  split; [vm_compute; reflexivity |].
  split; [vm_compute; discriminate |].
  split; [intros v; vm_compute; discriminate |].
  repeat split; vm_compute; reflexivity.
Qed.

Definition not_json_401 : Response :=
  {| status := 401; text := "<html>Unauthorized</html>" |}.

Definition not_json_400 : Response :=
  {| status := 400; text := "Bad Request" |}.

Lemma undecodable_body_outcomes_witness :
  undecodable JsonText.JSON_parse not_json_401
  /\ createBook base (Some "token") (answers not_json_401) JsonText.JSON_parse b1
     = Throw (Error "Unauthorized: Please login again")
  /\ deleteBook base (Some "token") (answers not_json_401) JsonText.JSON_parse "b1"
     = Throw (Error "Unauthorized: Please login again")
  /\ getBooks base (answers not_json_401) JsonText.JSON_parse syntax_message
     = Throw (Error "Failed to fetch books")
  /\ deleteReadingList base (Some "token") (answers empty_success)
       JsonText.JSON_parse "l1" = Ok tt
  /\ updateBook base (Some "token") (answers empty_success)
       JsonText.JSON_parse "b1" b1 = Ok JNull
  /\ updateReadingList base (Some "token") (answers not_json_400)
       JsonText.JSON_parse syntax_message "l1" (JObj [])
     = Throw (Error "Invalid request").
Proof.
  assert (Hid : "b1" <> EmptyString) by discriminate.
  assert (Hl : "l1" <> EmptyString) by discriminate.
  assert (U : undecodable JsonText.JSON_parse not_json_401)
    by (right; vm_compute; reflexivity).
  assert (U0 : undecodable JsonText.JSON_parse empty_success)
    by (left; reflexivity).
  assert (U4 : undecodable JsonText.JSON_parse not_json_400)
    by (right; vm_compute; reflexivity).
  pose proof (undecodable_body_outcomes base (Some "token")
                JsonText.JSON_parse syntax_message eq_refl
                not_json_401 "b1" "space opera" b1 U Hid)
    as (Hc & _ & Hd & _ & Hg & _).
  pose proof (undecodable_body_outcomes base (Some "token")
                JsonText.JSON_parse syntax_message eq_refl
                empty_success "l1" "space opera" b1 U0 Hl)
    as (_ & _ & _ & Hdl & _).
  pose proof (undecodable_body_outcomes base (Some "token")
                JsonText.JSON_parse syntax_message eq_refl
                empty_success "b1" "space opera" b1 U0 Hid)
    as (_ & Hu & _).
  pose proof (undecodable_body_outcomes base (Some "token")
                JsonText.JSON_parse syntax_message eq_refl
                not_json_400 "l1" "space opera" (JObj []) U4 Hl)
    as (_ & _ & _ & _ & _ & _ & _ & _ & _ & H4).
  split; [exact U |]. split; [exact Hc |]. split; [exact Hd |].
  split; [exact Hg |]. split; [exact Hdl |]. split; [exact Hu | exact H4].
Defined.


Definition enveloped_denial_404 : Response :=
  {| status := 404;
     text := qq "{'statusCode':404,'body':'{\'error\':\'No such list\'}'}" |}.









End ApiFacts.

(* ===================================================================== *)
(** * Properties of the reading-list controller *)
(* ===================================================================== *)

Module ReadingListsFacts.
Import Js ReadingLists.
Local Open Scope list_scope.

(** The identifiers [handleRemoveBook] sends as the replacement set. *)
Definition remaining (bookId : string) (l : ReadingList) : list string :=
  filter (fun i => negb (i =? bookId)%string) (bookIds l).

Definition removal (bookId : string) (l : ReadingList) : Updates :=
  {| upd_name := None; upd_bookIds := Some (remaining bookId l) |}.

Definition without (bookId : string) (books : list Book) : list Book :=
  filter (fun book => negb (book_id book =? bookId)%string) books.

Definition outcome_kind {A} (r : result A) : Notify.ToastType :=
  match r with
  | Ok _ => Notify.success
  | Throw _ => Notify.error
  end.

Section Handlers.

Variable api : ApiService.
Variable toastFunctions : bool.

(** ** [handleRemoveBook] computed *)

Lemma handleRemoveBook_unselected c bookId s :
  selectedList c = None ->
  handleRemoveBook api toastFunctions c bookId s = (Ok tt, s, []).
Proof. intros H. unfold handleRemoveBook. rewrite H. reflexivity. Qed.

Lemma handleRemoveBook_failure c bookId s selected e :
  selectedList c = Some selected ->
  updateReadingList api (id selected) (removal bookId selected) = Throw e ->
  handleRemoveBook api toastFunctions c bookId s =
    (Ok tt,
     with_removingBookId None (with_removingBookId (Some bookId) s),
     [Called (UpdateReadingList (id selected) (removal bookId selected))
        (with_removingBookId (Some bookId) s);
      Notified (Notify.handleApiError toastFunctions e)]).
Proof.
  intros Hsel Hup. unfold handleRemoveBook. rewrite Hsel.
  unfold bindM, try_catch_finally, await, set; simpl.
  fold (remaining bookId selected). fold (removal bookId selected).
  rewrite Hup. reflexivity.
Qed.

Lemma handleRemoveBook_success c bookId s selected updatedList :
  selectedList c = Some selected ->
  updateReadingList api (id selected) (removal bookId selected) = Ok updatedList ->
  handleRemoveBook api toastFunctions c bookId s =
    (Ok tt,
     with_removingBookId None
       (with_lists
          (map (fun l => if (id l =? id selected)%string then updatedList else l)
               (lists c))
          (with_listBooks (without bookId (listBooks c))
             (with_selectedList (Some updatedList)
                (with_removingBookId (Some bookId) s)))),
     [Called (UpdateReadingList (id selected) (removal bookId selected))
        (with_removingBookId (Some bookId) s);
      Notified (Notify.showSuccess toastFunctions
                  "Book removed from reading list successfully!")]).
Proof.
  intros Hsel Hup. unfold handleRemoveBook. rewrite Hsel.
  unfold bindM, try_catch_finally, await, set; simpl.
  fold (remaining bookId selected). fold (removal bookId selected).
  rewrite Hup. reflexivity.
Qed.

(** C10.  With no list selected [handleRemoveBook] does nothing at
    all: the state is the one it started from, and its trace is empty,
    so no request was issued and nothing was notified. *)
Theorem remove_without_selection_is_noop (s : State) (bookId : string) :
  selectedList s = None ->
  run api toastFunctions (ClickRemove bookId) s = (s, []).
Proof.
  intros H. unfold run, handler.
  rewrite (handleRemoveBook_unselected s bookId s H). reflexivity.
Qed.

(** C2.  When the update request of [handleRemoveBook] fails, the
    materialized view, the selected list and the cached lists are what
    they were before the call, and the trace holds exactly one
    notification, of kind error, carrying the message of the failure. *)
Theorem failed_removal_keeps_state (s : State) (bookId : string)
  (selected : ReadingList) (e : js_error) :
  selectedList s = Some selected ->
  updateReadingList api (id selected) (removal bookId selected) = Throw e ->
  let s' := fst (run api toastFunctions (ClickRemove bookId) s) in
  let t := snd (run api toastFunctions (ClickRemove bookId) s) in
  listBooks s' = listBooks s
  /\ selectedList s' = selectedList s
  /\ lists s' = lists s
  /\ exists n, notifications t = [n]
               /\ Notify.kind n = Notify.error
               /\ Notify.message n = error_message e.
Proof.
  intros Hsel Hup. unfold run, handler.
  rewrite (handleRemoveBook_failure s bookId s selected e Hsel Hup).
  simpl. repeat split.
  eexists. repeat split.
Qed.

(** C3, as amended.  The view is updated after the server has
    confirmed, not before: [handleRemoveBook] issues one request, at
    that moment the materialized view is still the one it started from,
    and the book is filtered out of it only when the request succeeds;
    when the request fails the view stays as it was. *)
Theorem removal_follows_confirmation (s : State) (bookId : string)
  (selected : ReadingList) :
  selectedList s = Some selected ->
  let s' := fst (run api toastFunctions (ClickRemove bookId) s) in
  let t := snd (run api toastFunctions (ClickRemove bookId) s) in
  (exists at_request,
      requests t = [(UpdateReadingList (id selected) (removal bookId selected),
                     at_request)]
      /\ listBooks at_request = listBooks s)
  /\ (forall l, updateReadingList api (id selected) (removal bookId selected) = Ok l ->
                listBooks s' = without bookId (listBooks s))
  /\ (forall e, updateReadingList api (id selected) (removal bookId selected) = Throw e ->
                listBooks s' = listBooks s).
Proof.
  intros Hsel. unfold run, handler.
  destruct (updateReadingList api (id selected) (removal bookId selected))
    as [l | e] eqn:Hup.
  - rewrite (handleRemoveBook_success s bookId s selected l Hsel Hup).
    simpl. split; [eexists; split; reflexivity |].
    split; [reflexivity | discriminate].
  - rewrite (handleRemoveBook_failure s bookId s selected e Hsel Hup).
    simpl. split; [eexists; split; reflexivity |].
    split; [discriminate | reflexivity].
Qed.

(** ** The other handlers computed *)

Lemma issue_getBooks_spec ids s :
  issue_getBooks api ids s =
    (Ok (map (getBook api) ids), s, map (fun i => Called (GetBook i) s) ids).
Proof.
  induction ids as [| i r IH]; simpl; [reflexivity |].
  rewrite IH. reflexivity.
Qed.

Lemma loadListBooks_fulfilled ids s books :
  Promise_all (map (getBook api) ids) = Ok books ->
  loadListBooks api toastFunctions ids s =
    (Ok tt,
     with_isLoadingBooks false
       (with_listBooks (non_null books) (with_isLoadingBooks true s)),
     map (fun i => Called (GetBook i) (with_isLoadingBooks true s)) ids).
Proof.
  intros H. unfold loadListBooks, bindM, try_catch_finally, set. simpl.
  rewrite issue_getBooks_spec, H. simpl. rewrite !app_nil_r. reflexivity.
Qed.

Lemma loadListBooks_rejected ids s e :
  Promise_all (map (getBook api) ids) = Throw e ->
  loadListBooks api toastFunctions ids s =
    (Ok tt,
     with_isLoadingBooks false (with_isLoadingBooks true s),
     map (fun i => Called (GetBook i) (with_isLoadingBooks true s)) ids
     ++ [Notified (Notify.handleApiError toastFunctions e)]).
Proof.
  intros H. unfold loadListBooks, bindM, try_catch_finally, set. simpl.
  rewrite issue_getBooks_spec, H. simpl. rewrite !app_nil_r. reflexivity.
Qed.

Lemma handleCreateList_blank c s :
  trim_is_empty (newListName c) = true ->
  handleCreateList api toastFunctions c s =
    (Ok tt, s, [Alerted "Please enter a list name"]).
Proof. intros H. unfold handleCreateList. rewrite H. reflexivity. Qed.

Definition creation (c : State) : NewReadingList :=
  {| new_userId := "1"; new_name := newListName c;
     new_description := newListDescription c; new_bookIds := [] |}.

Lemma handleCreateList_success c s newList :
  trim_is_empty (newListName c) = false ->
  createReadingList api (creation c) = Ok newList ->
  handleCreateList api toastFunctions c s =
    (Ok tt,
     with_newListDescription ""
       (with_newListName ""
          (with_isModalOpen false (with_lists (lists c ++ [newList]) s))),
     [Called (CreateReadingList (creation c)) s;
      Notified (Notify.showSuccess toastFunctions
                  "Reading list created successfully!")]).
Proof.
  intros Hn Hc. unfold handleCreateList. rewrite Hn.
  unfold try_catch, bindM, try_catch_finally, await, set; simpl.
  fold (creation c). rewrite Hc. reflexivity.
Qed.

Lemma handleCreateList_failure c s e :
  trim_is_empty (newListName c) = false ->
  createReadingList api (creation c) = Throw e ->
  handleCreateList api toastFunctions c s =
    (Ok tt, s,
     [Called (CreateReadingList (creation c)) s;
      Notified (Notify.handleApiError toastFunctions e)]).
Proof.
  intros Hn Hc. unfold handleCreateList. rewrite Hn.
  unfold try_catch, bindM, try_catch_finally, await, set; simpl.
  fold (creation c). rewrite Hc. reflexivity.
Qed.

Lemma handleDeleteList_unconfirmed c s answer listId :
  answer <> Some true ->
  handleDeleteList api toastFunctions c answer listId s =
    (Ok tt, s, [Asked delete_prompt]).
Proof.
  intros H. destruct answer as [[|] |]; [contradiction H; reflexivity | |];
    reflexivity.
Qed.

(** What a confirmed, successful deletion writes. *)
Definition after_deletion (c : State) (listId : string) (s : State) : State :=
  let s1 := with_lists
              (filter (fun l => negb (id l =? listId)%string) (lists c)) s in
  match selectedList c with
  | Some selected =>
      if (id selected =? listId)%string
      then with_listBooks []
             (with_selectedList None (with_isBooksModalOpen false s1))
      else s1
  | None => s1
  end.

Lemma handleDeleteList_success c s listId :
  deleteReadingList api listId = Ok tt ->
  handleDeleteList api toastFunctions c (Some true) listId s =
    (Ok tt,
     with_deletingListId None
       (after_deletion c listId (with_deletingListId (Some listId) s)),
     [Asked delete_prompt;
      Called (DeleteReadingList listId) (with_deletingListId (Some listId) s);
      Notified (Notify.showSuccess toastFunctions
                  "Reading list deleted successfully!")]).
Proof.
  intros H. unfold handleDeleteList, after_deletion.
  unfold bindM, try_catch_finally, await, set, emit; simpl. rewrite H.
  destruct (selectedList c) as [selected |]; [| reflexivity].
  destruct (id selected =? listId)%string; reflexivity.
Qed.

Lemma handleDeleteList_failure c s listId e :
  deleteReadingList api listId = Throw e ->
  handleDeleteList api toastFunctions c (Some true) listId s =
    (Ok tt,
     with_deletingListId None (with_deletingListId (Some listId) s),
     [Asked delete_prompt;
      Called (DeleteReadingList listId) (with_deletingListId (Some listId) s);
      Notified (Notify.handleApiError toastFunctions e)]).
Proof.
  intros H. unfold handleDeleteList.
  unfold bindM, try_catch_finally, await, set, emit; simpl. rewrite H.
  reflexivity.
Qed.

(** C8, as amended.  A mutating operation that reaches its request
    ends in exactly one notification, a success when the request
    succeeded and an error when it failed.  The paths that return before
    any request notify nothing through the channel: a blank name makes
    [handleCreateList] raise its own plain alert and change nothing, and
    a declined or unanswered confirmation makes [handleDeleteList] only
    ask. *)
Theorem mutation_notifications (s : State) :
  (trim_is_empty (newListName s) = false ->
   exists n, notifications (snd (run api toastFunctions SubmitCreate s)) = [n]
             /\ Notify.kind n = outcome_kind (createReadingList api (creation s)))
  /\ (trim_is_empty (newListName s) = true ->
      run api toastFunctions SubmitCreate s
        = (s, [Alerted "Please enter a list name"]))
  /\ (forall bookId selected,
         selectedList s = Some selected ->
         exists n, notifications (snd (run api toastFunctions (ClickRemove bookId) s)) = [n]
                   /\ Notify.kind n =
                        outcome_kind (updateReadingList api (id selected)
                                        (removal bookId selected)))
  /\ (forall listId,
         exists n, notifications
                     (snd (run api toastFunctions (ClickDelete listId (Some true)) s)) = [n]
                   /\ Notify.kind n = outcome_kind (deleteReadingList api listId))
  /\ (forall listId answer,
         answer <> Some true ->
         run api toastFunctions (ClickDelete listId answer) s
           = (s, [Asked delete_prompt])).
Proof.
  unfold run, handler. repeat split.
  - intros Hn. destruct (createReadingList api (creation s)) as [l | e] eqn:Hc.
    + rewrite (handleCreateList_success s s l Hn Hc). simpl.
      eexists; split; reflexivity.
    + rewrite (handleCreateList_failure s s e Hn Hc). simpl.
      eexists; split; reflexivity.
  - intros Hn. rewrite (handleCreateList_blank s s Hn). reflexivity.
  - intros bookId selected Hsel.
    destruct (updateReadingList api (id selected) (removal bookId selected))
      as [l | e] eqn:Hup.
    + rewrite (handleRemoveBook_success s bookId s selected l Hsel Hup). simpl.
      eexists; split; reflexivity.
    + rewrite (handleRemoveBook_failure s bookId s selected e Hsel Hup). simpl.
      eexists; split; reflexivity.
  - intros listId.
    destruct (deleteReadingList api listId) as [[] | e] eqn:Hd.
    + rewrite (handleDeleteList_success s s listId Hd). simpl.
      eexists; split; reflexivity.
    + rewrite (handleDeleteList_failure s s listId e Hd). simpl.
      eexists; split; reflexivity.
  - intros listId answer Ha.
    rewrite (handleDeleteList_unconfirmed s s answer listId Ha). reflexivity.
Qed.

End Handlers.
(** ** Resolving the books of a list *)

Lemma Promise_all_rejects {A} (f : string -> result A) ids i e :
  In i ids -> f i = Throw e -> exists e', Promise_all (map f ids) = Throw e'.
Proof.
  induction ids as [| j r IH]; simpl; [contradiction |].
  intros [-> | Hin] He.
  - rewrite He. eauto.
  - destruct (f j) as [a | e0]; [| eauto].
    destruct (IH Hin He) as (e' & ->). eauto.
Qed.

Lemma Promise_all_members {A} (f : string -> result (option A)) ids books :
  Promise_all (map f ids) = Ok books ->
  forall b, In b (non_null books) -> exists i, In i ids /\ f i = Ok (Some b).
Proof.
  revert books. induction ids as [| j r IH]; simpl; intros books H b Hb.
  - inversion H; subst. contradiction.
  - destruct (f j) as [o | e] eqn:Hj; [| discriminate].
    destruct (Promise_all (map f r)) as [l | e]; [| discriminate].
    inversion H; subst. destruct o as [a |]; simpl in Hb.
    + destruct Hb as [-> | Hb]; [eauto |].
      destruct (IH l eq_refl b Hb) as (i & Hi & Hf). eauto.
    + destruct (IH l eq_refl b Hb) as (i & Hi & Hf). eauto.
Qed.

Lemma Promise_all_fulfils {A} (f : string -> result A) ids :
  (forall i, In i ids -> exists a, f i = Ok a) ->
  exists l, Promise_all (map f ids) = Ok l.
Proof.
  induction ids as [| j r IH]; simpl; intros H; [eauto |].
  destruct (H j (or_introl eq_refl)) as (a & ->).
  destruct IH as (l & ->); eauto.
Qed.

Lemma notifications_of_calls s0 ids t :
  notifications (map (fun i => Called (GetBook i) s0) ids ++ t) = notifications t.
Proof. induction ids as [| i r IH]; simpl; [reflexivity | exact IH]. Qed.

Section Resolution.

Variable API_BASE_URL : string.
Variable session_token : option string.
Variable fetch : Api.Request -> Api.fetch_outcome.
Variable JSON_parse : string -> option json.
Variable syntax_message : string -> string.
Variable as_Book : json -> Book.
Variable as_ReadingList : json -> ReadingList.
Variable as_ReadingLists : json -> list ReadingList.
Variable toastFunctions : bool.

Local Abbreviation service :=
  (Backend.service API_BASE_URL session_token fetch JSON_parse syntax_message
     as_Book as_ReadingList as_ReadingLists).
Local Abbreviation getBook_json :=
  (Api.getBook API_BASE_URL fetch JSON_parse syntax_message).

(** The request [getBook] makes for an identifier. *)
Definition book_request (i : string) : Api.Request :=
  {| Api.req_method := "GET";
     Api.req_url := (API_BASE_URL ++ "/books/" ++ i)%string;
     Api.req_headers := [];
     Api.req_body := None |}.

(** How an identifier resolves when no transport fails: the server
    answers 404 (not found), or [getBook] fulfils with a document. *)
Inductive resolves (i : string) : option json -> Prop :=
| resolves_not_found r :
    fetch (book_request i) = Api.Responded r -> Api.status r = 404 ->
    resolves i None
| resolves_found j :
    getBook_json i = Ok j -> j <> JNull ->
    resolves i (Some j).

(** The books among the outcomes, in order. *)
Fixpoint found_books (outcomes : list (string * option json)) : list Book :=
  match outcomes with
  | [] => []
  | (_, Some j) :: r => as_Book j :: found_books r
  | (_, None) :: r => found_books r
  end.

Lemma getBook_not_found i r :
  fetch (book_request i) = Api.Responded r -> Api.status r = 404 ->
  getBook_json i = Ok JNull.
Proof.
  intros Hf Hs. unfold Api.getBook, Api.await_fetch.
  fold (book_request i). rewrite Hf. simpl. rewrite Hs. reflexivity.
Qed.

Lemma getBook_rejected i e :
  fetch (book_request i) = Api.Rejected e -> getBook_json i = Throw e.
Proof.
  intros Hf. unfold Api.getBook, Api.await_fetch.
  fold (book_request i). rewrite Hf. reflexivity.
Qed.

Lemma getBook_failure_status i r :
  fetch (book_request i) = Api.Responded r ->
  Api.ok r = false -> Api.status r <> 404 ->
  getBook_json i = Throw (Error "Failed to fetch book").
Proof.
  intros Hf Hok H4. unfold Api.getBook, Api.await_fetch.
  fold (book_request i). rewrite Hf. simpl.
  destruct (Z.eqb_spec (Api.status r) 404) as [E | _]; [contradiction |].
  rewrite Hok. reflexivity.
Qed.

Lemma service_getBook i :
  getBook service i = Backend.map_result (Backend.nullable as_Book) (getBook_json i).
Proof. reflexivity. Qed.

Lemma Promise_all_cons {A} (x : result A) (ps : list (result A)) a l :
  x = Ok a -> Promise_all ps = Ok l -> Promise_all (x :: ps) = Ok (a :: l).
Proof. intros -> H. simpl. rewrite H. reflexivity. Qed.

Lemma resolved_promises outcomes :
  Forall (fun io => resolves (fst io) (snd io)) outcomes ->
  exists books,
    Promise_all (map (getBook service) (map fst outcomes)) = Ok books
    /\ non_null books = found_books outcomes.
Proof.
  induction 1 as [| [i o] r Hio _ IH].
  - exists []. split; reflexivity.
  - destruct IH as (books & Hall & Hnn).
    cbn [map fst snd found_books] in *.
    inversion Hio as [resp Hf Hs Ho | j Hj Hnull Ho]; subst o.
    + exists (None :: books). split; [| exact Hnn].
      apply Promise_all_cons; [| exact Hall].
      rewrite service_getBook, (getBook_not_found i resp Hf Hs). reflexivity.
    + exists (Some (as_Book j) :: books). split.
      * apply Promise_all_cons; [| exact Hall].
        rewrite service_getBook, Hj.
        destruct j; try reflexivity. contradiction Hnull. reflexivity.
      * simpl. rewrite Hnn. reflexivity.
Qed.

(** C7, as amended.  When every identifier either is answered 404 or
    resolves to a book ([getBook] fulfils with a document that is not
    [null]), [loadListBooks] returns normally, sets the materialized
    view to exactly the books that resolved, in order, and notifies
    nothing.  When some resolution rejects, [loadListBooks] still
    returns normally, notifies exactly one error for the batch and
    leaves the materialized view as it was: so it is when the transport
    fails for some identifier, when the server answers some identifier
    with a failure status other than 404, and when [getBook] rejects
    for any other reason. *)
Theorem loadListBooks_resolution (s : State) :
  (forall outcomes,
      Forall (fun io => resolves (fst io) (snd io)) outcomes ->
      exists s' t,
        loadListBooks service toastFunctions (map fst outcomes) s = (Ok tt, s', t)
        /\ listBooks s' = found_books outcomes
        /\ notifications t = [])
  /\ (forall ids i e,
         In i ids -> fetch (book_request i) = Api.Rejected e ->
         exists s' t n,
           loadListBooks service toastFunctions ids s = (Ok tt, s', t)
           /\ notifications t = [n]
           /\ Notify.kind n = Notify.error
           /\ listBooks s' = listBooks s)
  /\ (forall ids i r,
         In i ids -> fetch (book_request i) = Api.Responded r ->
         Api.ok r = false -> Api.status r <> 404 ->
         exists s' t n,
           loadListBooks service toastFunctions ids s = (Ok tt, s', t)
           /\ notifications t = [n]
           /\ Notify.kind n = Notify.error
           /\ listBooks s' = listBooks s)
  /\ (forall ids i e,
         In i ids -> getBook_json i = Throw e ->
         exists s' t n,
           loadListBooks service toastFunctions ids s = (Ok tt, s', t)
           /\ notifications t = [n]
           /\ Notify.kind n = Notify.error
           /\ listBooks s' = listBooks s).
Proof.
  assert (Hany : forall ids i e,
             In i ids -> getBook_json i = Throw e ->
             exists s' t n,
               loadListBooks service toastFunctions ids s = (Ok tt, s', t)
               /\ notifications t = [n]
               /\ Notify.kind n = Notify.error
               /\ listBooks s' = listBooks s).
  { intros ids i e Hin Hf.
    assert (Hthrow : getBook service i = Throw e).
    { rewrite service_getBook, Hf. reflexivity. }
    destruct (Promise_all_rejects (getBook service) ids i e Hin Hthrow)
      as (e' & Hall).
    rewrite (loadListBooks_rejected service toastFunctions ids s e' Hall).
    do 3 eexists. split; [reflexivity |].
    rewrite notifications_of_calls. repeat split. }
  split; [| split; [| split; [| exact Hany]]].
  - intros outcomes H.
    destruct (resolved_promises outcomes H) as (books & Hall & Hnn).
    rewrite (loadListBooks_fulfilled service toastFunctions _ s books Hall).
    do 2 eexists. split; [reflexivity |]. split; [exact Hnn |].
    rewrite <- (app_nil_r (map _ _)). apply notifications_of_calls.
  - intros ids i e Hin Hf.
    exact (Hany ids i e Hin (getBook_rejected i e Hf)).
  - intros ids i r Hin Hf Hok H4.
    exact (Hany ids i _ Hin (getBook_failure_status i r Hf Hok H4)).
Qed.

End Resolution.

(** ** The view and the stored identifiers *)

(** Every book of the materialized view is one of the identifiers the
    selected list stores. *)
Definition view_within (s : State) : Prop :=
  forall selected,
    selectedList s = Some selected ->
    forall b, In b (listBooks s) -> In (book_id b) (bookIds selected).

(** The backend answers a gesture well when the book it returns for an
    identifier carries that identifier, a selection whose resolution
    fails is made with an empty view, and the list it returns for an
    update keeps every identifier it was asked to keep. *)
Definition answers_well (api : ApiService) (s : State) (g : gesture) : Prop :=
  match g with
  | ClickList l =>
      (forall i b, In i (bookIds l) -> getBook api i = Ok (Some b) -> book_id b = i)
      /\ ((forall i, In i (bookIds l) -> exists o, getBook api i = Ok o)
          \/ listBooks s = [])
  | ClickRemove bookId =>
      forall selected updatedList,
        selectedList s = Some selected ->
        updateReadingList api (id selected) (removal bookId selected) = Ok updatedList ->
        incl (remaining bookId selected) (bookIds updatedList)
  | _ => True
  end.

(** The states the page goes through when its operations do not
    overlap: one gesture after the other, the handler of each running
    to its end (its awaited request settled) before the next gesture,
    each against the backend of its moment.  Handlers in flight at the
    same time are outside this relation; [ReadingListsAsync] has them. *)
Inductive reachable_in_sequence : State -> Prop :=
| reach_initial : reachable_in_sequence initial
| reach_gesture api toastFunctions g s :
    reachable_in_sequence s -> answers_well api s g ->
    reachable_in_sequence (fst (run api toastFunctions g s)).

Lemma view_within_frame s s' :
  selectedList s' = selectedList s -> listBooks s' = listBooks s ->
  view_within s -> view_within s'.
Proof. unfold view_within. intros -> ->. auto. Qed.

Lemma view_within_unselected s : selectedList s = None -> view_within s.
Proof. unfold view_within. intros -> ? [=]. Qed.

Lemma without_In bookId books b :
  In b (without bookId books) -> In b books /\ book_id b <> bookId.
Proof.
  unfold without. rewrite filter_In. intros [Hin Hne]. split; [exact Hin |].
  apply negb_true_iff in Hne. apply String.eqb_neq. exact Hne.
Qed.

Lemma remaining_In bookId l i :
  In i (bookIds l) -> i <> bookId -> In i (remaining bookId l).
Proof.
  intros Hin Hne. unfold remaining. apply filter_In. split; [exact Hin |].
  apply negb_true_iff. apply String.eqb_neq. exact Hne.
Qed.

Lemma gesture_keeps_view_within api toastFunctions g s :
  view_within s -> answers_well api s g ->
  view_within (fst (run api toastFunctions g s)).
Proof.
  intros Hv Hw. unfold run.
  destruct g as [| v | v | | | | l | bookId | listId answer |]; cbn [handler].
  - (* Mount *)
    unfold loadLists, bindM, try_catch_finally, await, set; simpl.
    destruct (getReadingLists api); simpl; exact Hv.
  - exact Hv.
  - exact Hv.
  - exact Hv.
  - exact Hv.
  - (* SubmitCreate *)
    destruct (trim_is_empty (newListName s)) eqn:Hn.
    + rewrite (handleCreateList_blank api toastFunctions s s Hn). exact Hv.
    + destruct (createReadingList api (creation s)) as [nl | e] eqn:Hc.
      * rewrite (handleCreateList_success api toastFunctions s s nl Hn Hc). exact Hv.
      * rewrite (handleCreateList_failure api toastFunctions s s e Hn Hc). exact Hv.
  - (* ClickList *)
    destruct Hw as [Hfaith Hres].
    unfold handleListClick, bindM, set. simpl.
    destruct (Promise_all (map (getBook api) (bookIds l))) as [books | e] eqn:Hall.
    + rewrite (loadListBooks_fulfilled api toastFunctions _ _ books Hall). simpl.
      intros selected [= <-] b Hb. simpl in Hb.
      destruct (Promise_all_members (getBook api) _ books Hall b Hb) as (i & Hi & Hg).
      rewrite (Hfaith i b Hi Hg). exact Hi.
    + rewrite (loadListBooks_rejected api toastFunctions _ _ e Hall). simpl.
      destruct Hres as [Hres | Hempty].
      * destruct (Promise_all_fulfils (getBook api) _ Hres) as (bs & Hbs).
        rewrite Hbs in Hall. discriminate.
      * intros selected _ b Hb. simpl in Hb. rewrite Hempty in Hb. contradiction.
  - (* ClickRemove *)
    destruct (selectedList s) as [selected |] eqn:Hsel.
    + destruct (updateReadingList api (id selected) (removal bookId selected))
        as [ul | e] eqn:Hup.
      * rewrite (handleRemoveBook_success api toastFunctions s bookId s selected ul Hsel Hup).
        simpl. intros sel' [= <-] b Hb. simpl in Hb.
        apply without_In in Hb. destruct Hb as [Hin Hne].
        apply (Hw selected ul Hsel Hup).
        apply remaining_In; [| exact Hne].
        exact (Hv selected Hsel b Hin).
      * rewrite (handleRemoveBook_failure api toastFunctions s bookId s selected e Hsel Hup).
        exact Hv.
    + rewrite (handleRemoveBook_unselected api toastFunctions s bookId s Hsel).
      exact Hv.
  - (* ClickDelete *)
    destruct answer as [[|] |].
    + destruct (deleteReadingList api listId) as [[] | e] eqn:Hd.
      * rewrite (handleDeleteList_success api toastFunctions s s listId Hd).
        simpl. unfold after_deletion.
        destruct (selectedList s) as [selected |] eqn:Hsel.
        -- destruct (id selected =? listId)%string.
           ++ apply view_within_unselected. reflexivity.
           ++ apply (view_within_frame s); [simpl; auto | reflexivity | exact Hv].
        -- apply view_within_unselected. simpl. exact Hsel.
      * rewrite (handleDeleteList_failure api toastFunctions s s listId e Hd).
        exact Hv.
    + exact Hv.
    + exact Hv.
  - (* CloseBooks *)
    apply view_within_unselected. reflexivity.
Qed.

(** C9, as amended.  In every state the page reaches through
    operations that do not overlap (each runs to its end before the
    next one starts) and that the backend answers well (the book
    returned for an identifier carries that identifier, the list
    returned by a successful update keeps every identifier it was asked
    to keep, and a selection whose resolution fails is made with an
    empty view), every book of the materialized view is one of the
    identifiers the selected list stores. *)
Theorem reachable_view_within (s : State) :
  reachable_in_sequence s -> view_within s.
Proof.
  induction 1 as [| api toastFunctions g s _ IH Hw].
  - apply view_within_unselected. reflexivity.
  - apply gesture_keeps_view_within; assumption.
Qed.

(** ** Concrete runs *)

Definition book (i : string) : Book :=
  {| book_id := i; title := "Title of " ++ i; author := "Author";
     genre := "Fiction"; rating := 4; publishedYear := 1999 |}.

Definition summer : ReadingList :=
  {| id := "l1"; userId := "1"; name := "Summer Reading 2024";
     description := None; bookIds := ["b1"; "b2"; "b3"];
     createdAt := "2024-06-01T10:00:00Z"; updatedAt := "2024-06-01T10:00:00Z" |}.

Definition with_bookIds (ids : list string) (l : ReadingList) : ReadingList :=
  {| id := id l; userId := userId l; name := name l;
     description := description l; bookIds := ids;
     createdAt := createdAt l; updatedAt := updatedAt l |}.

(** A backend that holds [summer] and its three books, creates what it
    is asked to create, and answers an update with the list as
    [answer_update] makes it. *)
Definition backend (answer_update : Updates -> result ReadingList) : ApiService :=
  {| getReadingLists := Ok [summer];
     createReadingList := fun l =>
       Ok {| id := "l2"; userId := new_userId l; name := new_name l;
             description := Some (new_description l);
             bookIds := new_bookIds l;
             createdAt := "2024-06-02T10:00:00Z";
             updatedAt := "2024-06-02T10:00:00Z" |};
     getBook := fun i => Ok (Some (book i));
     updateReadingList := fun _ u => answer_update u;
     deleteReadingList := fun _ => Ok tt |}.

(** The update is stored as asked. *)
Definition stores (u : Updates) : result ReadingList :=
  Ok (with_bookIds (match upd_bookIds u with
                    | Some ids => ids
                    | None => bookIds summer
                    end) summer).

(** The update reaches a list from which another session has meanwhile
    removed [b3]: the list returned holds [b2] alone. *)
Definition stores_after_other_removal (u : Updates) : result ReadingList :=
  Ok (with_bookIds ["b2"] summer).

(** The network is down. *)
Definition unreachable (u : Updates) : result ReadingList :=
  Throw (TypeError "Failed to fetch").

Definition play (api : ApiService) (gs : list gesture) (s : State) : State :=
  fold_left (fun s g => fst (run api true g s)) gs s.

(** [summer] selected, its three books in view. *)
Definition summer_open : State :=
  play (backend stores) [Mount; ClickList summer] initial.

Lemma remove_without_selection_is_noop_witness :
  run (backend stores) true (ClickRemove "b1") initial = (initial, []).
Proof.
  apply (remove_without_selection_is_noop (backend stores) true initial "b1").
  reflexivity.
Defined.

Lemma failed_removal_keeps_state_witness :
  let s' := fst (run (backend unreachable) true (ClickRemove "b1") summer_open) in
  let t := snd (run (backend unreachable) true (ClickRemove "b1") summer_open) in
  listBooks s' = [book "b1"; book "b2"; book "b3"]
  /\ selectedList s' = Some summer
  /\ lists s' = [summer]
  /\ exists n, notifications t = [n]
               /\ Notify.kind n = Notify.error
               /\ Notify.message n = "Failed to fetch".
Proof.
  exact (failed_removal_keeps_state (backend unreachable) true summer_open "b1"
           summer (TypeError "Failed to fetch") eq_refl eq_refl).
Defined.

(** C3 as stated fails: when [handleRemoveBook] issues its request for
    [b1], the materialized view still shows [b1]. *)
Lemma removal_is_not_optimistic :
  exists c at_request,
    requests (snd (run (backend stores) true (ClickRemove "b1") summer_open))
      = [(c, at_request)]
    /\ In "b1" (map book_id (listBooks at_request)).
Proof. do 2 eexists. split; [reflexivity |]. left. reflexivity. Qed.

Lemma removal_follows_confirmation_witness :
  let s' := fst (run (backend stores) true (ClickRemove "b1") summer_open) in
  let t := snd (run (backend stores) true (ClickRemove "b1") summer_open) in
  (exists at_request,
      requests t = [(UpdateReadingList "l1" (removal "b1" summer), at_request)]
      /\ listBooks at_request = [book "b1"; book "b2"; book "b3"])
  /\ listBooks s' = [book "b2"; book "b3"].
Proof.
  destruct (removal_follows_confirmation (backend stores) true summer_open "b1"
              summer eq_refl) as (Hreq & Hok & _).
  split; [exact Hreq | exact (Hok _ eq_refl)].
Defined.

(** C8 as stated fails: a declined confirmation ends [handleDeleteList]
    with no notification at all. *)
Lemma declined_deletion_notifies_nothing :
  notifications (snd (run (backend stores) true (ClickDelete "l1" (Some false))
                        summer_open)) = []
  /\ alerts (snd (run (backend stores) true (ClickDelete "l1" (Some false))
                    summer_open)) = [].
Proof. split; reflexivity. Qed.

(** A name that is white space only and not ASCII: a no-break space
    (U+00A0), a space and an ideographic space (U+3000), in UTF-8. *)
Definition blank_name : string :=
  String (ascii_of_nat 194) (String (ascii_of_nat 160)
    (String (ascii_of_nat 32)
       (String (ascii_of_nat 227) (String (ascii_of_nat 128)
          (String (ascii_of_nat 128) EmptyString))))).

Lemma mutation_notifications_witness :
  (exists n, notifications
               (snd (run (backend stores) true SubmitCreate
                       (with_newListName "Summer Reading 2024" initial))) = [n]
             /\ Notify.kind n = Notify.success)
  /\ (exists n, notifications
                  (snd (run (backend unreachable) true (ClickRemove "b1") summer_open)) = [n]
                /\ Notify.kind n = Notify.error)
  /\ run (backend stores) true (ClickDelete "l1" (Some false)) summer_open
     = (summer_open, [Asked delete_prompt])
  /\ run (backend stores) true SubmitCreate (with_newListName blank_name initial)
     = (with_newListName blank_name initial, [Alerted "Please enter a list name"]).
Proof.
  split; [| split; [| split]].
  - destruct (mutation_notifications (backend stores) true
                (with_newListName "Summer Reading 2024" initial)) as (H & _).
    exact (H eq_refl).
  - destruct (mutation_notifications (backend unreachable) true summer_open)
      as (_ & _ & H & _).
    exact (H "b1" summer eq_refl).
  - destruct (mutation_notifications (backend stores) true summer_open)
      as (_ & _ & _ & _ & H).
    apply H. discriminate.
  - destruct (mutation_notifications (backend stores) true
                (with_newListName blank_name initial)) as (_ & H & _).
    exact (H eq_refl).
Defined.

(** A second list, holding one book that [summer] does not store. *)
Definition autumn : ReadingList :=
  {| id := "l3"; userId := "1"; name := "Autumn"; description := None;
     bookIds := ["b4"];
     createdAt := "2024-09-01T10:00:00Z"; updatedAt := "2024-09-01T10:00:00Z" |}.

(** What [await Promise.all(...)] settles to for the books of a list. *)
Definition settled_books (api : ApiService) (l : ReadingList)
  : result (list (option Book)) :=
  Promise_all (map (getBook api) (bookIds l)).

(** [summer] is selected, the modal is closed, [autumn] is selected, and
    the books of [autumn] arrive before the books of [summer]. *)
Definition late_summer : State :=
  let api := backend stores in
  let s1 := ReadingListsAsync.state_after
              (ReadingListsAsync.handleListClick_start api summer) initial in
  let s2 := ReadingListsAsync.state_after closeBooksModal s1 in
  let s3 := ReadingListsAsync.state_after
              (ReadingListsAsync.handleListClick_start api autumn) s2 in
  let s4 := ReadingListsAsync.state_after
              (ReadingListsAsync.loadListBooks_resume true
                 (settled_books api autumn)) s3 in
  ReadingListsAsync.state_after
    (ReadingListsAsync.loadListBooks_resume true (settled_books api summer)) s4.

(** C9 as stated fails, in two ways.  First: [summer] is selected with
    its three books in view, [b1] is removed, and the server returns
    the list holding [b2] alone; the page adopts that list and filters
    its view locally, so the view shows [b3], which the selected list
    does not store.  Second, with a backend that stores every update as
    asked: two selections overlap and the books of the first arrive
    last, which leaves [autumn] selected with the books of [summer] in
    view. *)
Lemma view_can_leave_the_selected_list :
  (let s := play (backend stores_after_other_removal)
              [Mount; ClickList summer; ClickRemove "b1"] initial in
   view_within (play (backend stores_after_other_removal)
                  [Mount; ClickList summer] initial)
   /\ selectedList s = Some (with_bookIds ["b2"] summer)
   /\ listBooks s = [book "b2"; book "b3"]
   /\ ~ view_within s)
  /\ (selectedList late_summer = Some autumn
      /\ listBooks late_summer = [book "b1"; book "b2"; book "b3"]
      /\ ~ view_within late_summer).
Proof.
  split.
  - cbv zeta. split; [| split; [reflexivity | split; [reflexivity |]]].
    + intros selected [= <-] b Hb. simpl in Hb.
      destruct Hb as [<- | [<- | [<- | []]]]; simpl; auto.
    + intros H.
      specialize (H (with_bookIds ["b2"] summer) eq_refl (book "b3")).
      simpl in H. destruct H as [H | []]; [right; left; reflexivity | discriminate].
  - split; [reflexivity | split; [reflexivity |]].
    intros H.
    specialize (H autumn eq_refl (book "b1") (or_introl eq_refl)).
    simpl in H. destruct H as [H | []]. discriminate.
Qed.

Lemma reachable_view_within_witness :
  view_within (play (backend stores)
                 [Mount; ClickList summer; ClickRemove "b1"] initial).
Proof.
  apply reachable_view_within.
  apply (reach_gesture (backend stores) true (ClickRemove "b1")).
  - apply (reach_gesture (backend stores) true (ClickList summer)).
    + apply (reach_gesture (backend stores) true Mount); [apply reach_initial | exact I].
    + split.
      * intros i b _ [= <-]. reflexivity.
      * left. intros i _. eexists. reflexivity.
  - intros selected updatedList Hsel Hup.
    injection Hsel as <-. injection Hup as <-. apply incl_refl.
Defined.

(** A catalog behind the API client: [b1] is served as a direct
    payload, [b3] inside an envelope, the transport fails for [b9], and
    every other identifier is answered 404. *)
Definition catalog (q : Api.Request) : Api.fetch_outcome :=
  let url := Api.req_url q in
  if (url =? ApiFacts.base ++ "/books/b1")%string then
    Api.Responded
      {| Api.status := 200;
         Api.text := JsonText.qq "{'id':'b1','title':'Dune','rating':5}" |}
  else if (url =? ApiFacts.base ++ "/books/b3")%string then
    Api.Responded
      {| Api.status := 200;
         Api.text := JsonText.qq
           "{'statusCode':200,'body':'{\'id\':\'b3\',\'title\':\'Emma\'}'}" |}
  else if (url =? ApiFacts.base ++ "/books/b9")%string then
    Api.Rejected (TypeError "Failed to fetch")
  else
    Api.Responded
      {| Api.status := 404;
         Api.text := JsonText.qq "{'error':'Book not found'}" |}.

Definition catalog_service : ApiService :=
  Backend.service ApiFacts.base None catalog JsonText.JSON_parse
    JsonText.syntax_message Backend.book_of_json Backend.list_of_json
    Backend.lists_of_json.

Definition dune : json :=
  JObj [("id", JStr "b1"); ("title", JStr "Dune"); ("rating", JNum 5)].
Definition emma : json :=
  JObj [("id", JStr "b3"); ("title", JStr "Emma")].

Lemma loadListBooks_resolution_witness :
  (exists s' t,
      loadListBooks catalog_service true ["b1"; "b2"; "b3"] initial = (Ok tt, s', t)
      /\ listBooks s' = [Backend.book_of_json dune; Backend.book_of_json emma]
      /\ notifications t = [])
  /\ (exists s' t n,
         loadListBooks catalog_service true ["b1"; "b9"] initial = (Ok tt, s', t)
         /\ notifications t = [n]
         /\ Notify.kind n = Notify.error
         /\ listBooks s' = listBooks initial).
Proof.
  destruct (loadListBooks_resolution ApiFacts.base None catalog
              JsonText.JSON_parse JsonText.syntax_message
              Backend.book_of_json Backend.list_of_json Backend.lists_of_json
              true initial) as (Hfound & Hfail & _).
  split.
  - apply (Hfound [("b1", Some dune); ("b2", None); ("b3", Some emma)]).
    apply Forall_cons; [| apply Forall_cons; [| apply Forall_cons; [| apply Forall_nil]]].
    + apply resolves_found; [vm_compute; reflexivity | discriminate].
    + eapply resolves_not_found; vm_compute; reflexivity.
    + apply resolves_found; [vm_compute; reflexivity | discriminate].
  - apply (Hfail ["b1"; "b9"] "b9" (TypeError "Failed to fetch")).
    + right. left. reflexivity.
    + vm_compute. reflexivity.
Defined.

(** The same catalog with a fault on the server's side: [b7] is
    answered with status 500. *)
Definition catalog_with_fault (q : Api.Request) : Api.fetch_outcome :=
  if (Api.req_url q =? ApiFacts.base ++ "/books/b7")%string then
    Api.Responded
      {| Api.status := 500;
         Api.text := JsonText.qq "{'error':'Internal server error'}" |}
  else catalog q.

Definition faulty_service : ApiService :=
  Backend.service ApiFacts.base None catalog_with_fault JsonText.JSON_parse
    JsonText.syntax_message Backend.book_of_json Backend.list_of_json
    Backend.lists_of_json.

(** C7 as stated fails: of the identifiers [b1], [b2] and [b7] the
    second is answered 404 and no request fails in transport, every one
    is answered; yet the view is not set to the book that resolved:
    the 500 answer for [b7] makes the whole batch fail with one error
    notification, and the view stays as it was. *)
Lemma server_error_fails_the_batch :
  (exists r1 r2 r7,
      catalog_with_fault (book_request ApiFacts.base "b1") = Api.Responded r1
      /\ catalog_with_fault (book_request ApiFacts.base "b2") = Api.Responded r2
      /\ catalog_with_fault (book_request ApiFacts.base "b7") = Api.Responded r7
      /\ Api.status r1 = 200 /\ Api.status r2 = 404 /\ Api.status r7 = 500)
  /\ Api.getBook ApiFacts.base catalog_with_fault JsonText.JSON_parse
       JsonText.syntax_message "b1" = Ok dune
  /\ exists s' t n,
       loadListBooks faulty_service true ["b1"; "b2"; "b7"] initial
         = (Ok tt, s', t)
       /\ notifications t = [n]
       /\ Notify.kind n = Notify.error
       /\ Notify.message n = "Failed to fetch book"
       /\ listBooks s' = []
       /\ listBooks s' <> [Backend.book_of_json dune].
Proof.
  split; [| split].
  - do 3 eexists. repeat split; vm_compute; reflexivity.
  - vm_compute. reflexivity.
  - do 3 eexists. split; [vm_compute; reflexivity |].
    split; [reflexivity |]. repeat split. discriminate.
Qed.

End ReadingListsFacts.

(* ===================================================================== *)
(** * Properties of the confirmation flow *)
(* ===================================================================== *)

Module ConfirmationFacts.
Import Confirmation.
Local Open Scope nat_scope.
Local Open Scope list_scope.

Lemma resolutions_app p l1 l2 :
  resolutions p (l1 ++ l2) = resolutions p l1 ++ resolutions p l2.
Proof.
  induction l1 as [| [q v] r IH]; simpl; [reflexivity |].
  destruct (Nat.eqb q p); simpl; rewrite IH; reflexivity.
Qed.

(** Every resolver that was ever called belongs to a promise that
    [confirm] created. *)
Definition log_bounded (s : Provider) : Prop :=
  Forall (fun pv => fst pv < created s) (resolved s).

(** The resolver in the dialog cell belongs to a created promise. *)
Definition dialog_bounded (s : Provider) : Prop :=
  forall d, dialog s = Some d -> resolve d < created s.

Lemma step_bounded s a :
  log_bounded s /\ dialog_bounded s ->
  log_bounded (step s a) /\ dialog_bounded (step s a).
Proof.
  unfold log_bounded, dialog_bounded. intros [Hl Hd].
  destruct a as [o | |]; simpl.
  - split.
    + eapply Forall_impl; [| exact Hl]. simpl. intros; lia.
    + intros d [= <-]. simpl. lia.
  - unfold handleConfirm. destruct (dialog s) as [d |] eqn:E; simpl.
    + split; [| discriminate].
      apply Forall_app. split; [exact Hl |].
      constructor; [simpl; auto | constructor].
    + split; [exact Hl | rewrite E; discriminate].
  - unfold handleCancel. destruct (dialog s) as [d |] eqn:E; simpl.
    + split; [| discriminate].
      apply Forall_app. split; [exact Hl |].
      constructor; [simpl; auto | constructor].
    + split; [exact Hl | rewrite E; discriminate].
Qed.

Lemma run_bounded acts s :
  log_bounded s /\ dialog_bounded s ->
  log_bounded (run acts s) /\ dialog_bounded (run acts s).
Proof.
  revert s. induction acts as [| a r IH]; intros s H; simpl; [exact H |].
  apply IH. apply step_bounded. exact H.
Qed.

Lemma initial_bounded : log_bounded initial /\ dialog_bounded initial.
Proof. split; [constructor | intros d [=]]. Qed.

Lemma fresh_promise_pending s :
  log_bounded s -> resolutions (created s) (resolved s) = [].
Proof.
  unfold log_bounded. induction (resolved s) as [| [q v] r IH]; simpl;
    [reflexivity |].
  intros H. inversion H as [| x l Hq Hr]; subst. simpl in Hq.
  destruct (Nat.eqb_spec q (created s)); [lia | auto].
Qed.

(** A promise is out of reach when it was created and no resolver of it
    is in the dialog cell. *)
Definition out_of_reach (p : promise) (s : Provider) : Prop :=
  p < created s /\ forall d, dialog s = Some d -> resolve d <> p.

Lemma step_out_of_reach p s a :
  out_of_reach p s ->
  out_of_reach p (step s a)
  /\ resolutions p (resolved (step s a)) = resolutions p (resolved s).
Proof.
  unfold out_of_reach. intros [Hp Hd].
  destruct a as [o | |]; simpl.
  - split; [| reflexivity]. split; [lia |].
    intros d [= <-]. simpl. lia.
  - unfold handleConfirm. destruct (dialog s) as [d |] eqn:E; simpl.
    + split; [split; [exact Hp | discriminate] |].
      rewrite resolutions_app. simpl.
      destruct (Nat.eqb_spec (resolve d) p) as [Heq | _].
      * exfalso. exact (Hd d eq_refl Heq).
      * apply app_nil_r.
    + split; [| reflexivity]. split; [exact Hp |].
      rewrite E. discriminate.
  - unfold handleCancel. destruct (dialog s) as [d |] eqn:E; simpl.
    + split; [split; [exact Hp | discriminate] |].
      rewrite resolutions_app. simpl.
      destruct (Nat.eqb_spec (resolve d) p) as [Heq | _].
      * exfalso. exact (Hd d eq_refl Heq).
      * apply app_nil_r.
    + split; [| reflexivity]. split; [exact Hp |].
      rewrite E. discriminate.
Qed.

Lemma run_out_of_reach p acts s :
  out_of_reach p s ->
  resolutions p (resolved (run acts s)) = resolutions p (resolved s).
Proof.
  revert s. induction acts as [| a r IH]; intros s H; simpl; [reflexivity |].
  destruct (step_out_of_reach p s a H) as [H' Heq].
  rewrite (IH _ H'). exact Heq.
Qed.

(** C6, as amended.  A request made in any state the provider reaches
    is pending until the user acts.  If the next thing to happen is the
    accept action, its promise gets exactly one resolution, [true]; if
    it is the cancel action, exactly one resolution, [false]; and
    nothing that happens later adds another.  If instead a second
    request is made while the first is pending, the first promise is
    abandoned: whatever happens later, it gets no resolution. *)
Theorem confirm_resolution (before : list action) (o : ConfirmationOptions) :
  let s := run before initial in
  let p := fst (confirm o s) in
  let asked := snd (confirm o s) in
  resolutions p (resolved asked) = []
  /\ (forall later,
         resolutions p (resolved (run later (handleConfirm asked))) = [true])
  /\ (forall later,
         resolutions p (resolved (run later (handleCancel asked))) = [false])
  /\ (forall o2 later,
         resolutions p (resolved (run later (snd (confirm o2 asked)))) = []).
Proof.
  intros s p asked.
  destruct (run_bounded before initial initial_bounded) as [Hl _].
  fold s in Hl.
  assert (Hp : resolutions (created s) (resolved s) = [])
    by (apply (fresh_promise_pending s Hl)).
  subst p asked. cbn [confirm fst snd resolved].
  split; [exact Hp |].
  split; [| split].
  - intros later. rewrite run_out_of_reach.
    + unfold handleConfirm. cbn. rewrite resolutions_app, Hp. cbn.
      rewrite Nat.eqb_refl. reflexivity.
    + split; cbn; [lia | discriminate].
  - intros later. rewrite run_out_of_reach.
    + unfold handleCancel. cbn. rewrite resolutions_app, Hp. cbn.
      rewrite Nat.eqb_refl. reflexivity.
    + split; cbn; [lia | discriminate].
  - intros o2 later. rewrite run_out_of_reach.
    + exact Hp.
    + split; cbn; [lia |]. intros d [= <-]. cbn. lia.
Qed.

(** ** Concrete runs *)

Definition delete_list : ConfirmationOptions :=
  {| title := "Delete Reading List"; message := "Are you sure?";
     confirmText := Some "Delete"; cancelText := Some "Cancel";
     type := Some danger |}.

Definition delete_book : ConfirmationOptions :=
  {| title := "Delete Book"; message := "Are you sure?";
     confirmText := None; cancelText := None; type := None |}.

(** C6 as stated fails: a second request made while the first is
    pending takes the dialog cell; the accept action then resolves the
    second promise, and the first promise has no resolution, then or
    ever after. *)
Lemma replaced_request_is_never_resolved :
  let s := run [Confirm delete_list; Confirm delete_book; Accept] initial in
  fst (confirm delete_list initial) = 0
  /\ resolutions 1 (resolved s) = [true]
  /\ resolutions 0 (resolved s) = []
  /\ forall later, resolutions 0 (resolved (run later s)) = [].
Proof.
  cbv zeta. repeat split.
  intros later. rewrite run_out_of_reach; [reflexivity |].
  split; simpl; [lia | discriminate].
Qed.

End ConfirmationFacts.

(* ===================================================================== *)
(** * Further properties of the API client *)
(* ===================================================================== *)

Module ApiMoreFacts.
Import Js Api ApiAdmin.
Import ApiFacts(answers, envelope).

(** The call rejects. *)
Definition rejects {A} (r : result A) : Prop := exists e, r = Throw e.

(** A network on which every request fails in transport. *)
Definition down (e : js_error) : Request -> fetch_outcome :=
  fun _ => Rejected e.

Lemma throw_error_or_rejects {A} errorData fallback :
  rejects (@throw_error_or A errorData fallback).
Proof.
  unfold throw_error_or, rejects.
  destruct (get_prop errorData "error") as [v | e]; simpl; [| eauto].
  destruct (truthy v); [destruct v |]; eauto.
Qed.

Lemma ok_excludes r c :
  ok r = true -> c < 200 \/ 299 < c -> (status r =? c) = false.
Proof.
  unfold ok. rewrite andb_true_iff, !Z.leb_le. intros [H1 H2] Hc.
  apply Z.eqb_neq. lia.
Qed.

Section Endpoints.

Variable API_BASE_URL : string.
Variable session_token : option string.
Variable JSON_parse : string -> option json.
Variable syntax_message : string -> string.

Local Abbreviation on net f := (f API_BASE_URL session_token net JSON_parse).

(** X1.  A transport failure reaches the caller unchanged from every
    endpoint.  The three endpoints that check their identifier first
    never reach the transport with an empty one: they reject with
    their own message whatever the network does. *)
Theorem transport_failure_propagates
  (e : js_error) (id query : string) (doc : json)
  (net : Request -> fetch_outcome) :
  id <> EmptyString ->
  getBooks API_BASE_URL (down e) JSON_parse syntax_message = Throw e
  /\ getBook API_BASE_URL (down e) JSON_parse syntax_message id = Throw e
  /\ createBook API_BASE_URL session_token (down e) JSON_parse doc = Throw e
  /\ updateBook API_BASE_URL session_token (down e) JSON_parse id doc = Throw e
  /\ deleteBook API_BASE_URL session_token (down e) JSON_parse id = Throw e
  /\ getRecommendations API_BASE_URL session_token (down e) JSON_parse
       syntax_message query = Throw e
  /\ getReadingLists API_BASE_URL session_token (down e) JSON_parse
       syntax_message = Throw e
  /\ createReadingList API_BASE_URL session_token (down e) JSON_parse
       syntax_message doc = Throw e
  /\ updateReadingList API_BASE_URL session_token (down e) JSON_parse
       syntax_message id doc = Throw e
  /\ deleteReadingList API_BASE_URL session_token (down e) JSON_parse id = Throw e
  /\ updateBook API_BASE_URL session_token net JSON_parse EmptyString doc
     = Throw (Error "Book ID is required")
  /\ deleteBook API_BASE_URL session_token net JSON_parse EmptyString
     = Throw (Error "Book ID is required")
  /\ deleteReadingList API_BASE_URL session_token net JSON_parse EmptyString
     = Throw (Error "Reading list ID is required").
Proof.
  intros Hid.
  unfold updateBook, deleteBook, deleteReadingList.
  destruct (String.eqb_spec id EmptyString) as [E | _]; [contradiction |].
  repeat split.
Qed.

(** X2.  A status outside 2xx never yields a value: whatever the body
    carries and however it decodes, every endpoint rejects; the one
    exception is [getBook] at 404, which fulfils with [null]. *)
Theorem failure_status_never_returns
  (r : Response) (id query : string) (doc : json) :
  ok r = false ->
  rejects (getBooks API_BASE_URL (answers r) JSON_parse syntax_message)
  /\ (status r <> 404 ->
      rejects (getBook API_BASE_URL (answers r) JSON_parse syntax_message id))
  /\ (status r = 404 ->
      getBook API_BASE_URL (answers r) JSON_parse syntax_message id = Ok JNull)
  /\ rejects (createBook API_BASE_URL session_token (answers r) JSON_parse doc)
  /\ rejects (updateBook API_BASE_URL session_token (answers r) JSON_parse id doc)
  /\ rejects (deleteBook API_BASE_URL session_token (answers r) JSON_parse id)
  /\ rejects (getRecommendations API_BASE_URL session_token (answers r)
                JSON_parse syntax_message query)
  /\ rejects (getReadingLists API_BASE_URL session_token (answers r)
                JSON_parse syntax_message)
  /\ rejects (createReadingList API_BASE_URL session_token (answers r)
                JSON_parse syntax_message doc)
  /\ rejects (updateReadingList API_BASE_URL session_token (answers r)
                JSON_parse syntax_message id doc)
  /\ rejects (deleteReadingList API_BASE_URL session_token (answers r)
                JSON_parse id).
Proof.
  intros Hok.
  unfold getBooks, getBook, createBook, updateBook, deleteBook,
    getRecommendations, getReadingLists, createReadingList,
    updateReadingList, deleteReadingList, await_fetch, answers.
  simpl. rewrite Hok. simpl.
  repeat split; try (unfold rejects; eauto; fail).
  - intros H4. destruct (Z.eqb_spec (status r) 404); [contradiction |].
    unfold rejects; eauto.
  - intros H4. rewrite H4. reflexivity.
  - destruct (decode_payload JSON_parse r) as [p ed].
    repeat (match goal with
            | |- context [if ?b then _ else _] => destruct b
            end; try apply throw_error_or_rejects).
  - destruct (id =? "")%string; [unfold rejects; eauto |].
    simpl. destruct (decode_payload JSON_parse r) as [p ed].
    repeat (match goal with
            | |- context [if ?b then _ else _] => destruct b
            end; try apply throw_error_or_rejects).
  - destruct (id =? "")%string; [unfold rejects; eauto |]. simpl.
    repeat (match goal with
            | |- context [if ?b then _ else _] => destruct b
            end; try apply throw_error_or_rejects).
  - repeat (match goal with
            | |- context [if ?b then _ else _] => destruct b
            end; try (unfold rejects; eauto; fail)).
    unfold bind. destruct (try_catch _ _); [apply throw_error_or_rejects |].
    unfold rejects; eauto.
  - destruct (id =? "")%string; [unfold rejects; eauto |]. simpl.
    repeat (match goal with
            | |- context [if ?b then _ else _] => destruct b
            end; try apply throw_error_or_rejects).
Qed.

(** X3.  On a 2xx status the two delete endpoints return normally and
    never look at the body for a verdict: even a body that carries an
    [error] member, or no JSON at all, is a success. *)
Theorem delete_succeeds_on_2xx (r : Response) (id : string) :
  id <> EmptyString -> ok r = true ->
  deleteReadingList API_BASE_URL session_token (answers r) JSON_parse id = Ok tt
  /\ deleteBook API_BASE_URL session_token (answers r) JSON_parse id = Ok tt.
Proof.
  intros Hid Hok.
  unfold deleteReadingList, deleteBook, await_fetch, answers.
  destruct (String.eqb_spec id EmptyString) as [E | _]; [contradiction |].
  simpl.
  rewrite !(ok_excludes r _ Hok) by lia. rewrite Hok. split; reflexivity.
Qed.

(** X4.  The list endpoints on a direct payload: [getBooks] and
    [getReadingLists] return the payload when it is an array and the
    empty array for every other payload that is not [null] and has no
    truthy [body] (an object, a number, a string); on the payload
    [null] both reject with a [TypeError]. *)
Theorem list_endpoints_direct_payload (r : Response) (data : json) :
  ok r = true -> JSON_parse (text r) = Some data ->
  (forall ms, data = JObj ms -> truthy (lookup_member "body" ms) = false) ->
  (forall items, data = JArr items ->
     getBooks API_BASE_URL (answers r) JSON_parse syntax_message = Ok data
     /\ getReadingLists API_BASE_URL session_token (answers r) JSON_parse
          syntax_message = Ok data)
  /\ (data <> JNull -> isArray data = false ->
      getBooks API_BASE_URL (answers r) JSON_parse syntax_message = Ok (JArr [])
      /\ getReadingLists API_BASE_URL session_token (answers r) JSON_parse
           syntax_message = Ok (JArr []))
  /\ (data = JNull ->
      exists m,
        getBooks API_BASE_URL (answers r) JSON_parse syntax_message
          = Throw (TypeError m)
        /\ getReadingLists API_BASE_URL session_token (answers r) JSON_parse
             syntax_message = Throw (TypeError m)).
Proof.
  intros Hok Hp Hbody.
  unfold getBooks, getReadingLists, unwrap_body, await_fetch, answers,
    response_json, parse.
  simpl. rewrite Hok, Hp. simpl.
  split; [| split].
  - intros items ->. simpl. split; reflexivity.
  - intros Hnull Harr.
    destruct data; try (simpl; split; reflexivity).
    + contradiction Hnull. reflexivity.
    + discriminate.
    + simpl. rewrite (Hbody members eq_refl).
      unfold array_or_empty. simpl. split; reflexivity.
  - intros ->. simpl. eexists. split; reflexivity.
Qed.

Section WithEmpty.

Hypothesis JSON_parse_empty : JSON_parse EmptyString = None.

(** X5.  The two response shapes are interchangeable for the endpoints
    that return one document: an object sent as the direct payload and
    the same object sent inside an envelope both come back as that
    object from [getBook], [createBook], [updateBook],
    [createReadingList] and [updateReadingList]. *)
Theorem response_shapes_agree
  (direct wrapped : Response) (inner id : string) (doc : json)
  (ms : list (string * json)) :
  id <> EmptyString ->
  ok direct = true -> ok wrapped = true ->
  JSON_parse (text direct) = Some (JObj ms) ->
  lookup_member "body" ms = None ->
  envelope JSON_parse wrapped inner -> JSON_parse inner = Some (JObj ms) ->
  forall r, r = direct \/ r = wrapped ->
    getBook API_BASE_URL (answers r) JSON_parse syntax_message id = Ok (JObj ms)
    /\ createBook API_BASE_URL session_token (answers r) JSON_parse doc
       = Ok (JObj ms)
    /\ updateBook API_BASE_URL session_token (answers r) JSON_parse id doc
       = Ok (JObj ms)
    /\ createReadingList API_BASE_URL session_token (answers r) JSON_parse
         syntax_message doc = Ok (JObj ms)
    /\ updateReadingList API_BASE_URL session_token (answers r) JSON_parse
         syntax_message id doc = Ok (JObj ms).
Proof.
  intros Hid Hok1 Hok2 Hp Hnobody (ems & Hep & Heb & Hne) Hin r Hr.
  assert (Hok : ok r = true) by (destruct Hr; subst; assumption).
  assert (Hpayload : decode_payload JSON_parse r = (JObj ms, JObj ms)).
  { unfold decode_payload. destruct Hr; subst r.
    - rewrite (ApiFacts.parsed_nonempty JSON_parse JSON_parse_empty _ _ Hp), Hp.
      cbn [truthy_json typeof_object has_prop andb]. rewrite Hnobody. reflexivity.
    - rewrite (ApiFacts.parsed_nonempty JSON_parse JSON_parse_empty _ _ Hep), Hep.
      cbn [truthy_json typeof_object has_prop get_prop andb].
      rewrite Heb, Hin. reflexivity. }
  assert (Hunwrap :
            (data <- response_json JSON_parse syntax_message r ;;
             unwrap_body JSON_parse syntax_message data (fun d => d))
            = Ok (JObj ms)).
  { unfold response_json, parse, unwrap_body. destruct Hr; subst r.
    - rewrite Hp. cbn [bind get_prop]. rewrite Hnobody. reflexivity.
    - rewrite Hep. cbn [bind get_prop]. rewrite Heb.
      rewrite (ApiFacts.truthy_nonempty _ Hne). cbn [to_string].
      unfold parse. rewrite Hin. reflexivity. }
  unfold getBook, createBook, updateBook, createReadingList,
    updateReadingList, await_fetch, answers.
  destruct (String.eqb_spec id EmptyString) as [E | _]; [contradiction |].
  cbn [bind]. rewrite Hpayload.
  rewrite !(ok_excludes r _ Hok) by lia. rewrite Hok. cbn [negb].
  repeat split; exact Hunwrap.
Qed.

End WithEmpty.
End Endpoints.

(** ** Concrete runs *)

Import JsonText.

Lemma transport_failure_propagates_witness :
  getBook ApiFacts.base (down (TypeError "Failed to fetch"))
    JsonText.JSON_parse syntax_message "b1"
  = Throw (TypeError "Failed to fetch")
  /\ deleteReadingList ApiFacts.base None (down (TypeError "Failed to fetch"))
       JsonText.JSON_parse "l1"
     = Throw (TypeError "Failed to fetch").
Proof.
  assert (Hid : "l1" <> EmptyString) by discriminate.
  pose proof (transport_failure_propagates ApiFacts.base None
                JsonText.JSON_parse syntax_message
                (TypeError "Failed to fetch") "l1" "dune" (JObj [])
                (down (TypeError "Failed to fetch")) Hid) as H.
  split; [| apply H].
  pose proof (transport_failure_propagates ApiFacts.base None
                JsonText.JSON_parse syntax_message
                (TypeError "Failed to fetch") "b1" "dune" (JObj [])
                (down (TypeError "Failed to fetch"))) as H1.
  apply H1. discriminate.
Defined.

Definition teapot_with_payload : Response :=
  {| status := 418; text := qq "{'id':'b1','title':'Dune'}" |}.

Lemma failure_status_never_returns_witness :
  rejects (createBook ApiFacts.base None (answers teapot_with_payload)
             JsonText.JSON_parse (JObj []))
  /\ rejects (getReadingLists ApiFacts.base None (answers teapot_with_payload)
                JsonText.JSON_parse syntax_message).
Proof.
  pose proof (failure_status_never_returns ApiFacts.base None
                JsonText.JSON_parse syntax_message teapot_with_payload
                "b1" "dune" (JObj []) eq_refl) as H.
  split; apply H.
Defined.

Definition ok_with_error_body : Response :=
  {| status := 200; text := qq "{'error':'Reading list not found'}" |}.

Lemma delete_succeeds_on_2xx_witness :
  deleteReadingList ApiFacts.base None (answers ok_with_error_body)
    JsonText.JSON_parse "l1" = Ok tt
  /\ deleteBook ApiFacts.base None (answers ok_with_error_body)
       JsonText.JSON_parse "b1" = Ok tt.
Proof.
  split.
  - apply (delete_succeeds_on_2xx ApiFacts.base None JsonText.JSON_parse
             ok_with_error_body "l1"); [discriminate | reflexivity].
  - apply (delete_succeeds_on_2xx ApiFacts.base None JsonText.JSON_parse
             ok_with_error_body "b1"); [discriminate | reflexivity].
Defined.

Definition scalar_payload : Response := {| status := 200; text := "42" |}.

Lemma list_endpoints_direct_payload_witness :
  getBooks ApiFacts.base (answers scalar_payload) JsonText.JSON_parse
    syntax_message = Ok (JArr [])
  /\ getReadingLists ApiFacts.base None (answers scalar_payload)
       JsonText.JSON_parse syntax_message = Ok (JArr []).
Proof.
  assert (Hp : JsonText.JSON_parse (text scalar_payload) = Some (JNum 42))
    by (vm_compute; reflexivity).
  assert (Hb : forall ms, JNum 42 = JObj ms ->
                          truthy (lookup_member "body" ms) = false)
    by (intros ms [=]).
  destruct (list_endpoints_direct_payload ApiFacts.base None
              JsonText.JSON_parse syntax_message scalar_payload (JNum 42)
              eq_refl Hp Hb) as (_ & H & _).
  apply H; [discriminate | reflexivity].
Defined.

Definition dune_direct : Response :=
  {| status := 200; text := qq "{'id':'b1','title':'Dune'}" |}.

Definition dune_wrapped : Response :=
  {| status := 201;
     text := qq "{'statusCode':201,'body':'{\'id\':\'b1\',\'title\':\'Dune\'}'}" |}.

Definition dune_members : list (string * json) :=
  [("id", JStr "b1"); ("title", JStr "Dune")].

Lemma response_shapes_agree_witness :
  getBook ApiFacts.base (answers dune_direct) JsonText.JSON_parse
    syntax_message "b1" = Ok (JObj dune_members)
  /\ getBook ApiFacts.base (answers dune_wrapped) JsonText.JSON_parse
       syntax_message "b1" = Ok (JObj dune_members)
  /\ createBook ApiFacts.base None (answers dune_wrapped) JsonText.JSON_parse
       (JObj dune_members) = Ok (JObj dune_members).
Proof.
  assert (Hid : "b1" <> EmptyString) by discriminate.
  assert (Henv : envelope JsonText.JSON_parse dune_wrapped
                   (qq "{'id':'b1','title':'Dune'}")).
  { eexists. split; [vm_compute; reflexivity |].
    split; [vm_compute; reflexivity | discriminate]. }
  pose proof (response_shapes_agree ApiFacts.base None JsonText.JSON_parse
                syntax_message eq_refl dune_direct dune_wrapped
                (qq "{'id':'b1','title':'Dune'}") "b1" (JObj dune_members)
                dune_members Hid eq_refl eq_refl eq_refl eq_refl Henv eq_refl)
    as H.
  split; [apply (H dune_direct); left; reflexivity |].
  split; [apply (H dune_wrapped); right; reflexivity |].
  apply (H dune_wrapped). right. reflexivity.
Defined.

End ApiMoreFacts.

(* ===================================================================== *)
(** * Further properties of the reading-list controller *)
(* ===================================================================== *)

Module ReadingListsMoreFacts.
Import Js ReadingLists ReadingListsAsync.
Import ReadingListsFacts(remaining, removal, without, creation).
Local Open Scope list_scope.

Section Halves.

Variable api : ApiService.
Variable toastFunctions : bool.

(** Running the two halves back to back is the handler. *)
Lemma loadListBooks_halves ids s :
  loadListBooks api toastFunctions ids s =
    bindM (loadListBooks_start api ids)
      (fun ps => loadListBooks_resume toastFunctions (Promise_all ps)) s.
Proof.
  unfold loadListBooks, loadListBooks_start, loadListBooks_resume,
    bindM, try_catch_finally, set, handleApiError, emit.
  cbn [fst snd]. rewrite !ReadingListsFacts.issue_getBooks_spec.
  destruct (Promise_all (map (getBook api) ids)) as [books | e];
    cbn; rewrite ?app_nil_r; reflexivity.
Qed.

Lemma handleRemoveBook_halves c bookId s selected :
  selectedList c = Some selected ->
  handleRemoveBook api toastFunctions c bookId s =
    bindM (handleRemoveBook_start api c bookId)
      (fun settled =>
         match settled with
         | Some outcome =>
             handleRemoveBook_resume toastFunctions c selected bookId outcome
         | None => ret tt
         end) s.
Proof.
  intros Hsel.
  unfold handleRemoveBook, handleRemoveBook_start, handleRemoveBook_resume,
    updatedBookIds.
  rewrite Hsel.
  unfold bindM, try_catch_finally, await, set, showSuccess, handleApiError, emit.
  cbn [fst snd app].
  destruct (updateReadingList api (id selected) _) as [l | e]; reflexivity.
Qed.

(** ** Two selections in flight *)

Lemma handleListClick_start_state l s :
  state_after (handleListClick_start api l) s =
    with_isLoadingBooks true
      (with_isBooksModalOpen true (with_selectedList (Some l) s)).
Proof.
  unfold state_after, handleListClick_start, loadListBooks_start, bindM, set.
  cbn [fst snd]. rewrite ReadingListsFacts.issue_getBooks_spec. reflexivity.
Qed.

Lemma loadListBooks_resume_fulfilled books s :
  state_after (loadListBooks_resume toastFunctions (Ok books)) s =
    with_isLoadingBooks false (with_listBooks (non_null books) s).
Proof. reflexivity. Qed.

Lemma loadListBooks_resume_rejected e s :
  state_after (loadListBooks_resume toastFunctions (Throw e)) s =
    with_isLoadingBooks false s.
Proof. reflexivity. Qed.

(** X6.  Two selections in flight: list [A] is selected, the modal is
    closed, list [B] is selected, and the books of [B] arrive before the
    books of [A].  The page is then left with [B] selected and the
    books of [A] in view, with no spinner: a resolution that completes
    late overwrites the view of the newer selection.  Had the books
    arrived in the order of the selections, the view would be that of
    [B]. *)
Theorem late_resolution_overwrites_newer_selection
  (A B : ReadingList) (booksA booksB : list (option Book)) (s : State) :
  let s1 := state_after (handleListClick_start api A) s in
  let s2 := state_after closeBooksModal s1 in
  let s3 := state_after (handleListClick_start api B) s2 in
  let late_A :=
    state_after (loadListBooks_resume toastFunctions (Ok booksA))
      (state_after (loadListBooks_resume toastFunctions (Ok booksB)) s3) in
  let late_B :=
    state_after (loadListBooks_resume toastFunctions (Ok booksB))
      (state_after (loadListBooks_resume toastFunctions (Ok booksA)) s3) in
  (selectedList late_A = Some B
   /\ listBooks late_A = non_null booksA
   /\ isLoadingBooks late_A = false
   /\ isBooksModalOpen late_A = true)
  /\ (selectedList late_B = Some B /\ listBooks late_B = non_null booksB).
Proof.
  cbv zeta. rewrite !handleListClick_start_state, !loadListBooks_resume_fulfilled.
  repeat split.
Qed.

(** ** Two removals in flight *)

Lemma handleRemoveBook_start_state c bookId selected s :
  selectedList c = Some selected ->
  state_after (handleRemoveBook_start api c bookId) s
    = with_removingBookId (Some bookId) s
  /\ requests (trace_of (handleRemoveBook_start api c bookId) s)
     = [(UpdateReadingList (id selected) (removal bookId selected),
         with_removingBookId (Some bookId) s)].
Proof.
  intros Hsel. unfold state_after, trace_of, handleRemoveBook_start.
  rewrite Hsel. split; reflexivity.
Qed.

(** X7.  Two removals in flight: the remove button of a second book is
    pressed while the request for the first is pending, and both
    requests succeed.  The second handler still works from the list and
    the view it was rendered with, so the first removal is lost: the
    second request asks the server to keep the first book, and once
    both have completed the first book is back in the view. *)
Theorem overlapping_removals_lose_the_first
  (c : State) (selected l1 l2 : ReadingList) (b1 b2 : string) :
  selectedList c = Some selected -> b1 <> b2 ->
  let s1 := state_after (handleRemoveBook_start api c b1) c in
  let s2 := state_after (handleRemoveBook_start api s1 b2) s1 in
  let s3 := state_after
              (handleRemoveBook_resume toastFunctions c selected b1 (Ok l1)) s2 in
  let s4 := state_after
              (handleRemoveBook_resume toastFunctions s1 selected b2 (Ok l2)) s3 in
  requests (trace_of (handleRemoveBook_start api s1 b2) s1)
    = [(UpdateReadingList (id selected) (removal b2 selected), s2)]
  /\ (In b1 (bookIds selected) -> In b1 (remaining b2 selected))
  /\ selectedList s4 = Some l2
  /\ listBooks s4 = without b2 (listBooks c)
  /\ (forall b, In b (listBooks c) -> book_id b = b1 -> In b (listBooks s4))
  /\ removingBookId s3 = None.
Proof.
  intros Hsel Hne. cbv zeta.
  destruct (handleRemoveBook_start_state c b1 selected c Hsel) as [E1 _].
  rewrite E1.
  assert (Hsel1 : selectedList (with_removingBookId (Some b1) c) = Some selected)
    by exact Hsel.
  destruct (handleRemoveBook_start_state _ b2 selected
              (with_removingBookId (Some b1) c) Hsel1) as [E2 R2].
  rewrite E2, R2.
  split; [reflexivity |].
  split.
  { intros Hin. apply ReadingListsFacts.remaining_In; assumption. }
  split; [reflexivity |].
  split; [reflexivity |].
  split; [| reflexivity].
  intros b Hin Hid. cbn. unfold without. apply filter_In. split; [exact Hin |].
  apply negb_true_iff. apply String.eqb_neq. rewrite Hid. exact Hne.
Qed.

End Halves.
(** ** What every state of the page satisfies *)


(** Between gestures no request is pending, the books modal is open
    exactly when a list is selected, and a page with no selection shows
    no book. *)
Definition settled (s : State) : Prop :=
  isLoadingBooks s = false
  /\ removingBookId s = None
  /\ deletingListId s = None
  /\ (isBooksModalOpen s = true <-> selectedList s <> None)
  /\ (selectedList s = None -> listBooks s = []).






(** ** What a gesture costs *)

(** The most requests a gesture issues. *)
Definition request_budget (g : gesture) : nat :=
  match g with
  | ClickList l => length (bookIds l)
  | Mount | SubmitCreate | ClickRemove _ | ClickDelete _ _ => 1
  | TypeName _ | TypeDescription _ | OpenCreate | CloseCreate | CloseBooks => 0
  end.

Lemma requests_of_calls s0 ids t :
  requests (map (fun i => Called (GetBook i) s0) ids ++ t)
    = map (fun i => (GetBook i, s0)) ids ++ requests t.
Proof.
  induction ids as [| i r IH]; simpl; [reflexivity |]. rewrite IH. reflexivity.
Qed.

Lemma handleListClick_trace api toastFunctions l s :
  exists s0 tail,
    snd (run api toastFunctions (ClickList l) s)
      = map (fun i => Called (GetBook i) s0) (bookIds l) ++ tail
    /\ listBooks s0 = listBooks s
    /\ requests tail = []
    /\ (length (notifications tail) <= 1)%nat
    /\ (notifications tail <> [] -> bookIds l <> []).
Proof.
  unfold run. cbn [handler].
  unfold handleListClick, bindM, set. simpl.
  destruct (Promise_all (map (getBook api) (bookIds l))) as [books | e] eqn:Hall.
  - rewrite (ReadingListsFacts.loadListBooks_fulfilled
               api toastFunctions _ _ books Hall). simpl.
    do 2 eexists. split; [symmetry; apply app_nil_r |].
    split; [reflexivity |]. split; [reflexivity |].
    split; [simpl; auto |]. simpl. congruence.
  - rewrite (ReadingListsFacts.loadListBooks_rejected
               api toastFunctions _ _ e Hall). simpl.
    do 2 eexists. split; [reflexivity |].
    split; [reflexivity |]. split; [reflexivity |].
    split; [simpl; auto |].
    intros _ Hnil. rewrite Hnil in Hall. discriminate.
Qed.

Ltac bounded_case :=
  simpl; repeat split; auto; try discriminate; try congruence.

(** X9.  No gesture retries or fans out: loading, creating, removing
    and deleting issue at most one request, typing and opening or
    closing a modal issue none, and selecting a list issues exactly one
    [getBook] request per stored identifier, in stored order, all of
    them before any answer is used.  A gesture notifies at most once,
    and only when it issued a request. *)
Theorem gesture_effects_bounded
  (api : ApiService) (toastFunctions : bool) (g : gesture) (s : State) :
  let t := snd (run api toastFunctions g s) in
  (length (requests t) <= request_budget g)%nat
  /\ (length (notifications t) <= 1)%nat
  /\ (notifications t <> [] -> requests t <> [])
  /\ (forall l, g = ClickList l ->
        map fst (requests t) = map GetBook (bookIds l)
        /\ forall q, In q (requests t) -> listBooks (snd q) = listBooks s).
Proof.
  cbv zeta.
  destruct g as [| v | v | | | | l | bookId | listId answer |];
    cbn [request_budget].
  - unfold run. cbn [handler].
    unfold loadLists, bindM, try_catch_finally, await, set; simpl.
    destruct (getReadingLists api); bounded_case.
  - bounded_case.
  - bounded_case.
  - bounded_case.
  - bounded_case.
  - unfold run. cbn [handler].
    destruct (trim_is_empty (newListName s)) eqn:Hn.
    + rewrite (ReadingListsFacts.handleCreateList_blank api toastFunctions s s Hn).
      bounded_case.
    + destruct (createReadingList api (creation s)) as [nl | e] eqn:Hc.
      * rewrite (ReadingListsFacts.handleCreateList_success
                   api toastFunctions s s nl Hn Hc).
        bounded_case.
      * rewrite (ReadingListsFacts.handleCreateList_failure
                   api toastFunctions s s e Hn Hc).
        bounded_case.
  - destruct (handleListClick_trace api toastFunctions l s)
      as (s0 & tail & -> & Hview & Hreq & Hnot & Hids).
    rewrite requests_of_calls, Hreq, app_nil_r.
    rewrite ReadingListsFacts.notifications_of_calls.
    split; [rewrite length_map; auto |].
    split; [exact Hnot |].
    split.
    + intros Hn Hnil. apply (Hids Hn).
      destruct (bookIds l); [reflexivity | discriminate].
    + intros l' [= <-]. split.
      * rewrite map_map. simpl. reflexivity.
      * intros q Hq. apply in_map_iff in Hq. destruct Hq as (i & <- & _).
        exact Hview.
  - unfold run. cbn [handler].
    destruct (selectedList s) as [selected |] eqn:Hsel.
    + destruct (updateReadingList api (id selected) (removal bookId selected))
        as [ul | e] eqn:Hup.
      * rewrite (ReadingListsFacts.handleRemoveBook_success
                   api toastFunctions s bookId s selected ul Hsel Hup).
        bounded_case.
      * rewrite (ReadingListsFacts.handleRemoveBook_failure
                   api toastFunctions s bookId s selected e Hsel Hup).
        bounded_case.
    + rewrite (ReadingListsFacts.handleRemoveBook_unselected
                 api toastFunctions s bookId s Hsel).
      bounded_case.
  - unfold run. cbn [handler].
    destruct answer as [[|] |];
      [| rewrite (ReadingListsFacts.handleDeleteList_unconfirmed
                    api toastFunctions s s _ listId) by discriminate;
         bounded_case ..].
    destruct (deleteReadingList api listId) as [[] | e] eqn:Hd.
    + rewrite (ReadingListsFacts.handleDeleteList_success
                 api toastFunctions s s listId Hd).
      bounded_case.
    + rewrite (ReadingListsFacts.handleDeleteList_failure
                 api toastFunctions s s listId e Hd).
      bounded_case.
  - bounded_case.
Qed.

(** ** Creating a list and deleting it again *)

Lemma filter_keeps_all {A} (f : A -> bool) l :
  (forall x, In x l -> f x = true) -> filter f l = l.
Proof.
  induction l as [| x r IH]; simpl; intros H; [reflexivity |].
  rewrite (H x (or_introl eq_refl)), IH; [reflexivity |].
  intros y Hy. apply H. right. exact Hy.
Qed.

(** X10.  Creating a list and then deleting it restores the cache: when
    the created list comes back under an identifier that no cached list
    and not the selected list carries, a successful creation followed
    by a confirmed, successful deletion of that identifier leaves the
    cached lists, the selection and the materialized view as they were
    before the creation. *)
Theorem create_then_delete_restores_cache
  (api api' : ApiService) (toastFunctions : bool) (s : State)
  (newList : ReadingList) :
  trim_is_empty (newListName s) = false ->
  createReadingList api (creation s) = Ok newList ->
  (forall l, In l (lists s) -> id l <> id newList) ->
  (forall selected, selectedList s = Some selected -> id selected <> id newList) ->
  deleteReadingList api' (id newList) = Ok tt ->
  let created := fst (run api toastFunctions SubmitCreate s) in
  let deleted :=
    fst (run api' toastFunctions (ClickDelete (id newList) (Some true)) created) in
  lists created = lists s ++ [newList]
  /\ lists deleted = lists s
  /\ selectedList deleted = selectedList s
  /\ listBooks deleted = listBooks s.
Proof.
  intros Hn Hc Hfresh Hsel Hd. cbv zeta. unfold run. cbn [handler].
  rewrite (ReadingListsFacts.handleCreateList_success
             api toastFunctions s s newList Hn Hc).
  cbn [fst snd].
  rewrite (ReadingListsFacts.handleDeleteList_success api' toastFunctions _ _ _ Hd).
  cbn [fst snd]. unfold ReadingListsFacts.after_deletion.
  cbn [lists selectedList with_lists with_isModalOpen with_newListName
         with_newListDescription with_deletingListId].
  assert (Hfilter :
            filter (fun l => negb (id l =? id newList)%string)
                   (lists s ++ [newList]) = lists s).
  { rewrite filter_app. simpl. rewrite String.eqb_refl. simpl.
    rewrite app_nil_r. apply filter_keeps_all.
    intros l Hl. apply negb_true_iff. apply String.eqb_neq. apply Hfresh, Hl. }
  split; [reflexivity |].
  destruct (selectedList s) as [selected |] eqn:Es.
  - destruct (String.eqb_spec (id selected) (id newList)) as [E | _].
    + exfalso. exact (Hsel selected eq_refl E).
    + cbn. rewrite Hfilter, Es. repeat split.
  - cbn. rewrite Hfilter, Es. repeat split.
Qed.

(** ** From the status line to the toast *)

Section EndToEnd.

Variable API_BASE_URL : string.
Variable session_token : option string.
Variable JSON_parse : string -> option json.
Variable syntax_message : string -> string.
Variable as_Book : json -> Book.
Variable as_ReadingList : json -> ReadingList.
Variable as_ReadingLists : json -> list ReadingList.
Variable toastFunctions : bool.

Hypothesis JSON_parse_empty : JSON_parse EmptyString = None.

(** X11.  The page wired to the client: when the server refuses a
    confirmed deletion with a status outside 2xx and a structured
    [{error: s}], directly or in an envelope, the user gets exactly one
    notification, an error whose text is [s] verbatim, and the cached
    lists, the selection and the view stay as they were. *)
Theorem refused_deletion_shows_server_message
  (r : Api.Response) (message listId : string) (s : State) :
  listId <> EmptyString -> Api.ok r = false ->
  ApiFacts.carries_error JSON_parse r message ->
  let api := Backend.service API_BASE_URL session_token (ApiFacts.answers r)
               JSON_parse syntax_message as_Book as_ReadingList as_ReadingLists in
  let s' := fst (run api toastFunctions (ClickDelete listId (Some true)) s) in
  let t := snd (run api toastFunctions (ClickDelete listId (Some true)) s) in
  notifications t = [Notify.send toastFunctions Notify.error message]
  /\ lists s' = lists s
  /\ selectedList s' = selectedList s
  /\ listBooks s' = listBooks s.
Proof.
  intros Hid Hok (Hne & Hcarried). cbv zeta.
  assert (Hthrow :
            Api.deleteReadingList API_BASE_URL session_token (ApiFacts.answers r)
              JSON_parse listId = Throw (Error message)).
  { rewrite (ApiFacts.deleteReadingList_failed API_BASE_URL session_token
               JSON_parse r listId Hid Hok).
    destruct Hcarried as [(ms & Hp & Hb & He) | (inner & ms' & Henv & Hin & He)].
    - rewrite (ApiFacts.decode_error_direct JSON_parse JSON_parse_empty r ms Hp Hb).
      apply ApiFacts.throw_error_or_string; assumption.
    - rewrite (ApiFacts.decode_error_enveloped JSON_parse JSON_parse_empty
                 r inner _ Henv Hin).
      apply ApiFacts.throw_error_or_string; assumption. }
  unfold run. cbn [handler].
  rewrite (ReadingListsFacts.handleDeleteList_failure
             (Backend.service API_BASE_URL session_token (ApiFacts.answers r)
                JSON_parse syntax_message as_Book as_ReadingList as_ReadingLists)
             toastFunctions s s listId (Error message) Hthrow).
  repeat split.
Qed.

End EndToEnd.

(** ** Concrete runs *)

Import ReadingListsFacts(book, summer, backend, stores, play, summer_open,
                         with_bookIds).

Lemma overlapping_removals_lose_the_first_witness :
  let s1 := state_after (handleRemoveBook_start (backend stores) summer_open "b1")
              summer_open in
  let s2 := state_after (handleRemoveBook_start (backend stores) s1 "b2") s1 in
  let s3 := state_after
              (handleRemoveBook_resume true summer_open summer "b1"
                 (Ok (with_bookIds ["b2"; "b3"] summer))) s2 in
  let s4 := state_after
              (handleRemoveBook_resume true s1 summer "b2"
                 (Ok (with_bookIds ["b1"; "b3"] summer))) s3 in
  selectedList s4 = Some (with_bookIds ["b1"; "b3"] summer)
  /\ listBooks s4 = [book "b1"; book "b3"].
Proof.
  assert (Hne : "b1" <> "b2") by discriminate.
  destruct (overlapping_removals_lose_the_first (backend stores) true
              summer_open summer (with_bookIds ["b2"; "b3"] summer)
              (with_bookIds ["b1"; "b3"] summer) "b1" "b2" eq_refl Hne)
    as (_ & _ & Hsel & Hview & _).
  split; [exact Hsel | exact Hview].
Defined.


Definition winter : ReadingList :=
  {| id := "l2"; userId := "1"; name := "Winter";
     description := Some ""; bookIds := [];
     createdAt := "2024-06-02T10:00:00Z"; updatedAt := "2024-06-02T10:00:00Z" |}.

Lemma create_then_delete_restores_cache_witness :
  let named := with_newListName "Winter" summer_open in
  let created := fst (run (backend stores) true SubmitCreate named) in
  let deleted :=
    fst (run (backend stores) true (ClickDelete "l2" (Some true)) created) in
  lists created = [summer; winter]
  /\ lists deleted = [summer]
  /\ selectedList deleted = Some summer
  /\ listBooks deleted = [book "b1"; book "b2"; book "b3"].
Proof.
  apply (create_then_delete_restores_cache (backend stores) (backend stores)
           true (with_newListName "Winter" summer_open) winter).
  - reflexivity.
  - reflexivity.
  - intros l [<- | []]. discriminate.
  - intros selected [= <-]. discriminate.
  - reflexivity.
Defined.

Lemma refused_deletion_shows_server_message_witness :
  notifications
    (snd (run (Backend.service ApiFacts.base None
                 (ApiFacts.answers ApiFacts.enveloped_denial_404)
                 JsonText.JSON_parse JsonText.syntax_message
                 Backend.book_of_json Backend.list_of_json Backend.lists_of_json)
            true (ClickDelete "l1" (Some true)) summer_open))
  = [Notify.send true Notify.error "No such list"].
Proof.
  assert (Hc : ApiFacts.carries_error JsonText.JSON_parse
                 ApiFacts.enveloped_denial_404 "No such list").
  { split; [discriminate |]. right.
    exists (JsonText.qq "{'error':'No such list'}"). eexists. split.
    - eexists. split; [vm_compute; reflexivity |].
      split; [vm_compute; reflexivity | discriminate].
    - split; vm_compute; reflexivity. }
  assert (Hid : "l1" <> EmptyString) by discriminate.
  apply (refused_deletion_shows_server_message ApiFacts.base None
           JsonText.JSON_parse JsonText.syntax_message
           Backend.book_of_json Backend.list_of_json Backend.lists_of_json
           true eq_refl ApiFacts.enveloped_denial_404 "No such list" "l1"
           summer_open Hid eq_refl Hc).
Defined.

End ReadingListsMoreFacts.

(* ===================================================================== *)
(** * Further properties of the confirmation flow *)
(* ===================================================================== *)

Module ConfirmationMoreFacts.
Import Confirmation ConfirmationFacts.
Local Open Scope nat_scope.
Local Open Scope list_scope.

(** No promise has two resolutions, and the promise whose resolver is
    in the dialog cell has none. *)
Definition at_most_once (s : Provider) : Prop :=
  (forall p, length (resolutions p (resolved s)) <= 1)
  /\ (forall d, dialog s = Some d ->
                resolutions (resolve d) (resolved s) = []).

Lemma resolutions_snoc p q v log :
  resolutions p (log ++ [(q, v)]) =
    if Nat.eqb q p then resolutions p log ++ [v] else resolutions p log.
Proof.
  rewrite resolutions_app. simpl.
  destruct (Nat.eqb q p); [reflexivity | apply app_nil_r].
Qed.

Lemma settle_keeps_at_most_once s d v :
  dialog s = Some d -> at_most_once s ->
  at_most_once (setDialog None (call_resolve (resolve d) v s)).
Proof.
  intros Hd [Hlen Hpend]. split; simpl.
  - intros p. rewrite resolutions_snoc.
    destruct (Nat.eqb_spec (resolve d) p) as [<- | _]; [| apply Hlen].
    rewrite (Hpend d Hd). simpl. lia.
  - discriminate.
Qed.

Lemma step_keeps_at_most_once s a :
  log_bounded s -> at_most_once s -> at_most_once (step s a).
Proof.
  intros Hb [Hlen Hpend].
  destruct a as [o | |]; simpl.
  - split; simpl; [exact Hlen |].
    intros d [= <-]. simpl. apply fresh_promise_pending. exact Hb.
  - unfold handleConfirm. case_eq (dialog s); [intros d E | intros E].
    + apply settle_keeps_at_most_once; [exact E | split; assumption].
    + split; [exact Hlen | rewrite E; discriminate].
  - unfold handleCancel. case_eq (dialog s); [intros d E | intros E].
    + apply settle_keeps_at_most_once; [exact E | split; assumption].
    + split; [exact Hlen | rewrite E; discriminate].
Qed.

Lemma run_keeps_at_most_once acts s :
  log_bounded s /\ dialog_bounded s -> at_most_once s ->
  at_most_once (run acts s).
Proof.
  revert s. induction acts as [| a r IH]; intros s Hb H; simpl; [exact H |].
  apply IH.
  - apply step_bounded. exact Hb.
  - apply step_keeps_at_most_once; [apply Hb | exact H].
Qed.

Lemma uncreated_promise_unresolved n p log :
  Forall (fun pv : promise * bool => fst pv < n) log -> n <= p ->
  resolutions p log = [].
Proof.
  intros Hl Hp. induction log as [| [q v] r IH]; simpl; [reflexivity |].
  inversion Hl as [| x l Hq Hr]; subst. simpl in Hq.
  destruct (Nat.eqb_spec q p); [lia | apply IH; exact Hr].
Qed.

(** X12.  In every state the provider reaches, whatever the order of
    requests and button presses, no promise has been resolved twice,
    the promise of the open dialog is still pending, and only promises
    that [confirm] created have been resolved. *)
Theorem no_promise_resolved_twice (acts : list action) :
  let s := run acts initial in
  (forall p, length (resolutions p (resolved s)) <= 1)
  /\ (forall d, dialog s = Some d ->
                resolutions (resolve d) (resolved s) = []
                /\ resolve d < created s)
  /\ (forall p, created s <= p -> resolutions p (resolved s) = []).
Proof.
  cbv zeta.
  destruct (run_bounded acts initial initial_bounded) as [Hl Hd].
  assert (H0 : at_most_once initial).
  { split; [intros p; simpl; lia | intros d [=]]. }
  destruct (run_keeps_at_most_once acts initial initial_bounded H0)
    as [Hlen Hpend].
  split; [exact Hlen |].
  split; [intros d E; split; [apply Hpend | apply Hd]; exact E |].
  intros p Hp. exact (uncreated_promise_unresolved _ p _ Hl Hp).
Qed.

(** ** Requests made one at a time *)

(** No request is made while a dialog is open. *)
Fixpoint one_at_a_time (acts : list action) (s : Provider) : bool :=
  match acts with
  | [] => true
  | a :: r =>
      match a, dialog s with
      | Confirm _, Some _ => false
      | _, _ => one_at_a_time r (step s a)
      end
  end.

(** Every created promise is either the pending one of the open dialog
    or has exactly one resolution. *)
Definition all_answered (s : Provider) : Prop :=
  forall p, p < created s ->
    (exists d, dialog s = Some d /\ resolve d = p
               /\ resolutions p (resolved s) = [])
    \/ ((forall d, dialog s = Some d -> resolve d <> p)
        /\ length (resolutions p (resolved s)) = 1).

Lemma settle_keeps_all_answered s d v :
  dialog s = Some d -> all_answered s ->
  all_answered (setDialog None (call_resolve (resolve d) v s)).
Proof.
  intros Hd Hall p Hp. right. split; [discriminate |]. simpl.
  rewrite resolutions_snoc.
  destruct (Hall p Hp) as [(d' & Hd' & Hres & Hnone) | (Hother & Hone)].
  - rewrite Hd in Hd'. injection Hd' as <-.
    rewrite Hres, Nat.eqb_refl, Hnone. reflexivity.
  - destruct (Nat.eqb_spec (resolve d) p) as [E | _].
    + exfalso. exact (Hother d Hd E).
    + exact Hone.
Qed.

Lemma run_keeps_all_answered acts s :
  log_bounded s /\ dialog_bounded s -> all_answered s ->
  one_at_a_time acts s = true -> all_answered (run acts s).
Proof.
  revert s. induction acts as [| a r IH]; intros s Hb Hall Hone; simpl;
    [exact Hall |].
  simpl in Hone.
  assert (Hstep : all_answered (step s a)).
  { destruct a as [o | |]; simpl.
    - case_eq (dialog s); [intros d E; rewrite E in Hone; discriminate | intros E].
      intros p Hp. simpl in Hp.
      destruct (Nat.eq_dec p (created s)) as [-> | Hne].
      + left. eexists. split; [reflexivity |]. split; [reflexivity |].
        simpl. apply fresh_promise_pending. apply Hb.
      + right. assert (Hlt : p < created s) by lia.
        destruct (Hall p Hlt) as [(d' & Hd' & _) | (_ & Hlen)].
        * rewrite E in Hd'. discriminate.
        * split; [| exact Hlen]. intros d [= <-]. simpl. lia.
    - unfold handleConfirm. case_eq (dialog s); [intros d E | intros E].
      + apply settle_keeps_all_answered; assumption.
      + exact Hall.
    - unfold handleCancel. case_eq (dialog s); [intros d E | intros E].
      + apply settle_keeps_all_answered; assumption.
      + exact Hall. }
  apply IH.
  - apply step_bounded. exact Hb.
  - exact Hstep.
  - destruct a as [o | |]; [destruct (dialog s); [discriminate |] | |];
      exact Hone.
Qed.

(** X13.  When requests are made one at a time, that is, never while a
    dialog is open, no promise is abandoned: every promise [confirm]
    has created is resolved exactly once, except the one of the dialog
    that is still open, which is pending. *)
Theorem one_at_a_time_answers_every_request (acts : list action) :
  one_at_a_time acts initial = true ->
  let s := run acts initial in
  forall p, p < created s ->
    match dialog s with
    | Some d =>
        if Nat.eqb (resolve d) p
        then resolutions p (resolved s) = []
        else length (resolutions p (resolved s)) = 1
    | None => length (resolutions p (resolved s)) = 1
    end.
Proof.
  intros Hone s p Hp.
  assert (H0 : all_answered initial) by (intros q Hq; simpl in Hq; lia).
  pose proof (run_keeps_all_answered acts initial initial_bounded H0 Hone p Hp)
    as Hall.
  fold s in Hall.
  destruct (dialog s) as [d |] eqn:E.
  - destruct (Nat.eqb_spec (resolve d) p) as [Heq | Hne].
    + destruct Hall as [(d' & _ & _ & Hnone) | (Hother & _)]; [exact Hnone |].
      exfalso. exact (Hother d eq_refl Heq).
    + destruct Hall as [(d' & Hd' & Hres & _) | (_ & Hlen)]; [| exact Hlen].
      injection Hd' as <-. contradiction.
  - destruct Hall as [(d' & Hd' & _) | (_ & Hlen)]; [discriminate | exact Hlen].
Qed.

(** ** Concrete runs *)

Lemma one_at_a_time_answers_every_request_witness :
  let s := run [Confirm delete_list; Accept; Confirm delete_book; Dismiss;
                Confirm delete_list] initial in
  resolutions 0 (resolved s) = [true]
  /\ resolutions 1 (resolved s) = [false]
  /\ resolutions 2 (resolved s) = []
  /\ length (resolutions 1 (resolved s)) = 1.
Proof.
  cbv zeta. split; [reflexivity |]. split; [reflexivity |].
  split; [reflexivity |].
  assert (Hlt : 1 < 3) by lia.
  exact (one_at_a_time_answers_every_request
           [Confirm delete_list; Accept; Confirm delete_book; Dismiss;
            Confirm delete_list] eq_refl 1 Hlt).
Defined.

End ConfirmationMoreFacts.

(* ===================================================================== *)
(** * Properties of the catalog page *)
(* ===================================================================== *)

Module BooksFacts.
Import Js Books.
Import ReadingLists(Book, book_id, title, author, genre, rating,
                    publishedYear, trim_is_empty, is_space, is_byte,
                    byte_within, is_space2, is_space3).
Local Open Scope list_scope.

(** ** Sorting *)



(** The order a comparator puts two elements in. *)
Definition in_order {A} (compare : A -> A -> Z) (a b : A) : Prop :=
  compare a b <= 0.

Lemma insert_sorted {A} (compare : A -> A -> Z) x l :
  (forall a b, 0 < compare a b -> compare b a <= 0) ->
  Sorted (in_order compare) l -> Sorted (in_order compare) (insert compare x l).
Proof.
  intros Hanti. induction l as [| y r IH]; simpl; intros Hs.
  - repeat constructor.
  - destruct (Z.leb_spec (compare x y) 0) as [Hle | Hgt].
    + constructor; [exact Hs | constructor; exact Hle].
    + inversion Hs as [| ? ? Hr Hhd]; subst.
      constructor; [apply IH; exact Hr |].
      destruct r as [| z r']; simpl.
      * constructor. apply Hanti. exact Hgt.
      * destruct (compare x z <=? 0).
        -- constructor. apply Hanti. exact Hgt.
        -- inversion Hhd; subst. constructor. assumption.
Qed.

Lemma sort_sorted {A} (compare : A -> A -> Z) l :
  (forall a b, 0 < compare a b -> compare b a <= 0) ->
  Sorted (in_order compare) (sort compare l).
Proof.
  intros Hanti. induction l as [| x r IH]; simpl; [constructor |].
  apply insert_sorted; assumption.
Qed.

(** Sorting by a numeric key, highest first, keeps the elements of one
    key value in the order they had. *)
Lemma insert_stable {A} (key : A -> Z) (k : Z) x l :
  filter (fun a => key a =? k) (insert (fun a b => key b - key a) x l)
    = filter (fun a => key a =? k) (x :: l).
Proof.
  induction l as [| y r IH]; [reflexivity |].
  cbn [insert]. destruct (Z.leb_spec (key y - key x) 0) as [Hle | Hgt];
    [reflexivity |].
  cbn [filter] in *. rewrite IH.
  destruct (Z.eqb_spec (key x) k) as [Hx | Hx]; [| reflexivity].
  destruct (Z.eqb_spec (key y) k) as [Hy | Hy]; [lia | reflexivity].
Qed.

Lemma sort_stable {A} (key : A -> Z) (k : Z) l :
  filter (fun a => key a =? k) (sort (fun a b => key b - key a) l)
    = filter (fun a => key a =? k) l.
Proof.
  induction l as [| x r IH]; [reflexivity |].
  cbn [sort]. rewrite insert_stable. cbn [filter]. rewrite IH. reflexivity.
Qed.

Lemma sort_descending {A} (key : A -> Z) l :
  StronglySorted (fun a b => key b <= key a)
    (sort (fun a b => key b - key a) l).
Proof.
  apply Sorted_StronglySorted.
  - intros a b c Hab Hbc. lia.
  - assert (H : Sorted (in_order (fun a b => key b - key a))
                  (sort (fun a b => key b - key a) l))
      by (apply sort_sorted; intros a b; lia).
    induction H as [| a r Hr IH Hhd]; constructor; [exact IH |].
    destruct Hhd as [| b r' Hab]; constructor.
    unfold in_order in Hab. lia.
Qed.



Section Page.

Variable localeCompare : string -> string -> Z.


(** X15.  Sorting by rating puts the highest rating first and sorting
    by year the newest first, and both are stable: the books of one
    rating, or of one year, stay in the order the catalog had them. *)
Theorem numeric_sorts_descend_and_are_stable (l : list Book) (k : Z) :
  StronglySorted (fun a b => rating b <= rating a)
    (sortBooks localeCompare l "rating")
  /\ filter (fun a => rating a =? k) (sortBooks localeCompare l "rating")
     = filter (fun a => rating a =? k) l
  /\ StronglySorted (fun a b => publishedYear b <= publishedYear a)
       (sortBooks localeCompare l "year")
  /\ filter (fun a => publishedYear a =? k) (sortBooks localeCompare l "year")
     = filter (fun a => publishedYear a =? k) l.
Proof.
  unfold sortBooks. cbn [String.eqb Ascii.eqb Bool.eqb].
  split; [apply (sort_descending rating) |].
  split; [apply (sort_stable rating) |].
  split; [apply (sort_descending publishedYear) |].
  apply (sort_stable publishedYear).
Qed.

(** X16.  When [localeCompare] is a consistent comparator (it never
    calls two strings each greater than the other, and what it puts in
    order it puts in order transitively), sorting by title or by author
    puts every book before all the books [localeCompare] ranks after
    it; a sort value the page does not know leaves the list as it
    is. *)
Theorem text_sorts_follow_localeCompare (l : list Book) (other : string) :
  (forall a b, 0 < localeCompare a b -> localeCompare b a <= 0) ->
  (forall a b c, localeCompare a b <= 0 -> localeCompare b c <= 0 ->
                 localeCompare a c <= 0) ->
  StronglySorted (fun a b => localeCompare (title a) (title b) <= 0)
    (sortBooks localeCompare l "title")
  /\ StronglySorted (fun a b => localeCompare (author a) (author b) <= 0)
       (sortBooks localeCompare l "author")
  /\ (other <> "title" -> other <> "author" -> other <> "rating" ->
      other <> "year" -> sortBooks localeCompare l other = l).
Proof.
  intros Hanti Htrans. unfold sortBooks.
  split; [| split].
  - cbn [String.eqb Ascii.eqb Bool.eqb].
    apply Sorted_StronglySorted.
    + intros a b c. apply Htrans.
    + apply (sort_sorted (fun a b => localeCompare (title a) (title b))).
      intros a b. apply Hanti.
  - cbn [String.eqb Ascii.eqb Bool.eqb].
    apply Sorted_StronglySorted.
    + intros a b c. apply Htrans.
    + apply (sort_sorted (fun a b => localeCompare (author a) (author b))).
      intros a b. apply Hanti.
  - intros H1 H2 H3 H4.
    destruct (String.eqb_spec other "title"); [contradiction |].
    destruct (String.eqb_spec other "author"); [contradiction |].
    destruct (String.eqb_spec other "rating"); [contradiction |].
    destruct (String.eqb_spec other "year"); [contradiction | reflexivity].
Qed.

(** ** Searching *)

Lemma lower_idempotent c : lower (lower c) = lower c.
Proof.
  destruct c as [[] [] [] [] [] [] [] []]; reflexivity.
Qed.

Lemma toLowerCase_idempotent s : toLowerCase (toLowerCase s) = toLowerCase s.
Proof.
  induction s as [| c r IH]; simpl; [reflexivity |].
  rewrite lower_idempotent, IH. reflexivity.
Qed.

Lemma lower_space c : is_space (lower c) = is_space c.
Proof.
  destruct c as [[] [] [] [] [] [] [] []]; reflexivity.
Qed.

(** Lower-casing changes ASCII letters only: a byte it changes is
    below 128 before and after, so no byte of a character encoded on
    several bytes is touched or produced. *)
Lemma lower_cases c :
  lower c = c
  \/ ((nat_of_ascii c < 128)%nat /\ (nat_of_ascii (lower c) < 128)%nat).
Proof.
  destruct c as [[] [] [] [] [] [] [] []];
    first [ left; reflexivity | right; split; vm_compute; lia ].
Qed.

Lemma is_byte_lower k c :
  (128 <= k)%nat -> is_byte k (lower c) = is_byte k c.
Proof.
  intros Hk. destruct (lower_cases c) as [-> | [H1 H2]]; [reflexivity |].
  unfold is_byte.
  replace (nat_of_ascii (lower c) =? k)%nat with false
    by (symmetry; apply Nat.eqb_neq; lia).
  symmetry. apply Nat.eqb_neq. lia.
Qed.

Lemma byte_within_lower lo hi c :
  (128 <= lo)%nat -> byte_within lo hi (lower c) = byte_within lo hi c.
Proof.
  intros Hk. destruct (lower_cases c) as [-> | [H1 H2]]; [reflexivity |].
  unfold byte_within.
  replace (lo <=? nat_of_ascii (lower c))%nat with false
    by (symmetry; apply Nat.leb_gt; lia).
  replace (lo <=? nat_of_ascii c)%nat with false
    by (symmetry; apply Nat.leb_gt; lia).
  reflexivity.
Qed.

Lemma is_space2_lower c1 c2 :
  is_space2 (lower c1) (lower c2) = is_space2 c1 c2.
Proof.
  unfold is_space2. rewrite !is_byte_lower by lia. reflexivity.
Qed.

Lemma is_space3_lower c1 c2 c3 :
  is_space3 (lower c1) (lower c2) (lower c3) = is_space3 c1 c2 c3.
Proof.
  unfold is_space3.
  rewrite !is_byte_lower, !byte_within_lower by lia. reflexivity.
Qed.

Lemma trim_is_empty_three c1 c2 c3 r :
  trim_is_empty (String c1 (String c2 (String c3 r)))
  = if is_space c1 then trim_is_empty (String c2 (String c3 r))
    else if is_space2 c1 c2 then trim_is_empty (String c3 r)
    else is_space3 c1 c2 c3 && trim_is_empty r.
Proof. reflexivity. Qed.

Lemma trim_is_empty_lower_upto n s :
  (String.length s <= n)%nat ->
  trim_is_empty (toLowerCase s) = trim_is_empty s.
Proof.
  revert s. induction n as [| n IH]; intros s Hn.
  - destruct s; [reflexivity | simpl in Hn; lia].
  - destruct s as [| c1 [| c2 [| c3 r3]]]; cbn [String.length] in Hn.
    + reflexivity.
    + cbn [toLowerCase trim_is_empty]. rewrite lower_space. reflexivity.
    + cbn [toLowerCase trim_is_empty].
      rewrite !lower_space, is_space2_lower. reflexivity.
    + change (toLowerCase (String c1 (String c2 (String c3 r3))))
        with (String (lower c1)
                (String (lower c2) (String (lower c3) (toLowerCase r3)))).
      rewrite !trim_is_empty_three.
      change (String (lower c2) (String (lower c3) (toLowerCase r3)))
        with (toLowerCase (String c2 (String c3 r3))).
      change (String (lower c3) (toLowerCase r3))
        with (toLowerCase (String c3 r3)).
      rewrite lower_space, is_space2_lower, is_space3_lower.
      rewrite !IH by (cbn [String.length]; lia). reflexivity.
Qed.

Lemma trim_is_empty_lower s : trim_is_empty (toLowerCase s) = trim_is_empty s.
Proof. apply (trim_is_empty_lower_upto (String.length s)). lia. Qed.

(** X17.  The search ignores the case of ASCII letters in the query:
    two queries that differ only in letter case show the same books in
    the same order. *)
Theorem search_ignores_case (catalog : list Book) (q1 q2 sortValue : string) :
  toLowerCase q1 = toLowerCase q2 ->
  shown localeCompare catalog q1 sortValue
    = shown localeCompare catalog q2 sortValue.
Proof.
  intros H. unfold shown.
  rewrite <- (trim_is_empty_lower q1), <- (trim_is_empty_lower q2), H.
  reflexivity.
Qed.

End Page.

(** ** Concrete runs *)

(** A consistent comparator for concrete runs: the order of the first
    characters. *)
Definition initial_code (s : string) : Z :=
  match s with
  | EmptyString => 0
  | String c _ => Z.of_nat (nat_of_ascii c)
  end.

Definition initial_order (a b : string) : Z := initial_code a - initial_code b.

Lemma initial_order_antisymmetric a b :
  0 < initial_order a b -> initial_order b a <= 0.
Proof. unfold initial_order. lia. Qed.

Lemma initial_order_transitive a b c :
  initial_order a b <= 0 -> initial_order b c <= 0 -> initial_order a c <= 0.
Proof. unfold initial_order. lia. Qed.

Definition volume (i t a : string) (r y : Z) : Book :=
  {| book_id := i; title := t; author := a; genre := "Fiction";
     rating := r; publishedYear := y |}.

Definition shelf : list Book :=
  [volume "b1" "Dune" "Herbert" 5 1965;
   volume "b2" "Emma" "Austen" 4 1815;
   volume "b3" "Ulysses" "Joyce" 4 1922;
   volume "b4" "Beloved" "Morrison" 5 1987].


Lemma text_sorts_follow_localeCompare_witness :
  map title (sortBooks initial_order shelf "title")
    = ["Beloved"; "Dune"; "Emma"; "Ulysses"]
  /\ StronglySorted (fun a b => initial_order (title a) (title b) <= 0)
       (sortBooks initial_order shelf "title").
Proof.
  split; [reflexivity |].
  apply (text_sorts_follow_localeCompare initial_order shelf "none"
           initial_order_antisymmetric initial_order_transitive).
Defined.

Lemma search_ignores_case_witness :
  shown initial_order shelf "JOYCE" "title" = shown initial_order shelf "joyce" "title"
  /\ shown initial_order shelf "joyce" "title" = [volume "b3" "Ulysses" "Joyce" 4 1922].
Proof.
  split; [| reflexivity].
  apply (search_ignores_case initial_order shelf "JOYCE" "joyce" "title").
  reflexivity.
Defined.

End BooksFacts.

(* ===================================================================== *)
(** * Properties of the signup page *)
(* ===================================================================== *)

Module SignupFacts.
Import Js Signup.
Local Open Scope list_scope.

Section Page.

Variable validateRequired : string -> bool.
Variable validateEmail : string -> bool.
Variable validatePassword : string -> bool.
Variable signup : string -> string -> string -> result unit.
Variable confirmSignUp : string -> string -> result unit.
Variable toastFunctions : bool.

Local Abbreviation submit :=
  (handleSubmit validateRequired validateEmail validatePassword signup
     confirmSignUp toastFunctions).
Local Abbreviation step' :=
  (step validateRequired validateEmail validatePassword signup
     confirmSignUp toastFunctions).

(** Every check of the form passes. *)
Definition form_accepted (s : State) : bool :=
  validateRequired (name s)
  && validateRequired (email s) && validateEmail (email s)
  && validateRequired (password s) && validatePassword (password s)
  && (password s =? confirmPassword s)%string.

Lemma validate_accepts s :
  snd (validate validateRequired validateEmail validatePassword s)
    = form_accepted s.
Proof.
  unfold validate, form_accepted, has_no_keys. cbn [snd err_name err_email
    err_password err_confirmPassword err_verificationCode].
  destruct (validateRequired (name s)), (validateRequired (email s)),
    (validateEmail (email s)), (validateRequired (password s)),
    (validatePassword (password s)),
    (password s =? confirmPassword s)%string; reflexivity.
Qed.

(** X18.  On the signup form [handleSubmit] calls [signup] exactly when
    every validator accepts its field and the two passwords are equal,
    and then calls it once, with the e-mail, the password and the name
    of the form; otherwise it calls nothing, notifies nothing and
    leaves at least one error.  Passwords that differ always block the
    call and always get their own error, whatever the validators say. *)
Theorem signup_call_requires_accepted_form (s : State) :
  needsVerification s = false ->
  (form_accepted s = true ->
   errors (fst (submit s)) = no_errors
   /\ exists rest,
       snd (submit s) = CalledSignup (email s) (password s) (name s) :: rest
       /\ (forall e p n, ~ In (CalledSignup e p n) rest)
       /\ (forall e c, ~ In (CalledConfirmSignUp e c) rest))
  /\ (form_accepted s = false ->
      snd (submit s) = []
      /\ has_no_keys (errors (fst (submit s))) = false
      /\ needsVerification (fst (submit s)) = false)
  /\ (password s <> confirmPassword s ->
      snd (submit s) = []
      /\ err_confirmPassword (errors (fst (submit s)))
         = Some "Passwords do not match").
Proof.
  intros Hmode. unfold handleSubmit. rewrite Hmode.
  pose proof (validate_accepts s) as Hv.
  destruct (validate validateRequired validateEmail validatePassword s)
    as [newErrors valid] eqn:E.
  cbn [snd] in Hv. subst valid.
  assert (Herr : newErrors
                 = fst (validate validateRequired validateEmail validatePassword s))
    by (rewrite E; reflexivity).
  split; [| split].
  - intros Hacc. rewrite Hacc. cbn [negb].
    assert (Hnone : newErrors = no_errors).
    { rewrite Herr. unfold form_accepted in Hacc.
      repeat (apply andb_true_iff in Hacc; destruct Hacc as [Hacc ?]).
      unfold validate. cbn [fst].
      repeat match goal with H : _ = true |- _ => rewrite H; clear H end.
      reflexivity. }
    destruct (signup (email s) (password s) (name s)) as [u | e]; cbn [fst snd].
    + split; [exact Hnone |]. eexists. split; [reflexivity |].
      split; intros; intros [].
    + split; [exact Hnone |]. eexists. split; [reflexivity |].
      split; intros; intros [H | []]; discriminate.
  - intros Hacc. rewrite Hacc. cbn [negb fst snd].
    split; [reflexivity |]. split; [| exact Hmode].
    cbn [errors with_errors].
    rewrite Herr, <- Hacc, <- validate_accepts. reflexivity.
  - intros Hne.
    assert (Hacc : form_accepted s = false).
    { unfold form_accepted.
      destruct (String.eqb_spec (password s) (confirmPassword s));
        [contradiction | apply andb_false_r]. }
    rewrite Hacc. cbn [negb fst snd]. split; [reflexivity |].
    cbn [errors with_errors]. rewrite Herr. unfold validate.
    cbn [fst err_confirmPassword].
    destruct (String.eqb_spec (password s) (confirmPassword s));
      [contradiction | reflexivity].
Qed.

(** ** Requests in flight *)

Local Abbreviation start_half :=
  (SignupAsync.handleSubmit_start validateRequired validateEmail
     validatePassword).
Local Abbreviation resume_half :=
  (SignupAsync.handleSubmit_resume toastFunctions).
Local Abbreviation async_step :=
  (SignupAsync.step validateRequired validateEmail validatePassword
     toastFunctions).
Local Abbreviation async_session :=
  (SignupAsync.session validateRequired validateEmail validatePassword
     toastFunctions).
Local Abbreviation untouched :=
  (SignupAsync.email_untouched_in_flight validateRequired validateEmail
     validatePassword toastFunctions).

(** What a call settles to when it is made. *)
Definition perform (c : SignupAsync.call) : result unit :=
  match c with
  | SignupAsync.SignupCall e p n => signup e p n
  | SignupAsync.ConfirmCall e c => confirmSignUp e c
  end.

(** The two halves, run one after the other with nothing in between,
    leave the state [handleSubmit] leaves; without a call the first
    half is all of it. *)
Lemma handleSubmit_halves s :
  match start_half s with
  | (s1, Some c) => fst (resume_half c (perform c) s1) = fst (submit s)
  | (s1, None) => s1 = fst (submit s) /\ snd (submit s) = []
  end.
Proof.
  unfold SignupAsync.handleSubmit_start, handleSubmit.
  destruct (needsVerification s).
  - destruct (ReadingLists.trim_is_empty (verificationCode s)); [split; reflexivity |].
    cbn [perform]. destruct (confirmSignUp (email s) (verificationCode s));
      reflexivity.
  - destruct (validate validateRequired validateEmail validatePassword s)
      as [newErrors valid].
    destruct valid; cbn [negb]; [| split; reflexivity].
    cbn [perform]. destruct (signup (email s) (password s) (name s));
      reflexivity.
Qed.

(** Outside a submission the page with requests in flight edits its
    fields as [Signup.step] does. *)
Lemma edit_is_step s g :
  g <> Submit -> SignupAsync.edit s g = fst (step' s g).
Proof.
  intros Hg. destruct g; try reflexivity; cbn [SignupAsync.edit step fst];
    try (destruct (needsVerification s); reflexivity).
  contradiction Hg. reflexivity.
Qed.

(** A [signup] call for this e-mail has settled successfully. *)
Definition succeeded (t : list SignupAsync.event) (e : string) : Prop :=
  exists p n,
    In (SignupAsync.Settled (SignupAsync.SignupCall e p n) (Ok tt)) t.

(** What is known of the address a confirmation is asked for: with
    [strict] it is an address whose signup succeeded, without it some
    signup succeeded. *)
Definition backed (strict : bool) (t : list SignupAsync.event) (e : string)
  : Prop :=
  if strict then succeeded t e else exists e0, succeeded t e0.

Definition confirmations_backed (strict : bool) (t : list SignupAsync.event)
  : Prop :=
  forall t1 t2 e c,
    t = t1 ++ SignupAsync.Called (SignupAsync.ConfirmCall e c) :: t2 ->
    backed strict t1 e.

Definition pending_signups_current (p : SignupAsync.Page) : Prop :=
  forall e pw n,
    In (SignupAsync.SignupCall e pw n) (SignupAsync.in_flight p) ->
    e = email (SignupAsync.cells p).

Definition in_order (strict : bool) (p : SignupAsync.Page)
  (t : list SignupAsync.event) : Prop :=
  (strict = true -> pending_signups_current p)
  /\ (needsVerification (SignupAsync.cells p) = true ->
      backed strict t (email (SignupAsync.cells p)))
  /\ confirmations_backed strict t.

Lemma succeeded_app t t' e : succeeded t e -> succeeded (t ++ t') e.
Proof.
  intros (p & n & Hin). exists p, n. apply in_or_app. left. exact Hin.
Qed.

Lemma backed_app strict t t' e : backed strict t e -> backed strict (t ++ t') e.
Proof.
  destruct strict; cbn [backed].
  - apply succeeded_app.
  - intros (e0 & H). exists e0. apply succeeded_app. exact H.
Qed.

(** Where an event of [t ++ new] lies. *)
Lemma event_in_app {A} (t new t1 t2 : list A) (x : A) :
  t ++ new = t1 ++ x :: t2 ->
  (exists t2', t = t1 ++ x :: t2')
  \/ (exists n1, t1 = t ++ n1 /\ new = n1 ++ x :: t2).
Proof.
  intros H. apply app_eq_app in H. destruct H as (l & [[H1 H2] | [H1 H2]]).
  - destruct l as [| y l'].
    + right. exists []. cbn [app] in H2. rewrite app_nil_r in H1.
      split; [rewrite app_nil_r; symmetry; exact H1 | symmetry; exact H2].
    + left. cbn [app] in H2. injection H2 as <- _. exists l'. exact H1.
  - right. exists l. split; assumption.
Qed.

Lemma confirmations_backed_quiet strict t new :
  (forall e c, ~ In (SignupAsync.Called (SignupAsync.ConfirmCall e c)) new) ->
  confirmations_backed strict t -> confirmations_backed strict (t ++ new).
Proof.
  intros Hnew H t1 t2 e c Heq.
  destruct (event_in_app _ _ _ _ _ Heq) as [(t2' & Ht) | (n1 & Ht1 & Hn)].
  - exact (H t1 t2' e c Ht).
  - exfalso. apply (Hnew e c). rewrite Hn. apply in_or_app. right. left.
    reflexivity.
Qed.

Lemma confirmations_backed_call strict t e c :
  backed strict t e ->
  confirmations_backed strict t ->
  confirmations_backed strict
    (t ++ [SignupAsync.Called (SignupAsync.ConfirmCall e c)]).
Proof.
  intros Hb H t1 t2 e' c' Heq.
  destruct (event_in_app _ _ _ _ _ Heq) as [(t2' & Ht) | (n1 & Ht1 & Hn)].
  - exact (H t1 t2' e' c' Ht).
  - destruct n1 as [| y n1']; cbn [app] in Hn.
    + injection Hn as <- <- _.
      rewrite Ht1, app_nil_r. exact Hb.
    + injection Hn as _ Hn. destruct n1'; discriminate.
Qed.

Lemma remove_nth_In {A} k (l : list A) x :
  In x (SignupAsync.remove_nth k l) -> In x l.
Proof.
  revert k. induction l as [| y r IH]; intros k H; [destruct k; exact H |].
  destruct k as [| k']; cbn [SignupAsync.remove_nth] in H.
  - right. exact H.
  - destruct H as [<- | H]; [left; reflexivity | right; exact (IH k' H)].
Qed.

Lemma start_half_call s s1 c :
  start_half s = (s1, Some c) ->
  needsVerification s1 = needsVerification s /\ email s1 = email s
  /\ match c with
     | SignupAsync.SignupCall e _ _ => e = email s
     | SignupAsync.ConfirmCall e _ =>
         e = email s /\ needsVerification s = true
     end.
Proof.
  unfold SignupAsync.handleSubmit_start.
  destruct (needsVerification s) eqn:Hm.
  - destruct (ReadingLists.trim_is_empty (verificationCode s)); [discriminate |].
    intros [= <- <-]. cbn. rewrite Hm. repeat split.
  - destruct (validate validateRequired validateEmail validatePassword s)
      as [newErrors valid].
    destruct valid; cbn [negb]; [| discriminate].
    intros [= <- <-]. cbn. rewrite Hm. repeat split.
Qed.

Lemma start_half_quiet s s1 :
  start_half s = (s1, None) ->
  needsVerification s1 = needsVerification s /\ email s1 = email s.
Proof.
  unfold SignupAsync.handleSubmit_start.
  destruct (needsVerification s) eqn:Hm.
  - destruct (ReadingLists.trim_is_empty (verificationCode s)); [| discriminate].
    intros [= <-]. cbn. rewrite Hm. split; reflexivity.
  - destruct (validate validateRequired validateEmail validatePassword s)
      as [newErrors valid].
    destruct valid; cbn [negb]; [discriminate |].
    intros [= <-]. cbn. rewrite Hm. split; reflexivity.
Qed.

Lemma pending_signups_frame p p' :
  incl (SignupAsync.in_flight p') (SignupAsync.in_flight p) ->
  email (SignupAsync.cells p') = email (SignupAsync.cells p) ->
  pending_signups_current p -> pending_signups_current p'.
Proof.
  intros Hin He H e pw n Hc. rewrite He. exact (H e pw n (Hin _ Hc)).
Qed.

Lemma no_signup_pending l :
  existsb SignupAsync.is_signup l = false ->
  forall e pw n, ~ In (SignupAsync.SignupCall e pw n) l.
Proof.
  intros H e pw n Hin.
  assert (Ht : existsb SignupAsync.is_signup l = true).
  { apply existsb_exists. eexists. split; [exact Hin | reflexivity]. }
  congruence.
Qed.

Lemma step_keeps_in_order strict p t g :
  (strict = true -> untouched [g] p = true) ->
  in_order strict p t ->
  in_order strict (fst (async_step p g)) (t ++ snd (async_step p g)).
Proof.
  intros Hguard (H1 & H2 & H3).
  destruct g as [g | k outcome].
  - destruct g as [v | v | v | v | v | |];
      try (cbn [SignupAsync.step SignupAsync.edit fst snd];
           destruct (needsVerification (SignupAsync.cells p)) eqn:Hm;
           (split; [intros Hs; apply (pending_signups_frame p);
                    [apply incl_refl | reflexivity | exact (H1 Hs)]
                   | split; [cbn; rewrite ?Hm; intros Hn;
                             try discriminate; apply backed_app; auto
                            | apply confirmations_backed_quiet;
                              [intros e c [] | exact H3]]]); fail).
    + (* the e-mail field *)
      cbn [SignupAsync.step SignupAsync.edit fst snd].
      destruct (needsVerification (SignupAsync.cells p)) eqn:Hm.
      * split; [intros Hs; apply (pending_signups_frame p);
                [apply incl_refl | reflexivity | exact (H1 Hs)] |].
        split; [cbn; intros Hn; apply backed_app; auto |].
        apply confirmations_backed_quiet; [intros e c [] | exact H3].
      * split.
        { intros Hs e pw n Hin. cbn in Hin.
          specialize (Hguard Hs).
          cbn [SignupAsync.email_untouched_in_flight] in Hguard.
          apply andb_true_iff in Hguard. destruct Hguard as [Hg _].
          apply negb_true_iff in Hg.
          destruct (no_signup_pending _ Hg e pw n Hin). }
        split; [cbn; rewrite Hm; discriminate |].
        apply confirmations_backed_quiet; [intros e c [] | exact H3].
    + (* a submission *)
      cbn [SignupAsync.step].
      destruct (start_half (SignupAsync.cells p)) as [s1 [c |]] eqn:Hst;
        cbn [fst snd SignupAsync.cells SignupAsync.in_flight].
      * destruct (start_half_call _ _ _ Hst) as (Hn & He & Hc).
        split; [| split].
        -- intros Hs e pw n Hin. cbn in Hin |- *. rewrite He.
           apply in_app_or in Hin. destruct Hin as [Hin | [Hin | []]].
           ++ exact (H1 Hs e pw n Hin).
           ++ subst c. exact Hc.
        -- cbn. rewrite Hn, He. intros Hv. apply backed_app. auto.
        -- destruct c as [e pw n | e code].
           ++ apply confirmations_backed_quiet; [| exact H3].
              intros e' c' [Hin | []]. discriminate.
           ++ destruct Hc as [-> Hv].
              apply confirmations_backed_call; [exact (H2 Hv) | exact H3].
      * destruct (start_half_quiet _ _ Hst) as (Hn & He).
        split; [| split].
        -- intros Hs. apply (pending_signups_frame p);
             [apply incl_refl | exact He | exact (H1 Hs)].
        -- cbn. rewrite Hn, He. intros Hv. apply backed_app. auto.
        -- apply confirmations_backed_quiet; [intros e c [] | exact H3].
  - (* a call settles *)
    cbn [SignupAsync.step].
    destruct (nth_error (SignupAsync.in_flight p) k) as [c |] eqn:Hk;
      cbn [fst snd].
    2:{ rewrite app_nil_r. split; [exact H1 | split; [exact H2 | exact H3]]. }
    assert (Hin : In c (SignupAsync.in_flight p))
      by (eapply nth_error_In; exact Hk).
    assert (Hquiet : forall tail,
               (forall e c', ~ In (SignupAsync.Called (SignupAsync.ConfirmCall e c')) tail) ->
               confirmations_backed strict
                 (t ++ SignupAsync.Settled c outcome :: tail)).
    { intros tail Htail. apply confirmations_backed_quiet; [| exact H3].
      intros e c' [Hx | Hx]; [discriminate | exact (Htail e c' Hx)]. }
    assert (Hframe : forall s',
               email s' = email (SignupAsync.cells p) -> strict = true ->
               pending_signups_current
                 {| SignupAsync.cells := s';
                    SignupAsync.in_flight :=
                      SignupAsync.remove_nth k (SignupAsync.in_flight p) |}).
    { intros s' He Hs. apply (pending_signups_frame p);
        [intros x Hx; exact (remove_nth_In _ _ _ Hx) | exact He | exact (H1 Hs)]. }
    destruct c as [e pw n | e code]; destruct outcome as [[] | err];
      cbn [SignupAsync.handleSubmit_resume fst snd SignupAsync.cells].
    + split; [apply Hframe; reflexivity |].
      split; [| apply Hquiet; intros e' c' []].
      intros _. cbn.
      assert (Hok : succeeded
                      (t ++ [SignupAsync.Settled (SignupAsync.SignupCall e pw n) (Ok tt)])
                      e).
      { exists pw, n. apply in_or_app. right. left. reflexivity. }
      destruct strict; cbn [backed].
      * rewrite <- (H1 eq_refl e pw n Hin). exact Hok.
      * exists e. exact Hok.
    + split; [apply Hframe; reflexivity |].
      split; [cbn; intros Hv; apply backed_app; auto |].
      apply Hquiet. intros e' c' [Hx | []]. discriminate.
    + split; [apply Hframe; reflexivity |].
      split; [cbn; intros Hv; apply backed_app; auto |].
      apply Hquiet. intros e' c' [Hx | [Hx | []]]; discriminate.
    + split; [apply Hframe; reflexivity |].
      split; [cbn; intros Hv; apply backed_app; auto |].
      apply Hquiet. intros e' c' [Hx | []]. discriminate.
Qed.

Lemma session_keeps_in_order strict gs p t :
  (strict = true -> untouched gs p = true) ->
  in_order strict p t ->
  in_order strict (fst (async_session gs p)) (t ++ snd (async_session gs p)).
Proof.
  revert p t. induction gs as [| g r IH]; intros p t Hguard Hinv;
    cbn [SignupAsync.session].
  - cbn [fst snd]. rewrite app_nil_r. exact Hinv.
  - assert (Hg : strict = true -> untouched [g] p = true).
    { intros Hs. specialize (Hguard Hs).
      cbn [SignupAsync.email_untouched_in_flight] in *.
      apply andb_true_iff in Hguard. destruct Hguard as [Hg _].
      rewrite Hg. reflexivity. }
    assert (Hr : strict = true -> untouched r (fst (async_step p g)) = true).
    { intros Hs. specialize (Hguard Hs).
      cbn [SignupAsync.email_untouched_in_flight] in Hguard.
      apply andb_true_iff in Hguard. destruct Hguard as [_ Hr]. exact Hr. }
    pose proof (step_keeps_in_order strict p t g Hg Hinv) as Hstep.
    destruct (async_step p g) as [p1 t1]. cbn [fst snd] in Hstep, Hr.
    specialize (IH p1 (t ++ t1) Hr Hstep).
    destruct (async_session r p1) as [p2 t2]. cbn [fst snd] in *.
    rewrite app_assoc. exact IH.
Qed.

Lemma start_in_order strict : in_order strict SignupAsync.start [].
Proof.
  split; [intros _ e pw n [] |]. split; [discriminate |].
  intros t1 t2 e c H. destruct t1; discriminate.
Qed.

(** X19.  In a session of the signup page that starts on the empty
    form, with requests in flight and the page live in between, every
    [confirmSignUp] call comes after a [signup] call of the session has
    settled successfully; and when the e-mail field is left alone while
    a [signup] call is pending, it is made for an address whose own
    [signup] call has settled successfully before. *)
Theorem confirmation_follows_successful_signup
  (gs : list SignupAsync.gesture) :
  let t := snd (async_session gs SignupAsync.start) in
  (forall t1 t2 e c,
      t = t1 ++ SignupAsync.Called (SignupAsync.ConfirmCall e c) :: t2 ->
      exists e0, succeeded t1 e0)
  /\ (untouched gs SignupAsync.start = true ->
      forall t1 t2 e c,
        t = t1 ++ SignupAsync.Called (SignupAsync.ConfirmCall e c) :: t2 ->
        succeeded t1 e).
Proof.
  cbv zeta. split.
  - destruct (session_keeps_in_order false gs SignupAsync.start []
                (fun H => False_ind _ (Bool.diff_false_true H))
                (start_in_order false)) as (_ & _ & H).
    exact H.
  - intros Hu.
    destruct (session_keeps_in_order true gs SignupAsync.start []
                (fun _ => Hu) (start_in_order true)) as (_ & _ & H).
    exact H.
Qed.

End Page.

(** ** Concrete runs *)

Definition required (s : string) : bool := negb (s =? "")%string.
Definition long_enough (s : string) : bool := (8 <=? String.length s)%nat.
Definition accepts_everyone (e p n : string) : result unit := Ok tt.
Definition accepts_every_code (e c : string) : result unit := Ok tt.

Definition filled : State :=
  {| name := "Ada"; email := "ada@example.com"; password := "Passw0rd!";
     confirmPassword := "Passw0rd?"; errors := no_errors; isLoading := false;
     needsVerification := false; verificationCode := "" |}.

Lemma signup_call_requires_accepted_form_witness :
  snd (handleSubmit required required long_enough accepts_everyone
         accepts_every_code true filled) = []
  /\ err_confirmPassword
       (errors (fst (handleSubmit required required long_enough
                       accepts_everyone accepts_every_code true filled)))
     = Some "Passwords do not match".
Proof.
  destruct (signup_call_requires_accepted_form required required long_enough
              accepts_everyone accepts_every_code true filled eq_refl)
    as (_ & _ & H).
  apply H. discriminate.
Defined.

(** Ada signs up, waits for the answer, and enters the code. *)
Definition fill_in : list SignupAsync.gesture :=
  [SignupAsync.User (TypeName "Ada");
   SignupAsync.User (TypeEmail "ada@example.com");
   SignupAsync.User (TypePassword "Passw0rd!");
   SignupAsync.User (TypeConfirmPassword "Passw0rd!");
   SignupAsync.User Submit].

Definition enter_code : list SignupAsync.gesture :=
  [SignupAsync.Settle 0 (Ok tt);
   SignupAsync.User (TypeCode "123456");
   SignupAsync.User Submit].

Definition patient_session : list SignupAsync.gesture := fill_in ++ enter_code.

(** The same, but the e-mail field is changed while the [signup] call
    is pending. *)
Definition hasty_session : list SignupAsync.gesture :=
  fill_in ++ SignupAsync.User (TypeEmail "eve@example.com") :: enter_code.

Definition ada_signed_up : list SignupAsync.event :=
  [SignupAsync.Called
     (SignupAsync.SignupCall "ada@example.com" "Passw0rd!" "Ada");
   SignupAsync.Settled
     (SignupAsync.SignupCall "ada@example.com" "Passw0rd!" "Ada") (Ok tt)].

Lemma confirmation_follows_successful_signup_witness :
  snd (SignupAsync.session required required long_enough true
         patient_session SignupAsync.start)
    = ada_signed_up
      ++ [SignupAsync.Called (SignupAsync.ConfirmCall "ada@example.com" "123456")]
  /\ succeeded ada_signed_up "ada@example.com".
Proof.
  split; [reflexivity |].
  destruct (confirmation_follows_successful_signup required required
              long_enough true patient_session) as (_ & H).
  apply (H eq_refl ada_signed_up [] "ada@example.com" "123456").
  reflexivity.
Defined.

(** An e-mail field edited while the [signup] call is pending: the
    page then asks to confirm an address no [signup] call was made
    for. *)
Lemma edited_email_is_confirmed :
  SignupAsync.email_untouched_in_flight required required long_enough true
    hasty_session SignupAsync.start = false
  /\ snd (SignupAsync.session required required long_enough true
            hasty_session SignupAsync.start)
     = ada_signed_up
       ++ [SignupAsync.Called (SignupAsync.ConfirmCall "eve@example.com" "123456")]
  /\ ~ succeeded ada_signed_up "eve@example.com".
Proof.
  split; [reflexivity | split; [reflexivity |]].
  intros (p & n & [H | [H | []]]); discriminate.
Qed.

End SignupFacts.
